(** * Voidium Connect: a Rocq model of the remote filesystem bridge,
    the directory reveal engine, the status poller, the connect flow and the
    connection state.

    The development is a shallow embedding of the TypeScript sources
    ([config.ts], [state.ts], [fsProvider.ts], [treeView.ts], [statusBar.ts],
    [panel.ts], [extension.ts]).  Asynchronous code is written in a small state-and-error
    monad over an explicit world (shared runtime state, metadata cache, timers,
    event trace); the network and the user are oracles indexed by the number of
    requests and prompts issued so far.  The two event-driven controllers are
    state machines whose events are the callbacks of the event loop. *)

From Stdlib Require Import ZArith NArith List Ascii String Bool Lia.
From Stdlib Require Import Sorting.Sorted Sorting.Permutation.
From stdpp Require Import base option list gmap strings pretty.
Import ListNotations.

(** ** Part I. Definitions *)

(** *** JavaScript string and array primitives used by the sources *)
Module Js.

(** [Boolean(s)] for a string: only the empty string is falsy. *)
Definition truthy (s : string) : bool := negb (String.eqb s "").

(** [a || b] on strings. *)
Definition or_else (a b : string) : string := if truthy a then a else b.

(** [s.split(sep)] for a one-character separator; never returns []. *)
Fixpoint split (sep : ascii) (s : string) : list string :=
  match s with
  | EmptyString => [EmptyString]
  | String c rest =>
      if Ascii.eqb c sep then EmptyString :: split sep rest
      else match split sep rest with
           | [] => [String c EmptyString]
           | seg :: segs => String c seg :: segs
           end
  end.

(** [l.join(sep)]. *)
Fixpoint join (sep : string) (l : list string) : string :=
  match l with
  | [] => ""
  | [x] => x
  | x :: rest => x +:+ sep +:+ join sep rest
  end.

(** [l.slice(0, -1)]. *)
Definition slice_0_m1 (l : list string) : list string := removelast l.

(** [l.pop()] and [l.at(-1)] as values: [undefined] on the empty array. *)
Definition pop (l : list string) : option string := last l.

(** A value interpolated in a template literal. *)
Definition interpolate (v : option string) : string :=
  match v with Some s => s | None => "undefined" end.

(** White space removed by [trim].  A character of a string is a code unit
    below 256; the white space and line terminators of the language among
    them are the space, the no-break space (160) and the control characters
    tab, line feed, vertical tab, form feed and carriage return. *)
Definition is_white (c : ascii) : bool :=
  let n := nat_of_ascii c in
  (n =? 32)%nat || (n =? 160)%nat || ((9 <=? n)%nat && (n <=? 13)%nat).

Fixpoint trim_start (s : string) : string :=
  match s with
  | EmptyString => EmptyString
  | String c rest => if is_white c then trim_start rest else s
  end.

Definition trim (s : string) : string :=
  String.rev (trim_start (String.rev (trim_start s))).

(** [path.replace(/^\//, "")]. *)
Definition removeStartSlash (path : string) : string :=
  match path with
  | String "/" rest => rest
  | _ => path
  end.

(** [s.includes(c)] for one character. *)
Definition includes (c : ascii) (s : string) : bool :=
  existsb (Ascii.eqb c) (list_ascii_of_string s).

(** The character [s[i]], [undefined] out of range. *)
Definition char_at (i : nat) (s : string) : option ascii := String.get i s.

End Js.

(** *** config.ts *)
Module Config.

(** The persisted settings of section [pterodactyl-vsc] that the code reads. *)
Record Settings := mkSettings {
  serverId : option string;
  apiKey : option string;
  proxyUrlSetting : option string
}.

Definition HARD_CODED_PANEL_URL : string := "https://voidium.uk".

Definition getPanelUrl : string := HARD_CODED_PANEL_URL.

(** [value && value.trim() ? value : void 0]. *)
Definition nonblank (v : option string) : option string :=
  match v with
  | Some s => if Js.truthy s && Js.truthy (Js.trim s) then Some s else None
  | None => None
  end.

Definition getServerId (c : Settings) : option string := nonblank (serverId c).

Definition getApiKey (c : Settings) : option string := nonblank (apiKey c).

Definition getProxyBase (c : Settings) : string := default "" (proxyUrlSetting c).

Definition buildServerApiUrl (panelUrl serverId : string) : string :=
  panelUrl +:+ "/api/client/servers/" +:+ serverId +:+ "/files".

End Config.

(** *** state.ts and the handlers of extension.ts that write the state *)
Module State.

Record RuntimeState := mkRuntimeState {
  serverApiUrl : string;
  authHeader : string
}.

Definition set_serverApiUrl (v : string) (s : RuntimeState) : RuntimeState :=
  mkRuntimeState v (authHeader s).

Definition set_authHeader (v : string) (s : RuntimeState) : RuntimeState :=
  mkRuntimeState (serverApiUrl s) v.

Definition createRuntimeState : RuntimeState := mkRuntimeState "" "".

Definition hydrateRuntimeState (c : Config.Settings) (state : RuntimeState) : RuntimeState :=
  let panelUrl := Config.getPanelUrl in
  let serverId := Config.getServerId c in
  let apiKey := Config.getApiKey c in
  let state :=
    match serverId with
    | Some id =>
        if Js.truthy panelUrl
        then set_serverApiUrl (Config.buildServerApiUrl panelUrl id) state
        else state
    | None => state
    end in
  match apiKey with
  | Some k => set_authHeader ("Bearer " +:+ k) state
  | None => state
  end.

Definition connectRuntimeState (state : RuntimeState) (panelUrl serverId apiKey : string)
  : RuntimeState :=
  set_authHeader ("Bearer " +:+ apiKey)
    (set_serverApiUrl (Config.buildServerApiUrl panelUrl serverId) state).

Definition clearRuntimeState (state : RuntimeState) : RuntimeState :=
  set_authHeader "" (set_serverApiUrl "" state).

(** The state writes of the [onDidChangeConfiguration] handler; the two flags
    are [event.affectsConfiguration] for panelUrl-or-serverId and for apiKey.
    The API key is read from the settings without trimming. *)
Definition onDidChangeConfiguration (affectsServer affectsApiKey : bool)
    (c : Config.Settings) (state : RuntimeState) : RuntimeState :=
  let state :=
    if affectsServer then
      match Config.getServerId c with
      | Some id =>
          if Js.truthy Config.getPanelUrl
          then set_serverApiUrl (Config.buildServerApiUrl Config.getPanelUrl id) state
          else set_serverApiUrl "" state
      | None => set_serverApiUrl "" state
      end
    else state in
  if affectsApiKey then
    match Config.apiKey c with
    | Some k => if Js.truthy k then set_authHeader ("Bearer " +:+ k) state
                else set_authHeader "" state
    | None => set_authHeader "" state
    end
  else state.

(** The synchronous state write of the [onAuthenticationFailed] dependency and
    of the [clearApiKey] command. *)
Definition onAuthenticationFailed (state : RuntimeState) : RuntimeState :=
  set_authHeader "" state.

Definition clearApiKeyCommand (state : RuntimeState) : RuntimeState :=
  set_authHeader "" state.

(** The writes that can reach the connection state, in the order an extension
    host delivers them. *)
Inductive Action :=
| Hydrate (c : Config.Settings)
| Connect (panelRootUrl serverId apiKey : string)
| Reset
| ConfigurationChanged (affectsServer affectsApiKey : bool) (c : Config.Settings)
| ClearApiKey
| AuthenticationFailed.

Definition apply (a : Action) (s : RuntimeState) : RuntimeState :=
  match a with
  | Hydrate c => hydrateRuntimeState c s
  | Connect p id k => connectRuntimeState s p id k
  | Reset => clearRuntimeState s
  | ConfigurationChanged f g c => onDidChangeConfiguration f g c s
  | ClearApiKey => clearApiKeyCommand s
  | AuthenticationFailed => onAuthenticationFailed s
  end.

Definition run (acts : list Action) : RuntimeState :=
  foldl (fun s a => apply a s) createRuntimeState acts.

Definition both_empty (s : RuntimeState) : Prop :=
  serverApiUrl s = "" ∧ authHeader s = "".

Definition both_nonempty (s : RuntimeState) : Prop :=
  serverApiUrl s ≠ "" ∧ authHeader s ≠ "".

(** The invariant of the data model: both empty, or both non-empty. *)
Definition consistent (s : RuntimeState) : Prop := both_empty s ∨ both_nonempty s.

End State.

(** *** The host API (vscode, fetch, timers) as seen by the sources *)
Module Vscode.

(** [vscode.FileType] is a bit mask. *)
Definition FileType_Unknown : Z := 0.
Definition FileType_File : Z := 1.
Definition FileType_Directory : Z := 2.
Definition FileType_SymbolicLink : Z := 64.

Definition FilePermission_Readonly : Z := 1.

Record Uri := mkUri {
  scheme : string;
  authority : string;
  path : string;
  query : string;
  fragment : string
}.

Record FileStat := mkFileStat {
  ctime : Z;
  mtime : Z;
  permissions : option Z;
  size : Z;
  type : Z
}.

(** What a rejected promise or a [throw] carries: the [vscode.FileSystemError]
    factories and the errors of the runtime. *)
Inductive Error :=
| Unavailable (message : string)
| NoPermissions (message : string)
| FileNotFound (message : string)
| FileExists (message : string)
| FileIsADirectory (message : string)
| FetchFailed (message : string)
| TypeError (message : string)
| SyntaxError (message : string)
| ThrownUndefined.

Inductive Method := GET | POST | PUT.

Definition bytes := list Byte.byte.

(** The argument of [JSON.stringify] in each request, or the raw content. *)
Inductive RequestBody :=
| NoBody
| Raw (content : bytes)
| CopyBody (location : string)
| CreateFolderBody (root name : string)
| DeleteBody (root : string) (files : list string)
| RenameBody (root : string) (files : list (string * string)).

Record Request := mkRequest {
  req_url : string;
  req_method : Method;
  req_headers : list (string * string);
  req_body : RequestBody
}.

Record ErrorEntry := mkErrorEntry {
  code : option string;
  detail : option string
}.

Record PterodactylFileAttributes := mkAttributes {
  name : string;
  is_file : bool;
  is_symlink : bool;
  created_at : string;
  modified_at : string;
  mode : string;
  attr_size : Z
}.

(** A parsed response body: the members [data] and [errors] when present. *)
Record Json := mkJson {
  data : option (list PterodactylFileAttributes);
  errors : option (list ErrorEntry)
}.

(** A [Response]; [body_json] is [None] when [response.json()] rejects. *)
Record Response := mkResponse {
  status : N;
  statusText : string;
  url : string;
  body_bytes : bytes;
  body_text : string;
  body_json : option Json
}.

Definition ok (r : Response) : bool := ((200 <=? status r) && (status r <=? 299))%N.

(** Library functions whose result the sources use but do not define. *)
Class Platform := {
  encodeURIComponent : string → string;
  Uri_toString : Uri → string;
  Uri_parse : string → Uri;
  Uri_joinPath : Uri → string → Uri;
  Date_getTime : string → Z;
  localeCompare : string → string → Z;
  String_of_error : Error → string
}.

(** How one [fetch] settles, and after how many milliseconds. *)
Inductive FetchOutcome :=
| Rejected (reason : string) (latency : N)
| Responded (r : Response) (latency : N).

(** The network and the user, as scripts: the outcome of the n-th request and
    the button chosen in the n-th warning (with the time the prompt stays up). *)
Class Environment := {
  network : nat → FetchOutcome;
  user : nat → option string * N
}.

End Vscode.

(** *** fsProvider.ts: the remote filesystem bridge *)
Module Bridge.
Import Vscode.

(** What the provider was constructed with, besides the shared state and the
    logger: the effect of the [onAuthenticationFailed] callback on the shared
    runtime state. *)
Class Dependencies := {
  deps_onAuthenticationFailed : State.RuntimeState → State.RuntimeState
}.

(** What an observer of the provider sees, oldest first. *)
Inductive Event :=
| EvLog (message : string)
| EvFetch (req : Request)
| EvWarning (message : string) (items : list string)
| EvAuthenticationFailed
| EvSleep (ms : N).

(** A pending [setTimeout] of [stat]: due time, cache key, rendered uri. *)
Record Timer := mkTimer {
  due : N;
  timer_key : string;
  timer_uri : string
}.

(** Everything an operation of the provider can read or change: the shared
    runtime state and the settings, the two maps of the metadata cache, the
    clock with the pending eviction timers, the trace of what happened, and
    how many requests and warnings have been issued (the positions in the
    scripts of the network and of the user).  Operations run to completion
    one at a time; what the event loop does while one of them is suspended
    is the running of due timers in [advance]. *)
Record World := mkWorld {
  state : State.RuntimeState;
  settings : Config.Settings;
  responseCache : gmap string FileStat;
  responseCacheHits : gmap string N;
  now : N;
  timers : list Timer;
  trace : list Event;
  fetches : nat;
  prompts : nat
}.

Definition with_state (f : State.RuntimeState → State.RuntimeState) (w : World) : World :=
  mkWorld (f (state w)) (settings w) (responseCache w) (responseCacheHits w)
          (now w) (timers w) (trace w) (fetches w) (prompts w).

Definition with_cache (f : gmap string FileStat → gmap string FileStat)
    (g : gmap string N → gmap string N) (w : World) : World :=
  mkWorld (state w) (settings w) (f (responseCache w)) (g (responseCacheHits w))
          (now w) (timers w) (trace w) (fetches w) (prompts w).

Definition with_clock (t : N) (ts : list Timer) (w : World) : World :=
  mkWorld (state w) (settings w) (responseCache w) (responseCacheHits w)
          t ts (trace w) (fetches w) (prompts w).

Definition emit (e : Event) (w : World) : World :=
  mkWorld (state w) (settings w) (responseCache w) (responseCacheHits w)
          (now w) (timers w) (trace w ++ [e]) (fetches w) (prompts w).

Definition count_fetch (w : World) : World :=
  mkWorld (state w) (settings w) (responseCache w) (responseCacheHits w)
          (now w) (timers w) (trace w) (S (fetches w)) (prompts w).

Definition count_prompt (w : World) : World :=
  mkWorld (state w) (settings w) (responseCache w) (responseCacheHits w)
          (now w) (timers w) (trace w) (fetches w) (S (prompts w)).

(** A number or [undefined] in a template literal. *)
Definition show_hits (h : option N) : string :=
  match h with Some n => pretty n | None => "undefined" end.

(** The callback that [stat] hands to [setTimeout]. *)
Definition expire (t : Timer) (w : World) : World :=
  let w := emit (EvLog (show_hits (responseCacheHits w !! timer_key t)
                        +:+ " cache hits for stat requests on " +:+ timer_uri t)) w in
  with_cache (delete (timer_key t)) (delete (timer_key t)) w.

Definition is_due (t' : N) (t : Timer) : bool := (due t <=? t')%N.

(** The event loop while the running operation is suspended for [dt]
    milliseconds: the timers that come due run, in the order they were set. *)
Definition advance (dt : N) (w : World) : World :=
  let t' := (now w + dt)%N in
  let ready := List.filter (is_due t') (timers w) in
  let waiting := List.filter (fun t => negb (is_due t' t)) (timers w) in
  foldl (fun w t => expire t w) (with_clock t' waiting w) ready.

Definition setTimeout_expire (key uri : string) (delay : N) (w : World) : World :=
  with_clock (now w) (timers w ++ [mkTimer (now w + delay)%N key uri]) w.

(** **** The monad of asynchronous operations *)
Inductive Result (A : Type) :=
| Ok (a : A)
| Throw (e : Error).
Arguments Ok {A} a.
Arguments Throw {A} e.

Definition M (A : Type) : Type := World → Result A * World.

Definition ret {A} (a : A) : M A := fun w => (Ok a, w).

Definition throw {A} (e : Error) : M A := fun w => (Throw e, w).

Definition bind {A B} (m : M A) (k : A → M B) : M B := fun w =>
  match m w with
  | (Ok a, w') => k a w'
  | (Throw e, w') => (Throw e, w')
  end.

(** [try { m } catch (error) { h error }]. *)
Definition try_catch {A} (m : M A) (h : Error → M A) : M A := fun w =>
  match m w with
  | (Ok a, w') => (Ok a, w')
  | (Throw e, w') => h e w'
  end.

Definition gets {A} (f : World → A) : M A := fun w => (Ok (f w), w).

Definition modify (f : World → World) : M unit := fun w => (Ok tt, f w).

Declare Scope async_scope.
Delimit Scope async_scope with async.
Notation "x <- c1 ;; c2" := (bind c1 (fun x => c2))
  (at level 100, c1 at next level, right associativity) : async_scope.
Notation "c1 ;;; c2" := (bind c1 (fun _ => c2))
  (at level 100, right associativity) : async_scope.
Local Open Scope async_scope.

Definition log (message : string) : M unit := modify (emit (EvLog message)).

(** [await new Promise(resolve => setTimeout(resolve, ms))]. *)
Definition sleep (ms : N) : M unit := modify (fun w => advance ms (emit (EvSleep ms) w)).

Section Provider.
Context `{Platform} `{Environment} `{Dependencies}.

(** [await fetch(url, init)]. *)
Definition fetch (req : Request) : M Response := fun w =>
  let w' := count_fetch (emit (EvFetch req) w) in
  match network (fetches w) with
  | Rejected reason latency => (Throw (FetchFailed reason), advance latency w')
  | Responded r latency => (Ok r, advance latency w')
  end.

(** [await vscode.window.showWarningMessage(message, ...items)]. *)
Definition showWarningMessage (message : string) (items : list string) : M (option string) :=
  fun w =>
    let w' := count_prompt (emit (EvWarning message items) w) in
    let '(choice, latency) := user (prompts w) in
    (Ok choice, advance latency w').

(** The call [this.onAuthenticationFailed()]. *)
Definition onAuthenticationFailed : M unit :=
  modify (fun w => with_state deps_onAuthenticationFailed (emit EvAuthenticationFailed w)).

(** [await response.json()]. *)
Definition response_json (r : Response) : M Json :=
  match body_json r with
  | Some j => ret j
  | None => throw (SyntaxError "Unexpected token in JSON")
  end.

(** [proxyUrl] of config.ts, for the settings read at the call. *)
Definition proxied (c : Config.Settings) (url : string) : string :=
  let proxyBase := Js.trim (Config.getProxyBase c) in
  if Js.truthy proxyBase then proxyBase +:+ encodeURIComponent url else url.

Definition proxyUrl (url : string) : M string :=
  c <- gets settings ;;
  ret (proxied c url).

Definition ensureConnected : M unit :=
  s <- gets state ;;
  if negb (Js.truthy (State.serverApiUrl s))
  then throw (Unavailable "No server API URL set, please init the extension first.")
  else ret tt.

(** [json.errors[0]?.detail ?? fallback]; reading [errors[0]] of a body
    without [errors] is a TypeError. *)
Definition first_detail (j : Json) (fallback : string) : Result string :=
  match errors j with
  | None => Throw (TypeError "Cannot read properties of undefined (reading '0')")
  | Some [] => Ok fallback
  | Some (e :: _) => Ok (default fallback (detail e))
  end.

Definition forConnection (operation : string) (response : Response) : M unit :=
  log (operation +:+ ": " +:+ pretty (status response) +:+ " " +:+ statusText response) ;;;
  if (status response =? 401)%N then
    s <- gets state ;;
    let host := authority (Uri_parse (State.serverApiUrl s)) in
    message <- showWarningMessage ("Authentication failed for " +:+ host +:+ ".") ["Authenticate"] ;;
    (if decide (message = Some "Authenticate") then onAuthenticationFailed else ret tt) ;;;
    throw (NoPermissions (url response))
  else if (status response =? 403)%N then
    throw (NoPermissions (url response))
  else if (status response =? 404)%N then
    throw (FileNotFound (url response))
  else if (status response =? 422)%N then
    json <- response_json response ;;
    match first_detail json "Request could not be completed." with
    | Ok d => throw (Unavailable d)
    | Throw e => throw e
    end
  else if (status response =? 429)%N then
    throw (Unavailable "You have been ratelimited by the Pterodactyl panel.")
  else if (status response =? 500)%N then
    log ("-> Response: " +:+ body_text response) ;;;
    throw (Unavailable "The server (or a proxy) was unable to handle the request. Check Output -> Pterodactyl for more information.")
  else if negb (ok response) then
    throw (Unavailable ("Unknown error: " +:+ pretty (status response) +:+ " " +:+ statusText response))
  else ret tt.

Definition getFileType (isFile isSymlink : bool) : Z :=
  if isFile && isSymlink then Z.lor FileType_File FileType_SymbolicLink
  else if isFile then FileType_File
  else if isSymlink then Z.lor FileType_Directory FileType_SymbolicLink
  else FileType_Directory.

(** The mapping of one listing entry in [readDirectory]. *)
Definition entry_of (attributes : PterodactylFileAttributes) : string * Z :=
  let type :=
    if is_file attributes && is_symlink attributes
    then Z.lor FileType_File FileType_SymbolicLink
    else if is_file attributes then FileType_File
    else if is_symlink attributes then Z.lor FileType_Directory FileType_SymbolicLink
    else FileType_Directory in
  (name attributes, type).

Definition readDirectory (uri : Uri) : M (list (string * Z)) :=
  ensureConnected ;;;
  s <- gets state ;;
  let requestUrl := State.serverApiUrl s +:+ "/list?directory=" +:+ encodeURIComponent (path uri) in
  shown <- proxyUrl requestUrl ;;
  log ("Reading directory: " +:+ shown) ;;;
  target <- proxyUrl requestUrl ;;
  s <- gets state ;;
  response <- fetch (mkRequest target GET
                       [("Authorization", State.authHeader s); ("Accept", "application/json")]
                       NoBody) ;;
  log ("readDirectory response: " +:+ pretty (status response) +:+ " " +:+ statusText response) ;;;
  forConnection ("readDirectory: " +:+ Uri_toString uri) response ;;;
  json <- response_json response ;;
  match data json with
  | Some files => ret (map entry_of files)
  | None => throw (TypeError "Cannot read properties of undefined (reading 'map')")
  end.

(** [delete(uri, options = {recursive: true})]. *)
Definition delete (uri : Uri) (recursive : bool) : M unit :=
  ensureConnected ;;;
  (if negb recursive then
     items <- try_catch (readDirectory uri) (fun _ => ret []) ;;
     if (0 <? length items)%nat
     then throw (Unavailable "Directory not empty")
     else ret tt
   else ret tt) ;;;
  s <- gets state ;;
  target <- proxyUrl (State.serverApiUrl s +:+ "/delete") ;;
  response <- fetch (mkRequest target POST
                       [("Content-Type", "application/json"); ("Authorization", State.authHeader s)]
                       (DeleteBody "/" [Js.removeStartSlash (path uri)])) ;;
  forConnection ("delete: " +:+ Uri_toString uri) response.

(** [p.split("/").slice(0, -1).join("/") || "/"]. *)
Definition parent_of (p : string) : string :=
  Js.or_else (Js.join "/" (Js.slice_0_m1 (Js.split "/" p))) "/".

(** The name under which [copy] expects the remote duplicate: the value of
    the local [copiedLocation]. *)
Definition copiedLocation (sourcePath : string) : string :=
  let oldName := Js.pop (Js.split "/" sourcePath) in
  let oldNameSegments := match oldName with Some n => Js.split "." n | None => [] end in
  let oldNamePrefix := Js.join "." (Js.slice_0_m1 oldNameSegments) in
  let oldNameSuffix := Js.pop oldNameSegments in
  oldNamePrefix +:+ " copy." +:+ Js.interpolate oldNameSuffix.

Definition json_headers (s : State.RuntimeState) : list (string * string) :=
  [("Content-Type", "application/json"); ("Authorization", State.authHeader s)].

(** [copy(source, destination, options = {overwrite: false})]. *)
Definition copy (source destination : Uri) (overwrite : bool) : M unit :=
  ensureConnected ;;;
  (if overwrite then try_catch (delete destination true) (fun _ => ret tt) else ret tt) ;;;
  s <- gets state ;;
  target <- proxyUrl (State.serverApiUrl s +:+ "/copy") ;;
  copyResponse <- fetch (mkRequest target POST (json_headers s) (CopyBody (path source))) ;;
  forConnection ("copy: " +:+ path source +:+ " -> " +:+ path destination) copyResponse ;;;
  let oldPath := parent_of (path source) in
  let copied := copiedLocation (path source) in
  let newPath := parent_of (path destination) in
  let newName := Js.interpolate (Js.pop (Js.split "/" (path destination))) in
  if String.eqb oldPath newPath then
    log ("copy: Not renaming file " +:+ newPath +:+ "/" +:+ copied +:+ " due to same directory")
  else
    log ("copy: " +:+ oldPath +:+ "/" +:+ copied +:+ " -> " +:+ newPath +:+ "/" +:+ newName) ;;;
    s <- gets state ;;
    target <- proxyUrl (State.serverApiUrl s +:+ "/rename") ;;
    renameResponse <- fetch (mkRequest target PUT (json_headers s)
                               (RenameBody "/"
                                  [(Js.removeStartSlash (oldPath +:+ "/" +:+ copied),
                                    Js.removeStartSlash (newPath +:+ "/" +:+ newName))])) ;;
    forConnection ("rename after copy: " +:+ path source +:+ " -> " +:+ path destination)
                  renameResponse.

Definition createDirectory (uri : Uri) : M unit :=
  ensureConnected ;;;
  s <- gets state ;;
  target <- proxyUrl (State.serverApiUrl s +:+ "/create-folder") ;;
  response <- fetch (mkRequest target POST (json_headers s) (CreateFolderBody "/" (path uri))) ;;
  forConnection ("createDirectory: " +:+ Uri_toString uri) response.

Definition maxRetries : N := 3.

(** The body of the [try] in the loop of [readFile]: one attempt. *)
Definition readFile_attempt (uri : Uri) (attempt : N) : M bytes :=
  s <- gets state ;;
  target <- proxyUrl (State.serverApiUrl s +:+ "/contents?file=" +:+ encodeURIComponent (path uri)) ;;
  response <- fetch (mkRequest target GET [("Authorization", State.authHeader s)] NoBody) ;;
  forConnection ("readFile: " +:+ Uri_toString uri +:+ " (attempt " +:+ pretty attempt +:+ ")")
                response ;;;
  ret (body_bytes response).

(** The [catch] of the loop: record, log, back off. *)
Definition readFile_failed (uri : Uri) (attempt : N) (error : Error) : M unit :=
  log ("readFile attempt " +:+ pretty attempt +:+ " failed for " +:+ path uri +:+ ": "
       +:+ String_of_error error) ;;;
  if (attempt <? maxRetries)%N then sleep (2 ^ attempt * 100)%N else ret tt.

(** The loop [for (attempt; attempt <= maxRetries; attempt += 1)], by the
    number of iterations left; [lastError] is the local of that name. *)
Fixpoint readFile_loop (uri : Uri) (left : nat) (attempt : N) (lastError : option Error)
  : M bytes :=
  match left with
  | O => throw (default ThrownUndefined lastError)
  | S left' =>
      r <- try_catch (b <- readFile_attempt uri attempt ;; ret (inl b))
                     (fun error => readFile_failed uri attempt error ;;; ret (inr error)) ;;
      match r with
      | inl b => ret b
      | inr error => readFile_loop uri left' (attempt + 1)%N (Some error)
      end
  end.

Definition readFile (uri : Uri) : M bytes :=
  ensureConnected ;;;
  readFile_loop uri (N.to_nat maxRetries) 1%N None.

(** [rename(oldUri, newUri, options = {overwrite: false})]. *)
Definition rename (oldUri newUri : Uri) (overwrite : bool) : M unit :=
  ensureConnected ;;;
  (if overwrite then try_catch (delete newUri true) (fun _ => ret tt) else ret tt) ;;;
  s <- gets state ;;
  target <- proxyUrl (State.serverApiUrl s +:+ "/rename") ;;
  response <- fetch (mkRequest target PUT (json_headers s)
                       (RenameBody "/" [(Js.removeStartSlash (path oldUri),
                                         Js.removeStartSlash (path newUri))])) ;;
  forConnection ("rename: " +:+ Uri_toString oldUri +:+ " -> " +:+ Uri_toString newUri) response.

Definition cacheKey_of (uri : Uri) : string := "stat:" +:+ Uri_toString uri.

Definition cache_lifetime : N := 10000.

Definition root_stat : FileStat := mkFileStat 0 0 None 0 FileType_Directory.

(** The [FileStat] that [stat] builds from a listing entry. *)
Definition stat_of (file : PterodactylFileAttributes) : FileStat :=
  mkFileStat (Date_getTime (created_at file)) (Date_getTime (modified_at file))
             (if decide (Js.char_at 2 (mode file) = Some "w"%char)
              then None else Some FilePermission_Readonly)
             (attr_size file)
             (getFileType (is_file file) (is_symlink file)).

(** The branch [if (!response.ok)] of [stat]. *)
Definition stat_not_ok (uri : Uri) (json : Json) : M FileStat :=
  match errors json with
  | None => throw (TypeError "Cannot read properties of undefined (reading '0')")
  | Some es =>
      if decide ((head es ≫= code) = Some "DaemonConnectionException")
      then throw (FileNotFound (Uri_toString uri))
      else throw (Unavailable (default "Stat request failed" (head es ≫= detail)))
  end.

Definition stat (uri : Uri) : M FileStat :=
  ensureConnected ;;;
  let cacheKey := cacheKey_of uri in
  cached <- gets (fun w => responseCache w !! cacheKey) ;;
  match cached with
  | Some c =>
      cacheHits <- gets (fun w => default 0%N (responseCacheHits w !! cacheKey)) ;;
      modify (with_cache id (<[cacheKey := (cacheHits + 1)%N]>)) ;;;
      ret c
  | None =>
      if String.eqb (path uri) "/" then ret root_stat
      else
        let folderPath := parent_of (path uri) in
        s <- gets state ;;
        target <- proxyUrl (State.serverApiUrl s +:+ "/list?directory="
                            +:+ encodeURIComponent folderPath) ;;
        response <- fetch (mkRequest target GET
                             [("Authorization", State.authHeader s); ("Accept", "application/json")]
                             NoBody) ;;
        forConnection ("stat: " +:+ Uri_toString uri) response ;;;
        json <- response_json response ;;
        if negb (ok response) then stat_not_ok uri json
        else
          let targetName := Js.pop (Js.split "/" (path uri)) in
          match data json with
          | None => throw (TypeError "Cannot read properties of undefined (reading 'find')")
          | Some files =>
              match List.find (fun entry => bool_decide (Some (name entry) = targetName)) files with
              | None => throw (FileNotFound (Uri_toString uri))
              | Some file =>
                  let responseStat := stat_of file in
                  modify (with_cache (<[cacheKey := responseStat]>) (<[cacheKey := 0%N]>)) ;;;
                  modify (setTimeout_expire cacheKey (Uri_toString uri) cache_lifetime) ;;;
                  ret responseStat
              end
          end
  end.

(** The [try] block of [writeFile]; the first component is the value of the
    local [fileExists] when control leaves the block. *)
Definition writeFile_try (uri : Uri) (overwrite : bool) (w : World)
  : bool * Result unit * World :=
  match stat uri w with
  | (Throw e, w') => (false, Throw e, w')
  | (Ok fileStat, w') =>
      if (type fileStat =? FileType_Directory)%Z
      then (true, Throw (FileIsADirectory (Uri_toString uri)), w')
      else if negb overwrite
      then (true, Throw (FileExists (Uri_toString uri)), w')
      else (true, Ok tt, w')
  end.

(** The [try]/[catch] statement of [writeFile], returning [fileExists]. *)
Definition writeFile_probe (uri : Uri) (create overwrite : bool) : M bool := fun w =>
  match writeFile_try uri overwrite w with
  | (fileExists, Ok _, w') => (Ok fileExists, w')
  | (fileExists, Throw _, w') =>
      if negb create then (Throw (FileNotFound (Uri_toString uri)), w')
      else (Ok fileExists, w')
  end.

Definition write_request (s : State.RuntimeState) (target : string) (content : bytes) : Request :=
  mkRequest target POST [("Authorization", State.authHeader s)] (Raw content).

Definition writeFile (uri : Uri) (content : bytes) (create overwrite : bool) : M unit :=
  ensureConnected ;;;
  fileExists <- writeFile_probe uri create overwrite ;;
  (if negb fileExists && create then
     try_catch
       (s <- gets state ;;
        target <- proxyUrl (State.serverApiUrl s +:+ "/write?file=" +:+ path uri) ;;
        createResponse <- fetch (write_request s target []) ;;
        log ("createFile attempt: " +:+ pretty (status createResponse) +:+ " "
             +:+ statusText createResponse))
       (fun error => log ("Failed to create file first: " +:+ String_of_error error))
   else ret tt) ;;;
  s <- gets state ;;
  target <- proxyUrl (State.serverApiUrl s +:+ "/write?file=" +:+ path uri) ;;
  response <- fetch (write_request s target content) ;;
  forConnection ("writeFile: " +:+ Uri_toString uri) response.

(** **** The requests of the operations, as values *)

(** The request with which [readDirectory] and [stat] list a directory. *)
Definition list_request (w : World) (directory : string) : Request :=
  mkRequest (proxied (settings w)
               (State.serverApiUrl (state w) +:+ "/list?directory="
                +:+ encodeURIComponent directory))
            GET
            [("Authorization", State.authHeader (state w)); ("Accept", "application/json")]
            NoBody.

(** The request of one attempt of [readFile], for the state and settings
    read when the attempt starts. *)
Definition contents_request (s : State.RuntimeState) (c : Config.Settings) (uri : Uri)
  : Request :=
  mkRequest (proxied c (State.serverApiUrl s +:+ "/contents?file="
                        +:+ encodeURIComponent (path uri)))
            GET [("Authorization", State.authHeader s)] NoBody.

End Provider.

(** **** Sequences of calls *)

(** One call of the contract run to completion, or time passing between
    calls. *)
Inductive Call :=
| CallStat (uri : Uri)
| CallReadDirectory (uri : Uri)
| CallReadFile (uri : Uri)
| CallWriteFile (uri : Uri) (content : bytes) (create overwrite : bool)
| CallCreateDirectory (uri : Uri)
| CallDelete (uri : Uri) (recursive : bool)
| CallRename (oldUri newUri : Uri) (overwrite : bool)
| CallCopy (source destination : Uri) (overwrite : bool)
| Wait (dt : N).

Section Calls.
Context `{Platform} `{Environment} `{Dependencies}.

Definition perform (c : Call) (w : World) : World :=
  match c with
  | CallStat uri => (stat uri w).2
  | CallReadDirectory uri => (readDirectory uri w).2
  | CallReadFile uri => (readFile uri w).2
  | CallWriteFile uri content create overwrite => (writeFile uri content create overwrite w).2
  | CallCreateDirectory uri => (createDirectory uri w).2
  | CallDelete uri recursive => (delete uri recursive w).2
  | CallRename oldUri newUri overwrite => (rename oldUri newUri overwrite w).2
  | CallCopy source destination overwrite => (copy source destination overwrite w).2
  | Wait dt => advance dt w
  end.

Definition after (calls : list Call) (w : World) : World :=
  foldl (fun w c => perform c w) w calls.

End Calls.

(** **** Observations on a run *)

(** The requests issued so far, oldest first. *)
Definition requests (w : World) : list Request :=
  omap (fun e => match e with EvFetch r => Some r | _ => None end) (trace w).

(** The requests and the back-off delays, in the order they happened. *)
Definition timeline (w : World) : list Event :=
  List.filter (fun e => match e with EvFetch _ | EvSleep _ => true | _ => false end) (trace w).

(** How often the authentication-failure callback has been called. *)
Definition callbacks (w : World) : nat :=
  length (List.filter (fun e => match e with EvAuthenticationFailed => true | _ => false end)
                      (trace w)).

(** The cache and its timers agree: every pending eviction timer belongs to
    a cached path, and no path has two timers. *)
Definition cache_sound (w : World) : Prop :=
  NoDup (timer_key <$> timers w)
  ∧ ∀ t, t ∈ timers w → is_Some (responseCache w !! timer_key t).

(** An operation keeps the cache sound. *)
Definition keeps {A} (m : M A) : Prop :=
  ∀ w, cache_sound w → cache_sound (m w).2.

(** An operation keeps the cache sound and stores nothing in it. *)
Definition steady {A} (m : M A) : Prop :=
  ∀ w, (cache_sound w → cache_sound (m w).2)
       ∧ (∀ k, responseCache w !! k = None → responseCache (m w).2 !! k = None).

(** The requests that carry a [DeleteBody]: the delete calls. *)
Definition is_delete_call (q : Request) : bool :=
  match req_body q with DeleteBody _ _ => true | _ => false end.

(** The requests that ask for a listing. *)
Definition is_listing_call (q : Request) : bool :=
  match req_method q, req_body q with GET, NoBody => true | _, _ => false end.

(** The error that [forConnection] throws for a response, if any: the table
    of the [switch], read off as a function. *)
Definition forConnection_error (r : Response) : option Error :=
  if (status r =? 401)%N then Some (NoPermissions (url r))
  else if (status r =? 403)%N then Some (NoPermissions (url r))
  else if (status r =? 404)%N then Some (FileNotFound (url r))
  else if (status r =? 422)%N then
    match body_json r with
    | None => Some (SyntaxError "Unexpected token in JSON")
    | Some j =>
        match errors j with
        | None => Some (TypeError "Cannot read properties of undefined (reading '0')")
        | Some es => Some (Unavailable (default "Request could not be completed."
                                                (head es ≫= detail)))
        end
    end
  else if (status r =? 429)%N then
    Some (Unavailable "You have been ratelimited by the Pterodactyl panel.")
  else if (status r =? 500)%N then
    Some (Unavailable "The server (or a proxy) was unable to handle the request. Check Output -> Pterodactyl for more information.")
  else if negb (ok r) then
    Some (Unavailable ("Unknown error: " +:+ pretty (status r) +:+ " " +:+ statusText r))
  else None.

Definition outcome_of (e : option Error) : Result unit :=
  match e with
  | Some e => Throw e
  | None => Ok tt
  end.

(** Whether the user answers the n-th warning with "Authenticate". *)
Definition authenticates `{Environment} (n : nat) : bool :=
  bool_decide ((user n).1 = Some "Authenticate").

(** An operation fails as unauthenticated on the response [r]: it throws
    NoPermissions for the response, it issued that one request, and the
    callback ran once if the user chose "Authenticate" in the warning and
    not at all otherwise. *)
Definition fails_unauthenticated `{Environment} {A} (m : M A) (w : World) (r : Response)
  : Prop :=
  ∃ w', m w = (Throw (NoPermissions (url r)), w')
        ∧ fetches w' = S (fetches w)
        ∧ prompts w' = S (prompts w)
        ∧ callbacks w' = callbacks w + (if authenticates (prompts w) then 1 else 0).

(** The error with which one attempt of [readFile] fails, if it fails. *)
Definition attempt_error (o : FetchOutcome) : option Error :=
  match o with
  | Rejected reason _ => Some (FetchFailed reason)
  | Responded r _ => forConnection_error r
  end.

(** Whether a request is answered with status 401. *)
Definition unauthorized (o : FetchOutcome) : bool :=
  match o with
  | Rejected _ _ => false
  | Responded r _ => (status r =? 401)%N
  end.

(** The payload of an attempt that succeeds. *)
Definition attempt_payload (o : FetchOutcome) : bytes :=
  match o with
  | Rejected _ _ => []
  | Responded r _ => body_bytes r
  end.

End Bridge.

(** *** treeView.ts: the directory reveal engine *)
Module Tree.
Import Vscode.

Definition TreeItemCollapsibleState_None : Z := 0.
Definition TreeItemCollapsibleState_Collapsed : Z := 1.

Record PterodactylTreeItem := mkTreeItem {
  label : string;
  collapsibleState : Z;
  uri : Uri;
  isFile : bool
}.

Definition contextValue (item : PterodactylTreeItem) : string :=
  if isFile item then "file" else "folder".

(** [Array.prototype.sort(compare)]: the sort of the language is stable, and
    for a comparator that is consistent on the elements every stable sort
    returns the same array; it is run here as a stable insertion sort. *)
Fixpoint sort_insert {A} (compare : A → A → Z) (x : A) (l : list A) : list A :=
  match l with
  | [] => [x]
  | y :: l' =>
      if (compare x y <=? 0)%Z then x :: y :: l'
      else y :: sort_insert compare x l'
  end.

Definition Array_sort {A} (compare : A → A → Z) (l : list A) : list A :=
  foldr (sort_insert compare) [] l.

(** [x] is not after [y] in the order of a comparator. *)
Definition not_after {A} (compare : A → A → Z) (x y : A) : Prop := (compare x y ≤ 0)%Z.

(** A comparator is consistent on a list of values: any two of them are
    comparable one way or the other, and "not after" is transitive. *)
Definition consistent_on {A} (compare : A → A → Z) (l : list A) : bool :=
  forallb (fun a =>
    forallb (fun b =>
      ((compare a b <=? 0)%Z || (compare b a <=? 0)%Z)
      && forallb (fun c =>
           implb ((compare a b <=? 0)%Z && (compare b c <=? 0)%Z) (compare a c <=? 0)%Z) l)
      l) l.

(** A load started by [startAnimatedLoad] whose [readDirectory] promise has
    not settled: promise identity, directory key, uri and tree element. *)
Record Load := mkLoad {
  load_id : nat;
  load_key : string;
  load_uri : Uri;
  load_element : option PterodactylTreeItem
}.

(** A live [setTimeout] of the reveal loop. *)
Record Reveal := mkReveal {
  handle : nat;
  reveal_key : string;
  reveal_element : option PterodactylTreeItem;
  delay : N
}.

(** The provider's five maps, and around them the event loop: loads awaiting
    the bridge, live timers, the change notifications fired so far ([None] is
    the whole tree) and the next fresh identity. *)
Record Provider := mkProvider {
  allItemsByDirectory : gmap string (list PterodactylTreeItem);
  visibleItemsByDirectory : gmap string (list PterodactylTreeItem);
  loadInFlightByDirectory : gmap string nat;
  refreshTargetByDirectory : gmap string (option PterodactylTreeItem);
  revealTimersByDirectory : gmap string nat;
  outstanding : list Load;
  scheduled : list Reveal;
  fired : list (option PterodactylTreeItem);
  fresh : nat
}.

Definition initial : Provider := mkProvider ∅ ∅ ∅ ∅ ∅ [] [] [] 0.

Section Engine.
Context `{Platform}.

Definition compareItems (left right : PterodactylTreeItem) : Z :=
  if negb (Bool.eqb (isFile left) (isFile right))
  then (if isFile left then 1 else -1)%Z
  else localeCompare (label left) (label right).

Definition toTreeItem (directoryUri : Uri) (name : string) (type : Z) : PterodactylTreeItem :=
  let uri := Uri_joinPath directoryUri name in
  let isFile := negb (Z.land type FileType_File =? 0)%Z in
  let collapsibleState :=
    if isFile then TreeItemCollapsibleState_None else TreeItemCollapsibleState_Collapsed in
  mkTreeItem name collapsibleState uri isFile.

(** The sorted array that a load stores as [allItems]. *)
Definition sortedTreeItems (directoryUri : Uri) (items : list (string * Z))
  : list PterodactylTreeItem :=
  Array_sort compareItems (map (fun '(name, type) => toTreeItem directoryUri name type) items).

Definition directoryUri_of (element : option PterodactylTreeItem) : Uri :=
  match element with
  | Some e => uri e
  | None => Uri_parse "pterodactyl:/"
  end.

Definition fire (target : option PterodactylTreeItem) (p : Provider) : Provider :=
  mkProvider (allItemsByDirectory p) (visibleItemsByDirectory p) (loadInFlightByDirectory p)
             (refreshTargetByDirectory p) (revealTimersByDirectory p)
             (outstanding p) (scheduled p) (fired p ++ [target]) (fresh p).

Definition revealNextItems (directoryKey : string) (element : option PterodactylTreeItem)
    (p : Provider) : Provider :=
  match allItemsByDirectory p !! directoryKey, visibleItemsByDirectory p !! directoryKey with
  | Some allItems, Some visibleItems =>
      if (length allItems <=? length visibleItems)%nat then
        mkProvider (allItemsByDirectory p) (visibleItemsByDirectory p)
                   (loadInFlightByDirectory p) (refreshTargetByDirectory p)
                   (base.delete directoryKey (revealTimersByDirectory p))
                   (outstanding p) (scheduled p) (fired p) (fresh p)
      else
        let target :=
          match refreshTargetByDirectory p !! directoryKey with
          | Some (Some t) => Some t
          | _ => element
          end in
        let timer := fresh p in
        mkProvider (allItemsByDirectory p)
                   (<[directoryKey := take (length visibleItems + 1) allItems]>
                      (visibleItemsByDirectory p))
                   (loadInFlightByDirectory p) (refreshTargetByDirectory p)
                   (<[directoryKey := timer]> (revealTimersByDirectory p))
                   (outstanding p)
                   (scheduled p ++ [mkReveal timer directoryKey element 12])
                   (fired p ++ [target]) (S (fresh p))
  | _, _ => p
  end.

(** [startAnimatedLoad] up to its first suspension: either there is a load in
    flight for the key and nothing is started, or [readDirectory] is called
    and the promise is registered. *)
Definition startAnimatedLoad (directoryUri : Uri) (element : option PterodactylTreeItem)
    (p : Provider) : Provider :=
  let directoryKey := Uri_toString directoryUri in
  match loadInFlightByDirectory p !! directoryKey with
  | Some _ => p
  | None =>
      let loadPromise := fresh p in
      mkProvider (allItemsByDirectory p) (visibleItemsByDirectory p)
                 (<[directoryKey := loadPromise]> (loadInFlightByDirectory p))
                 (refreshTargetByDirectory p) (revealTimersByDirectory p)
                 (outstanding p ++ [mkLoad loadPromise directoryKey directoryUri element])
                 (scheduled p) (fired p) (S (fresh p))
  end.

Definition getChildren (element : option PterodactylTreeItem) (p : Provider)
  : list PterodactylTreeItem * Provider :=
  let directoryUri := directoryUri_of element in
  let directoryKey := Uri_toString directoryUri in
  let p := mkProvider (allItemsByDirectory p) (visibleItemsByDirectory p)
                      (loadInFlightByDirectory p)
                      (<[directoryKey := element]> (refreshTargetByDirectory p))
                      (revealTimersByDirectory p)
                      (outstanding p) (scheduled p) (fired p) (fresh p) in
  match visibleItemsByDirectory p !! directoryKey with
  | Some visibleItems => (visibleItems, p)
  | None => ([], startAnimatedLoad directoryUri element p)
  end.

Definition clearTimeout (timer : nat) (live : list Reveal) : list Reveal :=
  List.filter (fun r => negb (handle r =? timer)%nat) live.

Definition refresh (p : Provider) : Provider :=
  let timers := (map_to_list (revealTimersByDirectory p)).*2 in
  let live := foldl (fun live timer => clearTimeout timer live) (scheduled p) timers in
  mkProvider ∅ ∅ ∅ ∅ ∅ (outstanding p) live (fired p ++ [None]) (fresh p).

(** The continuation of a load when its [readDirectory] promise settles:
    the rest of the [try], or the [catch], and then the [finally]. *)
Definition settle (l : Load) (r : Bridge.Result (list (string * Z))) (p : Provider) : Provider :=
  let directoryKey := load_key l in
  let p :=
    match r with
    | Bridge.Ok items =>
        let treeItems := sortedTreeItems (load_uri l) items in
        revealNextItems directoryKey (load_element l)
          (mkProvider (<[directoryKey := treeItems]> (allItemsByDirectory p))
                      (<[directoryKey := []]> (visibleItemsByDirectory p))
                      (loadInFlightByDirectory p) (refreshTargetByDirectory p)
                      (revealTimersByDirectory p)
                      (outstanding p) (scheduled p) (fired p) (fresh p))
    | Bridge.Throw _ =>
        fire (load_element l)
          (mkProvider (allItemsByDirectory p)
                      (<[directoryKey := []]> (visibleItemsByDirectory p))
                      (loadInFlightByDirectory p) (refreshTargetByDirectory p)
                      (revealTimersByDirectory p)
                      (outstanding p) (scheduled p) (fired p) (fresh p))
    end in
  mkProvider (allItemsByDirectory p) (visibleItemsByDirectory p)
             (base.delete directoryKey (loadInFlightByDirectory p))
             (refreshTargetByDirectory p) (revealTimersByDirectory p)
             (outstanding p) (scheduled p) (fired p) (fresh p).

(** What the event loop delivers to the provider. *)
Inductive Input :=
| GetChildren (element : option PterodactylTreeItem)
| Refresh
| ListingSettled (id : nat) (r : Bridge.Result (list (string * Z)))
| TimerFired (timer : nat).

Definition remove_load (id : nat) (p : Provider) : Provider :=
  mkProvider (allItemsByDirectory p) (visibleItemsByDirectory p) (loadInFlightByDirectory p)
             (refreshTargetByDirectory p) (revealTimersByDirectory p)
             (List.filter (fun l => negb (load_id l =? id)%nat) (outstanding p))
             (scheduled p) (fired p) (fresh p).

Definition remove_timer (timer : nat) (p : Provider) : Provider :=
  mkProvider (allItemsByDirectory p) (visibleItemsByDirectory p) (loadInFlightByDirectory p)
             (refreshTargetByDirectory p) (revealTimersByDirectory p)
             (outstanding p) (clearTimeout timer (scheduled p)) (fired p) (fresh p).

(** One turn of the event loop.  A settlement or a timer that names no
    outstanding load or live timer is not delivered. *)
Definition step (i : Input) (p : Provider) : Provider :=
  match i with
  | GetChildren element => (getChildren element p).2
  | Refresh => refresh p
  | ListingSettled id r =>
      match List.find (fun l => (load_id l =? id)%nat) (outstanding p) with
      | Some l => settle l r (remove_load id p)
      | None => p
      end
  | TimerFired timer =>
      match List.find (fun r => (handle r =? timer)%nat) (scheduled p) with
      | Some r => revealNextItems (reveal_key r) (reveal_element r) (remove_timer timer p)
      | None => p
      end
  end.

Definition run (inputs : list Input) (p : Provider) : Provider :=
  foldl (fun p i => step i p) p inputs.

(** The loads outstanding for one directory key. *)
Definition loads_for (directoryKey : string) (p : Provider) : list Load :=
  List.filter (fun l => String.eqb (load_key l) directoryKey) (outstanding p).

(** [refresh()] is only delivered while no load is outstanding. *)
Fixpoint refresh_when_idle (inputs : list Input) (p : Provider) : bool :=
  match inputs with
  | [] => true
  | i :: rest =>
      match i with
      | Refresh => bool_decide (outstanding p = [])
      | _ => true
      end && refresh_when_idle rest (step i p)
  end.

(** Every outstanding load is the one registered in flight for its
    directory, and the loads have distinct identities below [fresh]. *)
Definition tracked (p : Provider) : Prop :=
  (∀ l, l ∈ outstanding p → loadInFlightByDirectory p !! load_key l = Some (load_id l))
  ∧ NoDup (load_id <$> outstanding p)
  ∧ (∀ l, l ∈ outstanding p → load_id l < fresh p).

(** [refresh()] is only delivered while no load of the directory
    [directoryKey] is outstanding; loads of other directories may be. *)
Fixpoint refresh_spares (directoryKey : string) (inputs : list Input) (p : Provider) : bool :=
  match inputs with
  | [] => true
  | i :: rest =>
      match i with
      | Refresh => bool_decide (loads_for directoryKey p = [])
      | _ => true
      end && refresh_spares directoryKey rest (step i p)
  end.

(** Every outstanding load of the directory [directoryKey] is the one
    registered in flight for it, and the loads have distinct identities
    below [fresh]. *)
Definition tracked_for (directoryKey : string) (p : Provider) : Prop :=
  (∀ l, l ∈ outstanding p → load_key l = directoryKey →
        loadInFlightByDirectory p !! directoryKey = Some (load_id l))
  ∧ NoDup (load_id <$> outstanding p)
  ∧ (∀ l, l ∈ outstanding p → load_id l < fresh p).

End Engine.
End Tree.

(** *** statusBar.ts: the refresh scheduling of the status poller *)
Module StatusBar.

(** The two flags of [StatusBarController], and around them the event loop:
    the number of [refresh()] calls whose promise has not settled, the total
    number started, and the delays of the pending [setTimeout] callbacks that
    will call [requestRefresh]. *)
Record Controller := mkController {
  refreshInFlight : bool;
  refreshQueued : bool;
  running : nat;
  started : nat;
  timeouts : list N
}.

Definition initial : Controller := mkController false false 0 0 [].

Definition settle_delay : N := 250.
Definition power_delay : N := 750.
Definition poll_period : N := 5000.

Definition requestRefresh (c : Controller) : Controller :=
  if refreshInFlight c then
    mkController (refreshInFlight c) true (running c) (started c) (timeouts c)
  else
    mkController true (refreshQueued c) (S (running c)) (S (started c)) (timeouts c).

(** The [finally] callback of [requestRefresh]. *)
Definition refreshFinished (c : Controller) : Controller :=
  let c := mkController false (refreshQueued c) (pred (running c)) (started c) (timeouts c) in
  if refreshQueued c then
    mkController (refreshInFlight c) false (running c) (started c) (timeouts c ++ [settle_delay])
  else c.

(** The success branch of [sendPowerSignal]: status 204. *)
Definition powerSignalAccepted (c : Controller) : Controller :=
  mkController (refreshInFlight c) (refreshQueued c) (running c) (started c)
               (timeouts c ++ [power_delay]).

(** What the event loop delivers: a trigger (the 5 s interval, a command, a
    configuration change), the settlement of the running refresh, a pending
    timeout coming due, an accepted power signal. *)
Inductive Input :=
| Trigger
| RefreshSettled
| TimeoutFired (index : nat)
| PowerSignalAccepted.

Definition step (i : Input) (c : Controller) : Controller :=
  match i with
  | Trigger => requestRefresh c
  | RefreshSettled =>
      match running c with
      | O => c
      | S _ => refreshFinished c
      end
  | TimeoutFired index =>
      match timeouts c !! index with
      | Some _ =>
          requestRefresh
            (mkController (refreshInFlight c) (refreshQueued c) (running c) (started c)
                          (take index (timeouts c) ++ drop (S index) (timeouts c)))
      | None => c
      end
  | PowerSignalAccepted => powerSignalAccepted c
  end.

Definition run (inputs : list Input) (c : Controller) : Controller :=
  foldl (fun c i => step i c) c inputs.

(** The flag [refreshInFlight] counts the running refreshes, and nothing is
    queued while none runs. *)
Definition coherent (c : Controller) : Prop :=
  (refreshInFlight c = true ∧ running c = 1)
  ∨ (refreshInFlight c = false ∧ running c = 0 ∧ refreshQueued c = false).

(** [n] calls of [requestRefresh] in a row. *)
Definition burst (n : nat) (c : Controller) : Controller :=
  Nat.iter n requestRefresh c.

End StatusBar.

(** *** Concrete hosts on which the models are run in the examples *)
Module Demo.
Import Vscode.

Definition lower (c : ascii) : ascii :=
  let n := nat_of_ascii c in
  if (65 <=? n)%nat && (n <=? 90)%nat then ascii_of_nat (n + 32) else c.

Fixpoint lowercase (s : string) : string :=
  match s with
  | EmptyString => EmptyString
  | String c rest => String (lower c) (lowercase rest)
  end.

(** A collation in the manner of [localeCompare]: letters first regardless of
    case, lower case before upper case among otherwise equal labels. *)
Definition compare_labels (a b : string) : Z :=
  match String.compare (lowercase a) (lowercase b) with
  | Lt => (-1)%Z
  | Gt => 1%Z
  | Eq => match String.compare b a with
          | Lt => (-1)%Z
          | Gt => 1%Z
          | Eq => 0%Z
          end
  end.

(** Everything of [s] before the first [c], and everything after it. *)
Fixpoint break_at (c : ascii) (s : string) : string * option string :=
  match s with
  | EmptyString => (EmptyString, None)
  | String d rest =>
      if Ascii.eqb d c then (EmptyString, Some rest)
      else let '(before, after) := break_at c rest in (String d before, after)
  end.

Definition parse (s : string) : Uri :=
  match break_at ":" s with
  | (sch, Some (String "/" (String "/" rest))) =>
      match break_at "/" rest with
      | (host, Some p) => mkUri sch host (String "/" p) "" ""
      | (host, None) => mkUri sch host "" "" ""
      end
  | (sch, Some rest) => mkUri sch "" rest "" ""
  | (p, None) => mkUri "file" "" p "" ""
  end.

Definition render (u : Uri) : string :=
  scheme u +:+ ":" +:+ (if Js.truthy (authority u) then "//" +:+ authority u else "") +:+ path u.

Definition joinPath (u : Uri) (n : string) : Uri :=
  mkUri (scheme u) (authority u)
        (if String.eqb (path u) "/" then "/" +:+ n else path u +:+ "/" +:+ n)
        (query u) (fragment u).

Definition describe (e : Error) : string :=
  match e with
  | Unavailable m => "Unavailable: " +:+ m
  | NoPermissions m => "NoPermissions: " +:+ m
  | FileNotFound m => "FileNotFound: " +:+ m
  | FileExists m => "FileExists: " +:+ m
  | FileIsADirectory m => "FileIsADirectory: " +:+ m
  | FetchFailed m => "TypeError: " +:+ m
  | TypeError m => "TypeError: " +:+ m
  | SyntaxError m => "SyntaxError: " +:+ m
  | ThrownUndefined => "undefined"
  end.

Definition platform : Platform :=
  {| encodeURIComponent := fun s => s;
     Uri_toString := render;
     Uri_parse := parse;
     Uri_joinPath := joinPath;
     Date_getTime := fun _ => 0%Z;
     localeCompare := compare_labels;
     String_of_error := describe |}.

(** The callback that extension.ts registers. *)
Definition dependencies : Bridge.Dependencies :=
  {| Bridge.deps_onAuthenticationFailed := State.onAuthenticationFailed |}.

Definition connected_state : State.RuntimeState :=
  State.connectRuntimeState State.createRuntimeState "https://voidium.uk" "a1b2c3"
                            "0123456789abcdef0123456789abcdef".

Definition no_settings : Config.Settings := Config.mkSettings (Some "a1b2c3") None None.

Definition world (s : State.RuntimeState) : Bridge.World :=
  Bridge.mkWorld s no_settings ∅ ∅ 0 [] [] 0 0.

Definition reply (code : N) (text : string) (content : bytes) (j : option Json) : Response :=
  mkResponse code text "https://voidium.uk/api" content "" j.

Definition file_entry (n : string) : PterodactylFileAttributes :=
  mkAttributes n true false "2024-01-01" "2024-01-02" "-rw-r--r--" 12.

Definition folder_entry (n : string) : PterodactylFileAttributes :=
  mkAttributes n false false "2024-01-01" "2024-01-02" "drwxr-xr-x" 0.

Definition listing (files : list PterodactylFileAttributes) : Response :=
  reply 200 "OK" [] (Some (mkJson (Some files) None)).

(** An environment from a finite script: afterwards every request is
    answered 204 at once, and the user dismisses every warning. *)
Definition scripted (responses : list FetchOutcome) (choices : list (option string * N))
  : Environment :=
  {| network := fun n => nth n responses (Responded (reply 204 "No Content" [] None) 0);
     user := fun n => nth n choices (None, 0%N) |}.

Definition uri_of (p : string) : Uri := mkUri "pterodactyl" "" p "" "".

End Demo.

(** *** panel.ts: the connect flow, with the writes of config.ts *)
Module Panel.
Import Vscode.

(** [setServerId] and [setApiKey] of config.ts: the setting as the next read
    returns it ([undefined] removes it). *)
Definition setServerId (serverId : option string) (c : Config.Settings) : Config.Settings :=
  Config.mkSettings serverId (Config.apiKey c) (Config.proxyUrlSetting c).

Definition setApiKey (apiKey : option string) (c : Config.Settings) : Config.Settings :=
  Config.mkSettings (Config.serverId c) apiKey (Config.proxyUrlSetting c).

(** The character class [[A-Za-z0-9_]]. *)
Definition is_key_char (c : ascii) : bool :=
  let n := nat_of_ascii c in
  ((48 <=? n) && (n <=? 57)) || ((65 <=? n) && (n <=? 90))
  || ((97 <=? n) && (n <=? 122)) || (n =? 95).

(** [/^[A-Za-z0-9_]{32,128}$/.test(value)]. *)
Definition isValidApiKey (value : string) : bool :=
  (32 <=? String.length value) && (String.length value <=? 128)
  && forallb is_key_char (list_ascii_of_string value).

Record PanelServer := mkPanelServer {
  server_name : string;
  identifier : string;
  description : option string
}.

(** What the outside answers during one run of [addPanel]: the text typed in
    the input box, how the request to the panel settles, the body of a
    successful response as [response.json()] gives it ([None] when it
    rejects, [Some None] when it has no [data]), and the server picked. *)
Record Answers := mkAnswers {
  typed : option string;
  outcome : FetchOutcome;
  servers : option (option (list PanelServer));
  choose : list PanelServer → option PanelServer
}.

(** What a run of [addPanel] leaves: the runtime state and the settings, the
    error messages shown, the requests sent, and whether [onConnected] ran. *)
Record Run := mkRun {
  state : State.RuntimeState;
  settings : Config.Settings;
  errors_shown : list string;
  requests : list Request;
  onConnected_called : bool
}.

Section Service.
Context `{Platform}.

(** The key that [addPanel] goes on with: the configured one if there is
    one, else the typed one, trimmed, if it is valid. *)
Definition key_to_use (a : Answers) (c : Config.Settings) : option string :=
  match Config.apiKey c with
  | Some k => if Js.truthy k then Some k else
      match typed a with
      | Some t => if Js.truthy (Js.trim t) && isValidApiKey (Js.trim t)
                  then Some (Js.trim t) else None
      | None => None
      end
  | None =>
      match typed a with
      | Some t => if Js.truthy (Js.trim t) && isValidApiKey (Js.trim t)
                  then Some (Js.trim t) else None
      | None => None
      end
  end.

Definition panelRootUrl : string :=
  let parsedPanelUrl := Uri_parse Config.getPanelUrl in
  scheme parsedPanelUrl +:+ "://" +:+ authority parsedPanelUrl.

(** The message for a response outside 200..299. *)
Definition refusal_message (r : Response) : string :=
  let detail_of :=
    match body_json r with
    | Some j =>
        match errors j with
        | Some es => Some (default "Unknown error" (head es ≫= detail))
        | None => None
        end
    | None => None
    end in
  "Failed to connect to the Pterodactyl panel (" +:+ pretty (status r) +:+ "): " +:+
  match detail_of with
  | Some d => d
  | None =>
      String.substring 0 50 (body_text r)
      +:+ (if 50 <? String.length (body_text r) then "..." else "")
  end.

Definition addPanel (a : Answers) (state : State.RuntimeState) (c : Config.Settings) : Run :=
  match key_to_use a c with
  | None => mkRun state c ["Invalid API key format"] [] false
  | Some apiKey =>
      let request :=
        mkRequest (Bridge.proxied c (panelRootUrl +:+ "/api/client/")) GET
                  [("Accept", "application/json"); ("Authorization", "Bearer " +:+ apiKey)]
                  NoBody in
      match outcome a with
      | Rejected reason _ =>
          mkRun state c
                ["Failed to connect to the provided address: "
                 +:+ String_of_error (FetchFailed reason)]
                [request] false
      | Responded r _ =>
          if negb (ok r) then mkRun state c [refusal_message r] [request] false
          else
            match servers a with
            | None =>
                mkRun state c
                      ["Unexpected error while connecting: "
                       +:+ String_of_error (SyntaxError "Unexpected token in JSON")]
                      [request] false
            | Some data =>
                let c := setApiKey (Some apiKey) c in
                match data with
                | None =>
                    mkRun state c
                          ["Unexpected error while connecting: "
                           +:+ String_of_error
                                 (TypeError "Cannot read properties of undefined (reading 'length')")]
                          [request] false
                | Some found =>
                    match choose a found with
                    | None => mkRun state c [] [request] false
                    | Some server =>
                        mkRun (State.connectRuntimeState state panelRootUrl
                                 (identifier server) apiKey)
                              (setServerId (Some (identifier server)) c)
                              [] [request] true
                    end
                end
            end
      end
  end.

End Service.
End Panel.

(** *** Projections of the requests of an operation *)
Module Observe.
Import Vscode Bridge.

(** An operation adds nothing to what [view] shows of the requests sent. *)
Definition preserved {V A} (view : list Request → V) (m : M A) : Prop :=
  ∀ w, view (requests (m w).2) = view (requests w).

(** The requests that can change the remote tree: all but GET. *)
Definition is_mutation (q : Request) : bool :=
  match req_method q with GET => false | _ => true end.

Definition mutations (l : list Request) : list Request := List.filter is_mutation l.

(** The bodies of the delete calls among the requests. *)
Definition deletions (l : list Request) : list RequestBody :=
  map req_body (List.filter is_delete_call l).

(** The error of [ensureConnected]. *)
Definition not_connected : Error :=
  Unavailable "No server API URL set, please init the extension first.".

Section Requests.
Context `{Platform}.

(** The requests of [delete], [rename], [copy] and [writeFile], for the
    state and the settings of the world in which they are built. *)
Definition delete_request (w : World) (uri : Uri) : Request :=
  mkRequest (proxied (settings w) (State.serverApiUrl (state w) +:+ "/delete")) POST
            [("Content-Type", "application/json"); ("Authorization", State.authHeader (state w))]
            (DeleteBody "/" [Js.removeStartSlash (path uri)]).

Definition rename_request (w : World) (from to : string) : Request :=
  mkRequest (proxied (settings w) (State.serverApiUrl (state w) +:+ "/rename")) PUT
            (json_headers (state w))
            (RenameBody "/" [(Js.removeStartSlash from, Js.removeStartSlash to)]).

Definition copy_request (w : World) (source : Uri) : Request :=
  mkRequest (proxied (settings w) (State.serverApiUrl (state w) +:+ "/copy")) POST
            (json_headers (state w)) (CopyBody (path source)).

Definition upload_request (w : World) (uri : Uri) (content : bytes) : Request :=
  write_request (state w)
                (proxied (settings w)
                   (State.serverApiUrl (state w) +:+ "/write?file=" +:+ path uri))
                content.

End Requests.

End Observe.

(** *** treeView.ts: the drag-and-drop controller *)
Module DragDrop.
Import Vscode Bridge Tree.
Local Open Scope async_scope.

Section Controller.
Context `{Platform} `{Environment} `{Dependencies}.

(** The body of the [try] for one dragged file: read, write under the
    target, delete the source. *)
Definition move (targetUri : Uri) (item : PterodactylTreeItem) : M unit :=
  content <- readFile (uri item) ;;
  let newUri := Uri_joinPath targetUri (label item) in
  writeFile newUri content true true ;;;
  delete (uri item) true.

(** The loop over the dragged items: the error messages shown, in order,
    and the world it leaves. *)
Fixpoint move_all (targetUri : Uri) (items : list PterodactylTreeItem) (w : World)
  : list string * World :=
  match items with
  | [] => ([], w)
  | item :: rest =>
      if negb (isFile item) then move_all targetUri rest w
      else
        match move targetUri item w with
        | (Ok _, w') => move_all targetUri rest w'
        | (Throw error, w') =>
            let '(shown, w'') := move_all targetUri rest w' in
            (("Failed to move " +:+ label item +:+ ": " +:+ String_of_error error) :: shown,
             w'')
        end
  end.

Definition drop_target (target : option PterodactylTreeItem) : Uri :=
  match target with
  | Some t => if negb (isFile t) then uri t else Uri_parse "pterodactyl:/"
  | None => Uri_parse "pterodactyl:/"
  end.

(** [handleDrop(target, dataTransfer)]; [dragged] is the value of the
    transfer item, [None] when the transfer carries none. *)
Definition handleDrop (target : option PterodactylTreeItem)
    (dragged : option (list PterodactylTreeItem)) (w : World) (p : Provider)
  : list string * World * Provider :=
  match dragged with
  | None => ([], w, p)
  | Some items =>
      let '(shown, w') := move_all (drop_target target) items w in
      (shown, w', refresh p)
  end.

End Controller.
End DragDrop.

(** *** statusBar.ts: the refresh body and the power signal *)
Module Power.
Import Vscode StatusBar.

Record Item := mkItem {
  text : string;
  tooltip : string;
  command : string;
  visible : bool
}.

(** The two status bar items. *)
Record Bar := mkBar {
  statusBarItem : Item;
  openButtonItem : Item
}.

(** The request of [refresh] or [sendPowerSignal]: url, headers, and the
    signal that [JSON.stringify({signal})] carries, if any. *)
Record Call := mkCall {
  call_url : string;
  call_method : Method;
  call_headers : list (string * string);
  call_signal : option string
}.

(** [c.toUpperCase()] on the letters a to z. *)
Definition upper (c : ascii) : ascii :=
  let n := nat_of_ascii c in
  if (97 <=? n) && (n <=? 122) then ascii_of_nat (n - 32) else c.

(** [state.charAt(0).toUpperCase() + state.slice(1)]. *)
Definition titleCase (state : string) : string :=
  match state with
  | EmptyString => EmptyString
  | String c rest => String (upper c) rest
  end.

Definition hidden (i : Item) : Item := mkItem (text i) (tooltip i) (command i) false.

Section Controller.
Context `{Platform}.

(** What [getServerId() && getPanelUrl()] leaves to work with. *)
Definition configured_server (c : Config.Settings) : option string :=
  if Js.truthy Config.getPanelUrl then Config.getServerId c else None.

Definition connected (s : State.RuntimeState) : bool :=
  Js.truthy (State.serverApiUrl s) && Js.truthy (State.authHeader s).

(** The body of [refresh()].  [o] is how the request for the resources
    settles and [current_state] what [data.attributes.current_state] of its
    body is ([None] when the body cannot be read that way); the result is
    the request sent, if any, and the bar. *)
Definition refresh (s : State.RuntimeState) (c : Config.Settings)
    (o : FetchOutcome) (current_state : option string) (bar : Bar) : option Call * Bar :=
  if negb (connected s) then
    (None, mkBar (mkItem "No Server" "No server connected" "pterodactyl-vsc.init" true)
                 (hidden (openButtonItem bar)))
  else
    match configured_server c with
    | None =>
        (None, mkBar (mkItem "Config Error" "Server configuration incomplete"
                             "pterodactyl-vsc.init" true)
                     (hidden (openButtonItem bar)))
    | Some serverId =>
        let button := mkItem "Open Server on Panel" "Open server in panel"
                             "pterodactyl-vsc.openPanel" true in
        let resourcesUrl :=
          Config.getPanelUrl +:+ "/api/client/servers/" +:+ serverId +:+ "/resources" in
        let call := mkCall (Bridge.proxied c resourcesUrl) GET
                           [("Authorization", State.authHeader s);
                            ("Accept", "application/json")] None in
        let offline := mkItem "Offline" "Unable to connect to server"
                              "pterodactyl-vsc.init" true in
        let shown :=
          match o with
          | Rejected _ _ => offline
          | Responded r _ =>
              if negb (ok r) then offline
              else
                match current_state with
                | None => offline
                | Some state =>
                    let state := if String.eqb state "starting" then "running" else state in
                    mkItem (titleCase state)
                           ("Server Status: " +:+ state +:+ String "010" "Click to show power menu")
                           "pterodactyl-vsc.showPowerMenu" true
                end
          end in
        (Some call, mkBar shown button)
    end.

Inductive Message :=
| Information (message : string)
| ErrorMessage (message : string).

(** [sendPowerSignal(signal)]: the request sent, if any, the message shown,
    and the controller with the refresh it has scheduled. *)
Definition sendPowerSignal (signal : string) (s : State.RuntimeState) (c : Config.Settings)
    (o : FetchOutcome) (ctl : Controller) : option Call * Message * Controller :=
  if negb (connected s) then (None, ErrorMessage "No server connected", ctl)
  else
    match configured_server c with
    | None => (None, ErrorMessage "Server configuration incomplete", ctl)
    | Some serverId =>
        let powerUrl :=
          Config.getPanelUrl +:+ "/api/client/servers/" +:+ serverId +:+ "/power" in
        let call := mkCall (Bridge.proxied c powerUrl) POST
                           [("Authorization", State.authHeader s);
                            ("Content-Type", "application/json");
                            ("Accept", "application/vnd.pterodactyl.v1+json")]
                           (Some signal) in
        let failed := fun reason =>
          ErrorMessage ("Failed to " +:+ signal +:+ " server: " +:+ reason) in
        match o with
        | Rejected reason _ =>
            (Some call, failed (String_of_error (FetchFailed reason)), ctl)
        | Responded r _ =>
            if (status r =? 204)%N then
              (Some call,
               Information ("Server " +:+ signal +:+ " command sent successfully"),
               powerSignalAccepted ctl)
            else
              match body_json r with
              | None =>
                  (Some call,
                   failed (String_of_error (SyntaxError "Unexpected token in JSON")), ctl)
              | Some j =>
                  match errors j with
                  | None =>
                      (Some call,
                       failed (String_of_error
                                 (TypeError "Cannot read properties of undefined (reading '0')")),
                       ctl)
                  | Some es =>
                      (Some call, failed (default "Unknown error" (head es ≫= detail)), ctl)
                  end
              end
        end
    end.

End Controller.
End Power.

(** *** The reveal loop of treeView.ts under the event loop *)
Module Reveal.
Import Vscode Tree.

Section Engine.
Context `{Platform}.

(** The event loop delivers the live reveal timers, oldest first, at most
    [n] of them. *)
Fixpoint fire_timers (n : nat) (p : Provider) : Provider :=
  match n with
  | O => p
  | S n' =>
      match scheduled p with
      | [] => p
      | r :: _ => fire_timers n' (step (TimerFired (handle r)) p)
      end
  end.

(** The node that the reveal loop of a directory notifies. *)
Definition reveal_target (directoryKey : string) (element : option PterodactylTreeItem)
    (p : Provider) : option PterodactylTreeItem :=
  match refreshTargetByDirectory p !! directoryKey with
  | Some (Some t) => Some t
  | _ => element
  end.

(** What is visible of every directory is a leading part of what was
    loaded for it. *)
Definition visible_is_prefix (p : Provider) : Prop :=
  ∀ directoryKey visibleItems allItems,
    visibleItemsByDirectory p !! directoryKey = Some visibleItems →
    allItemsByDirectory p !! directoryKey = Some allItems →
    visibleItems `prefix_of` allItems.

End Engine.
End Reveal.

(** *** fsProvider.ts: [stat] around its suspension *)
Module Overlap.
Import Vscode Bridge.
Local Open Scope async_scope.

Section Provider.
Context `{Platform} `{Environment} `{Dependencies}.

(** [stat] up to its first [await]: the answer it gives at once (a live
    entry, the root), or the number of the listing request it has sent. *)
Definition stat_begin (uri : Uri) : M (FileStat + nat) :=
  ensureConnected ;;;
  let cacheKey := cacheKey_of uri in
  cached <- gets (fun w => responseCache w !! cacheKey) ;;
  match cached with
  | Some c =>
      cacheHits <- gets (fun w => default 0%N (responseCacheHits w !! cacheKey)) ;;
      modify (with_cache id (<[cacheKey := (cacheHits + 1)%N]>)) ;;;
      ret (inl c)
  | None =>
      if String.eqb (path uri) "/" then ret (inl root_stat)
      else
        let folderPath := parent_of (path uri) in
        s <- gets state ;;
        target <- proxyUrl (State.serverApiUrl s +:+ "/list?directory="
                            +:+ encodeURIComponent folderPath) ;;
        n <- gets fetches ;;
        modify (fun w =>
                  count_fetch
                    (emit (EvFetch (mkRequest target GET
                                      [("Authorization", State.authHeader s);
                                       ("Accept", "application/json")]
                                      NoBody)) w)) ;;;
        ret (inr n)
  end.

(** The rest of [stat], from the moment request [n] settles. *)
Definition stat_resume (uri : Uri) (n : nat) : M FileStat :=
  match network n with
  | Rejected reason _ => throw (FetchFailed reason)
  | Responded response _ =>
      let cacheKey := cacheKey_of uri in
      forConnection ("stat: " +:+ Uri_toString uri) response ;;;
      json <- response_json response ;;
      if negb (ok response) then stat_not_ok uri json
      else
        let targetName := Js.pop (Js.split "/" (path uri)) in
        match data json with
        | None => throw (TypeError "Cannot read properties of undefined (reading 'find')")
        | Some files =>
            match List.find (fun entry => bool_decide (Some (name entry) = targetName)) files with
            | None => throw (FileNotFound (Uri_toString uri))
            | Some file =>
                let responseStat := stat_of file in
                modify (with_cache (<[cacheKey := responseStat]>) (<[cacheKey := 0%N]>)) ;;;
                modify (setTimeout_expire cacheKey (Uri_toString uri) cache_lifetime) ;;;
                ret responseStat
            end
        end
  end.

(** How long request [n] takes to settle. *)
Definition latency_of (n : nat) : N :=
  match network n with
  | Rejected _ latency => latency
  | Responded _ latency => latency
  end.

(** A call of [stat] that nothing interrupts. *)
Definition stat_alone (uri : Uri) : M FileStat :=
  begun <- stat_begin uri ;;
  match begun with
  | inl answer => ret answer
  | inr n => modify (advance (latency_of n)) ;;; stat_resume uri n
  end.

End Provider.
End Overlap.

(** ** Part II. Properties *)

(** *** Strings and arrays *)
Module JsFacts.

Lemma split_not_nil (sep : ascii) (s : string) : Js.split sep s ≠ [].
Proof.
  induction s as [|c rest IH]; simpl; [discriminate|].
  destruct (Ascii.eqb c sep); [discriminate|].
  destruct (Js.split sep rest); discriminate.
Qed.

(** A string without the separator is its own single segment. *)
Lemma split_without (sep : ascii) (s : string) :
  Js.includes sep s = false → Js.split sep s = [s].
Proof.
  unfold Js.includes.
  induction s as [|c rest IH]; simpl; [reflexivity|].
  intros Hno. apply orb_false_iff in Hno as [Hc Hrest].
  rewrite Ascii.eqb_sym, Hc, (IH Hrest). reflexivity.
Qed.

Lemma pop_split_is_Some (sep : ascii) (s : string) : is_Some (Js.pop (Js.split sep s)).
Proof.
  unfold Js.pop. destruct (Js.split sep s) as [|x l] eqn:E.
  - exfalso. exact (split_not_nil sep s E).
  - rewrite last_cons. destruct (last l); eauto.
Qed.

Lemma truthy_append_r (a b : string) : Js.truthy b = true → Js.truthy (a +:+ b) = true.
Proof.
  unfold Js.truthy. destruct a; simpl; [tauto|reflexivity].
Qed.

Lemma truthy_ne (s : string) : Js.truthy s = true ↔ s ≠ "".
Proof.
  unfold Js.truthy. destruct s; simpl; split; intros; congruence.
Qed.

End JsFacts.

(** *** The connection state *)
Module StateFacts.
Import State.

Lemma buildServerApiUrl_nonempty (p id : string) : Config.buildServerApiUrl p id ≠ "".
Proof. unfold Config.buildServerApiUrl. destruct p; discriminate. Qed.

Lemma bearer_nonempty (k : string) : "Bearer " +:+ k ≠ "".
Proof. discriminate. Qed.

Lemma hydrate_serverApiUrl (c : Config.Settings) :
  serverApiUrl (hydrateRuntimeState c createRuntimeState) ≠ ""
  ↔ is_Some (Config.getServerId c).
Proof.
  unfold hydrateRuntimeState.
  destruct (Config.getServerId c) as [id|], (Config.getApiKey c) as [k|]; simpl;
    split; intros Hx; eauto using buildServerApiUrl_nonempty;
    try (destruct Hx; discriminate); congruence.
Qed.

Lemma hydrate_authHeader (c : Config.Settings) :
  authHeader (hydrateRuntimeState c createRuntimeState) ≠ ""
  ↔ is_Some (Config.getApiKey c).
Proof.
  unfold hydrateRuntimeState.
  destruct (Config.getServerId c) as [id|], (Config.getApiKey c) as [k|]; simpl;
    split; intros Hx; eauto; try discriminate;
    try (destruct Hx; discriminate); congruence.
Qed.

(** C9, as stated, fails: hydration from a configuration that names a server
    but holds no API key reaches a state with a URL and no credential. *)
Lemma hydrate_without_key_inconsistent :
  let s := run [Hydrate (Config.mkSettings (Some "a1b2c3") None None)] in
  serverApiUrl s = "https://voidium.uk/api/client/servers/a1b2c3/files"
  ∧ authHeader s = ""
  ∧ ¬ consistent s.
Proof.
  simpl. split; [reflexivity|]. split; [reflexivity|].
  intros [[Hu _]|[_ Ha]]; [discriminate Hu|apply Ha; reflexivity].
Qed.

(** C9 (amended): startup and reset leave both fields empty and a successful
    connect leaves both non-empty; every other write touches the two fields
    independently.  Hydration of the fresh state sets the URL exactly when a
    server id is configured and the header exactly when an API key is, so
    the hydrated state is consistent exactly when both or neither are
    configured.  A configuration change writes the URL only when it affects
    the server setting (non-empty exactly when a server id is configured)
    and the header only when it affects the API key (non-empty exactly when
    a non-empty key is stored), and leaves the other field as it was.  The
    authentication-failure callback and the clearApiKey command empty the
    header and leave the URL, so from a connected state they reach a state
    that has a URL and no credential. *)
Theorem connection_state_fields_written_independently :
  both_empty createRuntimeState
  ∧ (∀ s, both_empty (clearRuntimeState s))
  ∧ (∀ s p id k, both_nonempty (connectRuntimeState s p id k))
  ∧ (∀ c, let s := hydrateRuntimeState c createRuntimeState in
          (serverApiUrl s ≠ "" ↔ is_Some (Config.getServerId c))
          ∧ (authHeader s ≠ "" ↔ is_Some (Config.getApiKey c))
          ∧ (consistent s ↔
             (is_Some (Config.getServerId c) ↔ is_Some (Config.getApiKey c))))
  ∧ (∀ affectsServer affectsApiKey c s,
       let s' := onDidChangeConfiguration affectsServer affectsApiKey c s in
       (if affectsServer
        then serverApiUrl s' ≠ "" ↔ is_Some (Config.getServerId c)
        else serverApiUrl s' = serverApiUrl s)
       ∧ (if affectsApiKey
          then authHeader s' ≠ "" ↔ ∃ k, Config.apiKey c = Some k ∧ k ≠ ""
          else authHeader s' = authHeader s))
  ∧ (∀ s, serverApiUrl (onAuthenticationFailed s) = serverApiUrl s
          ∧ authHeader (onAuthenticationFailed s) = ""
          ∧ serverApiUrl (clearApiKeyCommand s) = serverApiUrl s
          ∧ authHeader (clearApiKeyCommand s) = "")
  ∧ (∀ s, both_nonempty s →
          ¬ consistent (onAuthenticationFailed s) ∧ ¬ consistent (clearApiKeyCommand s)).
Proof.
  split; [split; reflexivity|].
  split; [intros s; split; reflexivity|].
  split; [intros s p id k; split; simpl;
          [apply buildServerApiUrl_nonempty|apply bearer_nonempty]|].
  split.
  { intros c s.
    pose proof (hydrate_serverApiUrl c) as Hu.
    pose proof (hydrate_authHeader c) as Ha.
    fold s in Hu, Ha. split; [exact Hu|]. split; [exact Ha|].
    unfold consistent, both_empty, both_nonempty.
    destruct (decide (serverApiUrl s = "")) as [Eu|Eu],
             (decide (authHeader s = "")) as [Ea|Ea]; tauto. }
  split.
  { intros affectsServer affectsApiKey c s s'. subst s'. unfold onDidChangeConfiguration.
    assert (Hkey : ∀ t, authHeader
                          match Config.apiKey c with
                          | Some k => if Js.truthy k then set_authHeader ("Bearer " +:+ k) t
                                      else set_authHeader "" t
                          | None => set_authHeader "" t
                          end ≠ "" ↔ ∃ k, Config.apiKey c = Some k ∧ k ≠ "").
    { intros t. destruct (Config.apiKey c) as [k|]; simpl.
      - destruct (Js.truthy k) eqn:Hk; simpl.
        + split; [|discriminate]. intros _. exists k. split; [reflexivity|].
          by apply JsFacts.truthy_ne.
        + split; [congruence|]. intros (k' & [= <-] & Hne).
          apply JsFacts.truthy_ne in Hne. congruence.
      - split; [congruence|]. intros (k' & Hk' & _). discriminate. }
    assert (Hurl : ∀ t, serverApiUrl
                          match Config.getServerId c with
                          | Some id =>
                              if Js.truthy Config.getPanelUrl
                              then set_serverApiUrl
                                     (Config.buildServerApiUrl Config.getPanelUrl id) t
                              else set_serverApiUrl "" t
                          | None => set_serverApiUrl "" t
                          end ≠ "" ↔ is_Some (Config.getServerId c)).
    { intros t. destruct (Config.getServerId c) as [id|]; simpl.
      - split; [eauto|intros _; apply buildServerApiUrl_nonempty].
      - split; [congruence|intros [? ?]; discriminate]. }
    destruct affectsServer, affectsApiKey.
    - split; [|apply Hkey].
      destruct (Config.apiKey c) as [k|]; [destruct (Js.truthy k)|]; apply Hurl.
    - split; [apply Hurl|].
      destruct (Config.getServerId c) as [id|]; reflexivity.
    - split; [|apply Hkey].
      destruct (Config.apiKey c) as [k|]; [destruct (Js.truthy k)|]; reflexivity.
    - split; reflexivity. }
  split.
  { intros s. repeat split. }
  intros s [Hu Ha].
  split; (intros [[Eu _]|[_ Ea]]; [exact (Hu Eu)|exact (Ea eq_refl)]).
Qed.

End StateFacts.

(** *** The status poller *)
Module StatusBarFacts.
Import StatusBar.

Lemma requestRefresh_coherent (c : Controller) : coherent c → coherent (requestRefresh c).
Proof.
  unfold coherent, requestRefresh.
  intros [[Hf Hr]|(Hf & Hr & Hq)]; rewrite Hf; simpl; left; (split; [reflexivity|]).
  - exact Hr.
  - by rewrite Hr.
Qed.

Lemma step_coherent (i : Input) (c : Controller) : coherent c → coherent (step i c).
Proof.
  intros Hc. destruct i as [| |index|]; simpl.
  - by apply requestRefresh_coherent.
  - destruct Hc as [[Hf Hr]|(Hf & Hr & Hq)]; rewrite Hr.
    + unfold refreshFinished; simpl. rewrite Hr.
      right. destruct (refreshQueued c); simpl; auto.
    + right. auto.
  - destruct (timeouts c !! index); [|exact Hc].
    apply requestRefresh_coherent. exact Hc.
  - exact Hc.
Qed.

Lemma run_coherent (inputs : list Input) (c : Controller) :
  coherent c → coherent (run inputs c).
Proof.
  revert c. induction inputs as [|i rest IH]; intros c Hc; simpl; [exact Hc|].
  apply IH, step_coherent, Hc.
Qed.

Lemma initial_coherent : coherent initial.
Proof. right. repeat split. Qed.

(** A burst of triggers during a running refresh only sets the flag. *)
Lemma burst_in_flight (n : nat) (c : Controller) :
  refreshInFlight c = true →
  burst n c = mkController true (refreshQueued c || bool_decide (0 < n))
                           (running c) (started c) (timeouts c).
Proof.
  intros Hf. induction n as [|n IH].
  - simpl. rewrite orb_false_r. destruct c; simpl in *; congruence.
  - unfold burst in *. simpl. rewrite IH. unfold requestRefresh. simpl.
    rewrite orb_true_r. reflexivity.
Qed.

(** C8: from any reachable controller with a refresh running, [n] further
    calls of [requestRefresh] start nothing and schedule nothing, they only
    leave the queued flag set (for n > 0); when the running refresh then
    settles, no refresh is running, the flags are reset, and the pending
    timeouts grow by exactly one 250 ms entry if anything was queued and by
    none otherwise; the 250 ms entry coming due starts exactly one refresh.
    In every reachable state at most one refresh runs. *)
Theorem status_refresh_single_flight_queue_one (inputs : list Input) (n : nat) :
  let c := run inputs initial in
  refreshInFlight c = true →
  let c' := burst n c in
  let c'' := step RefreshSettled c' in
  running c = 1
  ∧ running c' = 1 ∧ started c' = started c ∧ timeouts c' = timeouts c
  ∧ refreshQueued c' = refreshQueued c || bool_decide (0 < n)
  ∧ running c'' = 0 ∧ refreshInFlight c'' = false ∧ refreshQueued c'' = false
  ∧ started c'' = started c
  ∧ timeouts c'' = (timeouts c ++ (if refreshQueued c' then [250%N] else []))%list
  ∧ (refreshQueued c' = true →
     let c3 := step (TimeoutFired (length (timeouts c))) c'' in
     running c3 = 1 ∧ started c3 = S (started c) ∧ timeouts c3 = timeouts c)
  ∧ (∀ more, running (run more c'') ≤ 1).
Proof.
  intros c Hf c' c''.
  assert (Hc : coherent c) by (apply run_coherent, initial_coherent).
  assert (Hr : running c = 1).
  { destruct Hc as [[_ Hr]|(Hf' & _)]; [exact Hr|congruence]. }
  assert (E' : c' = mkController true (refreshQueued c || bool_decide (0 < n))
                                 (running c) (started c) (timeouts c))
    by (apply burst_in_flight, Hf).
  assert (E'' : c'' = mkController false false 0 (started c)
                        (timeouts c ++ (if refreshQueued c' then [250%N] else []))%list).
  { unfold c''. rewrite E'. simpl. rewrite Hr. unfold refreshFinished. simpl.
    destruct (refreshQueued c || bool_decide (0 < n)); simpl;
      [reflexivity|by rewrite app_nil_r]. }
  split; [exact Hr|].
  rewrite E''. rewrite E' at 1 2 3 4. simpl.
  repeat (split; [first [reflexivity|exact Hr]|]).
  split.
  - intros Hq. rewrite Hq. simpl.
    rewrite lookup_app_r by lia. rewrite Nat.sub_diag. simpl.
    rewrite take_app_length.
    rewrite drop_ge by (rewrite length_app; simpl; lia).
    rewrite app_nil_r. auto.
  - intros more.
    assert (Hm : coherent (run more (mkController false false 0 (started c)
                  (timeouts c ++ (if refreshQueued c' then [250%N] else []))%list))).
    { apply run_coherent. right. auto. }
    destruct Hm as [[_ ->]|(_ & -> & _)]; lia.
Qed.

Lemma status_refresh_single_flight_queue_one_witness :
  let c := run [Trigger] initial in
  refreshInFlight c = true
  ∧ timeouts (step RefreshSettled (burst 3 c)) = [250%N].
Proof.
  split; [reflexivity|].
  exact (proj1 (proj2 (proj2 (proj2 (proj2 (proj2 (proj2 (proj2 (proj2 (proj2
    (status_refresh_single_flight_queue_one [Trigger] 3 eq_refl))))))))))).
Defined.

End StatusBarFacts.

(** *** The remote filesystem bridge *)
Module BridgeFacts.
Import Vscode Bridge.
Local Open Scope async_scope.

(** **** How the primitives change what is observed *)

Lemma requests_emit (e : Event) (w : World) :
  requests (emit e w)
  = (requests w ++ match e with EvFetch r => [r] | _ => [] end)%list.
Proof.
  unfold requests. simpl. rewrite omap_app. simpl.
  destruct e; reflexivity.
Qed.

Lemma timeline_emit (e : Event) (w : World) :
  timeline (emit e w)
  = (timeline w ++ match e with EvFetch _ | EvSleep _ => [e] | _ => [] end)%list.
Proof.
  unfold timeline. simpl. rewrite List.filter_app. simpl.
  destruct e; reflexivity.
Qed.

Lemma callbacks_emit (e : Event) (w : World) :
  callbacks (emit e w)
  = callbacks w + match e with EvAuthenticationFailed => 1 | _ => 0 end.
Proof.
  unfold callbacks. simpl. rewrite List.filter_app, length_app. simpl.
  destruct e; reflexivity.
Qed.

(** Expiring cache entries only writes log lines and deletes entries. *)
Lemma expire_all_frame (ready : list Timer) (w : World) :
  let w' := foldl (fun w t => expire t w) w ready in
  state w' = state w ∧ settings w' = settings w ∧ fetches w' = fetches w
  ∧ prompts w' = prompts w ∧ now w' = now w ∧ timers w' = timers w
  ∧ requests w' = requests w ∧ timeline w' = timeline w ∧ callbacks w' = callbacks w.
Proof.
  revert w. induction ready as [|t ready IH]; intros w; simpl; [repeat split; reflexivity|].
  destruct (IH (expire t w)) as (Hs & Hc & Hf & Hp & Hn & Ht & Hr & Hl & Hb).
  unfold expire in *. simpl in *.
  rewrite Hs, Hc, Hf, Hp, Hn, Ht, Hr, Hl, Hb.
  repeat split; try reflexivity.
  - unfold requests. simpl. rewrite omap_app. simpl. by rewrite app_nil_r.
  - unfold timeline. simpl. rewrite List.filter_app. simpl. by rewrite app_nil_r.
  - unfold callbacks. simpl. rewrite List.filter_app, length_app. simpl. lia.
Qed.

Lemma advance_frame (dt : N) (w : World) :
  state (advance dt w) = state w ∧ settings (advance dt w) = settings w
  ∧ fetches (advance dt w) = fetches w ∧ prompts (advance dt w) = prompts w
  ∧ now (advance dt w) = (now w + dt)%N
  ∧ requests (advance dt w) = requests w ∧ timeline (advance dt w) = timeline w
  ∧ callbacks (advance dt w) = callbacks w.
Proof.
  unfold advance.
  destruct (expire_all_frame (List.filter (is_due (now w + dt)) (timers w))
              (with_clock (now w + dt) (List.filter (fun t => negb (is_due (now w + dt) t))
                                                    (timers w)) w))
    as (Hs & Hc & Hf & Hp & Hn & Ht & Hr & Hl & Hb).
  rewrite Hs, Hc, Hf, Hp, Hn, Hr, Hl, Hb. repeat split; reflexivity.
Qed.

Lemma requests_advance (dt : N) (w : World) : requests (advance dt w) = requests w.
Proof. apply advance_frame. Qed.

Lemma timeline_advance (dt : N) (w : World) : timeline (advance dt w) = timeline w.
Proof. apply advance_frame. Qed.

Lemma callbacks_advance (dt : N) (w : World) : callbacks (advance dt w) = callbacks w.
Proof. apply advance_frame. Qed.

Lemma state_advance (dt : N) (w : World) : state (advance dt w) = state w.
Proof. apply advance_frame. Qed.

Lemma settings_advance (dt : N) (w : World) : settings (advance dt w) = settings w.
Proof. apply advance_frame. Qed.

Lemma fetches_advance (dt : N) (w : World) : fetches (advance dt w) = fetches w.
Proof. apply advance_frame. Qed.

Lemma prompts_advance (dt : N) (w : World) : prompts (advance dt w) = prompts w.
Proof. apply advance_frame. Qed.

(** The bookkeeping updates of the world leave the trace alone. *)
Lemma requests_with_state (f : State.RuntimeState → State.RuntimeState) (w : World) :
  requests (with_state f w) = requests w.
Proof. reflexivity. Qed.

Lemma requests_with_cache (f : gmap string FileStat → gmap string FileStat)
    (g : gmap string N → gmap string N) (w : World) :
  requests (with_cache f g w) = requests w.
Proof. reflexivity. Qed.

Lemma requests_with_clock (t : N) (ts : list Timer) (w : World) :
  requests (with_clock t ts w) = requests w.
Proof. reflexivity. Qed.

Lemma requests_count_fetch  (w : World) :
  requests (count_fetch w) = requests w.
Proof. reflexivity. Qed.

Lemma requests_count_prompt  (w : World) :
  requests (count_prompt w) = requests w.
Proof. reflexivity. Qed.

Lemma requests_setTimeout_expire (key uri : string) (delay : N) (w : World) :
  requests (setTimeout_expire key uri delay w) = requests w.
Proof. reflexivity. Qed.

Lemma timeline_with_state (f : State.RuntimeState → State.RuntimeState) (w : World) :
  timeline (with_state f w) = timeline w.
Proof. reflexivity. Qed.

Lemma timeline_with_cache (f : gmap string FileStat → gmap string FileStat)
    (g : gmap string N → gmap string N) (w : World) :
  timeline (with_cache f g w) = timeline w.
Proof. reflexivity. Qed.

Lemma timeline_with_clock (t : N) (ts : list Timer) (w : World) :
  timeline (with_clock t ts w) = timeline w.
Proof. reflexivity. Qed.

Lemma timeline_count_fetch  (w : World) :
  timeline (count_fetch w) = timeline w.
Proof. reflexivity. Qed.

Lemma timeline_count_prompt  (w : World) :
  timeline (count_prompt w) = timeline w.
Proof. reflexivity. Qed.

Lemma timeline_setTimeout_expire (key uri : string) (delay : N) (w : World) :
  timeline (setTimeout_expire key uri delay w) = timeline w.
Proof. reflexivity. Qed.

Lemma callbacks_with_state (f : State.RuntimeState → State.RuntimeState) (w : World) :
  callbacks (with_state f w) = callbacks w.
Proof. reflexivity. Qed.

Lemma callbacks_with_cache (f : gmap string FileStat → gmap string FileStat)
    (g : gmap string N → gmap string N) (w : World) :
  callbacks (with_cache f g w) = callbacks w.
Proof. reflexivity. Qed.

Lemma callbacks_with_clock (t : N) (ts : list Timer) (w : World) :
  callbacks (with_clock t ts w) = callbacks w.
Proof. reflexivity. Qed.

Lemma callbacks_count_fetch  (w : World) :
  callbacks (count_fetch w) = callbacks w.
Proof. reflexivity. Qed.

Lemma callbacks_count_prompt  (w : World) :
  callbacks (count_prompt w) = callbacks w.
Proof. reflexivity. Qed.

Lemma callbacks_setTimeout_expire (key uri : string) (delay : N) (w : World) :
  callbacks (setTimeout_expire key uri delay w) = callbacks w.
Proof. reflexivity. Qed.

Create Rewrite HintDb frame.
#[export] Hint Rewrite requests_emit timeline_emit callbacks_emit
  requests_advance timeline_advance callbacks_advance
  state_advance settings_advance fetches_advance prompts_advance
  requests_with_state requests_with_cache requests_with_clock
  requests_count_fetch requests_count_prompt requests_setTimeout_expire
  timeline_with_state timeline_with_cache timeline_with_clock
  timeline_count_fetch timeline_count_prompt timeline_setTimeout_expire
  callbacks_with_state callbacks_with_cache callbacks_with_clock
  callbacks_count_fetch callbacks_count_prompt callbacks_setTimeout_expire : frame.

(** **** The status table *)

Lemma ok_range (r : Response) : ok r = true ↔ (200 ≤ status r ≤ 299)%N.
Proof.
  unfold ok. rewrite andb_true_iff, !N.leb_le. tauto.
Qed.

Lemma forConnection_error_ok (r : Response) : ok r = true → forConnection_error r = None.
Proof.
  intros Hok. pose proof (proj1 (ok_range r) Hok) as Hr.
  unfold forConnection_error. rewrite Hok. simpl.
  repeat match goal with
         | |- context [(status r =? ?n)%N] =>
             destruct (N.eqb_spec (status r) n) as [E|_]; [rewrite E in Hr; lia|]
         end.
  reflexivity.
Qed.

(** Every response outside 200..299 is turned into an error. *)
Lemma forConnection_error_not_ok (r : Response) :
  ok r = false → is_Some (forConnection_error r).
Proof.
  intros Hok. unfold forConnection_error. rewrite Hok. simpl.
  repeat match goal with
         | |- context [(status r =? ?n)%N] => destruct (status r =? n)%N; [eauto|]
         end;
    try (destruct (body_json r) as [j|]; [destruct (errors j)|]; eauto).
Qed.

(** An attempt of [readFile] fails exactly when the fetch is rejected or the
    response is outside 200..299. *)
Lemma attempt_error_None_iff (o : FetchOutcome) :
  attempt_error o = None ↔ ∃ r latency, o = Responded r latency ∧ ok r = true.
Proof.
  split.
  - destruct o as [reason latency|r latency]; simpl; [discriminate|].
    intros He. exists r, latency. split; [reflexivity|].
    destruct (ok r) eqn:Hok; [reflexivity|].
    destruct (forConnection_error_not_ok r Hok) as [e Hs]. congruence.
  - intros (r & latency & -> & Hok). simpl. by apply forConnection_error_ok.
Qed.

Section Provider.
Context `{Platform} `{Environment} `{Dependencies}.

Lemma ensureConnected_connected (w : World) :
  Js.truthy (State.serverApiUrl (state w)) = true → ensureConnected w = (Ok tt, w).
Proof.
  intros Hc. unfold ensureConnected, bind, gets. simpl. rewrite Hc. reflexivity.
Qed.

Lemma ensureConnected_disconnected (w : World) :
  Js.truthy (State.serverApiUrl (state w)) = false →
  ensureConnected w
  = (Throw (Unavailable "No server API URL set, please init the extension first."), w).
Proof.
  intros Hc. unfold ensureConnected, bind, gets. simpl. rewrite Hc. reflexivity.
Qed.

(** A response in 200..299 passes [forConnection] with one log line. *)
Lemma forConnection_ok (operation : string) (r : Response) (w : World) :
  ok r = true →
  forConnection operation r w
  = (Ok tt, emit (EvLog (operation +:+ ": " +:+ pretty (status r) +:+ " " +:+ statusText r)) w).
Proof.
  intros Hok. pose proof (proj1 (ok_range r) Hok) as Hr.
  unfold forConnection, bind, log, modify. simpl.
  repeat match goal with
         | |- context [(status r =? ?n)%N] =>
             destruct (N.eqb_spec (status r) n) as [E|_]; [rewrite E in Hr; lia|]
         end.
  rewrite Hok. reflexivity.
Qed.

End Provider.

Section Equations.
Context `{Platform}.

(** The equations by which a run is unfolded up to its first request. *)
Lemma bind_gets {A B} (f : World → A) (k : A → M B) (w : World) :
  bind (gets f) k w = k (f w) w.
Proof. reflexivity. Qed.

Lemma bind_ret {A B} (a : A) (k : A → M B) (w : World) : bind (ret a) k w = k a w.
Proof. reflexivity. Qed.

Lemma bind_log {B} (m : string) (k : unit → M B) (w : World) :
  bind (log m) k w = k tt (emit (EvLog m) w).
Proof. reflexivity. Qed.

Lemma bind_proxyUrl {B} (u : string) (k : string → M B) (w : World) :
  bind (proxyUrl u) k w = k (proxied (settings w) u) w.
Proof. reflexivity. Qed.

Lemma bind_ensureConnected {B} (k : unit → M B) (w : World) :
  Js.truthy (State.serverApiUrl (state w)) = true →
  bind ensureConnected k w = k tt w.
Proof. intros Hc. unfold bind. rewrite (ensureConnected_connected w Hc). reflexivity. Qed.

End Equations.

Ltac unfold_run Hc :=
  repeat (first [ rewrite (bind_ensureConnected _ _ Hc)
                | rewrite bind_gets | rewrite bind_ret
                | rewrite bind_log | rewrite bind_proxyUrl ];
          cbv beta).

(** The request is answered by [Hnet]. *)
Ltac answer_fetch Hnet :=
  unfold bind at 1, fetch at 1; cbn [fetches emit]; rewrite Hnet; cbv beta iota.

Section Status.
Context `{Platform} `{Environment} `{Dependencies}.

(** What [forConnection] does to a response: the error of the table, and on
    401 one warning, after which the callback runs if and only if the user
    chose "Authenticate".  It issues no request and takes no back-off. *)
Lemma forConnection_run (operation : string) (r : Response) (w : World) :
  ∃ w', forConnection operation r w = (outcome_of (forConnection_error r), w')
        ∧ fetches w' = fetches w ∧ settings w' = settings w
        ∧ timeline w' = timeline w ∧ requests w' = requests w
        ∧ if (status r =? 401)%N
          then prompts w' = S (prompts w)
               ∧ callbacks w' = callbacks w + (if authenticates (prompts w) then 1 else 0)
               ∧ state w' = (if authenticates (prompts w)
                             then deps_onAuthenticationFailed (state w) else state w)
          else prompts w' = prompts w ∧ callbacks w' = callbacks w ∧ state w' = state w.
Proof.
  unfold forConnection, forConnection_error, bind, log, modify.
  destruct (status r =? 401)%N.
  { unfold showWarningMessage, gets, authenticates.
    cbn [prompts emit].
    destruct (user (prompts w)) as [choice latency] eqn:Hu. cbn [fst].
    destruct (decide (choice = Some "Authenticate")) as [Hyes|Hno].
    - rewrite (bool_decide_eq_true_2 _ Hyes).
      unfold onAuthenticationFailed, modify, throw.
      eexists. split; [reflexivity|].
      cbn [fetches settings prompts state with_state emit].
      autorewrite with frame. cbn [fetches settings prompts state count_prompt emit].
      rewrite !app_nil_r. repeat split; try reflexivity; lia.
    - rewrite (bool_decide_eq_false_2 _ Hno).
      unfold ret, throw.
      eexists. split; [reflexivity|].
      autorewrite with frame. cbn [fetches settings prompts state count_prompt emit].
      rewrite !app_nil_r. repeat split; try reflexivity; lia. }
  assert (Hlog : ∀ m, fetches (emit (EvLog m) w) = fetches w
                      ∧ settings (emit (EvLog m) w) = settings w
                      ∧ timeline (emit (EvLog m) w) = timeline w
                      ∧ requests (emit (EvLog m) w) = requests w
                      ∧ prompts (emit (EvLog m) w) = prompts w
                      ∧ callbacks (emit (EvLog m) w) = callbacks w
                      ∧ state (emit (EvLog m) w) = state w).
  { intros m. rewrite timeline_emit, requests_emit, callbacks_emit, !app_nil_r.
    repeat split; try reflexivity; lia. }
  destruct (status r =? 403)%N;
    [eexists; split; [reflexivity|]; destruct (Hlog (operation +:+ ": " +:+ pretty (status r)
       +:+ " " +:+ statusText r)) as (?&?&?&?&?&?&?); auto 10|].
  destruct (status r =? 404)%N;
    [eexists; split; [reflexivity|]; destruct (Hlog (operation +:+ ": " +:+ pretty (status r)
       +:+ " " +:+ statusText r)) as (?&?&?&?&?&?&?); auto 10|].
  destruct (status r =? 422)%N.
  { unfold response_json, first_detail, ret, throw.
    destruct (body_json r) as [j|]; [destruct (errors j) as [[|e es]|]|];
      (eexists; split; [reflexivity|]; destruct (Hlog (operation +:+ ": " +:+ pretty (status r)
       +:+ " " +:+ statusText r)) as (?&?&?&?&?&?&?); auto 10). }
  destruct (status r =? 429)%N;
    [eexists; split; [reflexivity|]; destruct (Hlog (operation +:+ ": " +:+ pretty (status r)
       +:+ " " +:+ statusText r)) as (?&?&?&?&?&?&?); auto 10|].
  destruct (status r =? 500)%N.
  { eexists; split; [reflexivity|].
    autorewrite with frame. rewrite !app_nil_r.
    repeat split; try reflexivity; lia. }
  destruct (negb (ok r));
    (eexists; split; [reflexivity|]; destruct (Hlog (operation +:+ ": " +:+ pretty (status r)
       +:+ " " +:+ statusText r)) as (?&?&?&?&?&?&?); auto 10).
Qed.

(** One attempt of [readFile]: exactly one request, and the outcome that the
    network and the status table give it. *)
Lemma readFile_attempt_run (uri : Uri) (attempt : N) (w : World) :
  let o := network (fetches w) in
  ∃ w1, readFile_attempt uri attempt w
        = (match attempt_error o with
           | Some e => Throw e
           | None => Ok (attempt_payload o)
           end, w1)
        ∧ fetches w1 = S (fetches w) ∧ settings w1 = settings w
        ∧ timeline w1
          = (timeline w ++ [EvFetch (contents_request (state w) (settings w) uri)])%list
        ∧ prompts w1 = prompts w + (if unauthorized o then 1 else 0)
        ∧ callbacks w1
          = callbacks w + (if unauthorized o && authenticates (prompts w) then 1 else 0).
Proof.
  intros o. subst o.
  unfold readFile_attempt, bind, gets, proxyUrl, bind, gets, ret, fetch.
  fold (contents_request (state w) (settings w) uri).
  destruct (network (fetches w)) as [reason latency|r latency]; cbn [attempt_error unauthorized].
  - eexists. split; [reflexivity|].
    autorewrite with frame. cbn [fetches settings prompts count_fetch emit andb].
    repeat split; try reflexivity; lia.
  - set (w0 := advance latency (count_fetch
                 (emit (EvFetch (contents_request (state w) (settings w) uri)) w))).
    destruct (forConnection_run
                ("readFile: " +:+ Uri_toString uri +:+ " (attempt " +:+ pretty attempt +:+ ")")
                r w0) as (w1 & E & Hf & Hs & Ht & _ & H401).
    rewrite E.
    assert (Hp0 : prompts w0 = prompts w) by (unfold w0; autorewrite with frame; reflexivity).
    assert (Hc0 : callbacks w0 = callbacks w)
      by (unfold w0; autorewrite with frame; simpl; lia).
    exists w1. split.
    { destruct (forConnection_error r); reflexivity. }
    rewrite Hf, Hs, Ht. unfold w0. autorewrite with frame.
    cbn [fetches settings prompts count_fetch emit attempt_payload].
    repeat split; try reflexivity.
    + destruct (status r =? 401)%N; destruct H401 as (Hp & _ & _); rewrite Hp, Hp0; lia.
    + destruct (status r =? 401)%N; destruct H401 as (_ & Hc & _); rewrite Hc, Hc0;
        [rewrite Hp0; reflexivity|simpl; lia].
Qed.

(** The [catch] of the loop: a log line, and the back-off unless this was the
    last attempt. *)
Lemma readFile_failed_run (uri : Uri) (attempt : N) (error : Error) (w : World) :
  ∃ w1, readFile_failed uri attempt error w = (Ok tt, w1)
        ∧ fetches w1 = fetches w ∧ settings w1 = settings w
        ∧ state w1 = state w
        ∧ timeline w1
          = (timeline w ++ if (attempt <? maxRetries)%N
                           then [EvSleep (2 ^ attempt * 100)%N] else [])%list
        ∧ prompts w1 = prompts w ∧ callbacks w1 = callbacks w.
Proof.
  unfold readFile_failed, bind, log, modify, sleep, modify, ret.
  destruct (attempt <? maxRetries)%N; (eexists; split; [reflexivity|]);
    autorewrite with frame; cbn [fetches settings state prompts emit];
    rewrite ?app_nil_r; repeat split; try reflexivity; lia.
Qed.

(** C6: on a connected provider [readFile] makes at most three attempts, one
    request each.  Whatever makes an attempt fail (a rejected fetch or a
    response outside 200..299), the next attempt follows after 200 ms (after
    the first) and 400 ms (after the second); the first attempt that succeeds
    returns its payload and ends the call; if all three fail the error of the
    third is thrown. *)
Theorem readFile_retries_with_backoff (uri : Uri) (w : World) :
  Js.truthy (State.serverApiUrl (state w)) = true →
  let o1 := network (fetches w) in
  let o2 := network (S (fetches w)) in
  let o3 := network (S (S (fetches w))) in
  let q := fun s => EvFetch (contents_request s (settings w) uri) in
  match attempt_error o1 with
  | None =>
      ∃ w', readFile uri w = (Ok (attempt_payload o1), w')
            ∧ timeline w' = (timeline w ++ [q (state w)])%list
  | Some e1 =>
      match attempt_error o2 with
      | None =>
          ∃ w' s2, readFile uri w = (Ok (attempt_payload o2), w')
                   ∧ timeline w'
                     = (timeline w ++ [q (state w); EvSleep 200; q s2])%list
      | Some e2 =>
          match attempt_error o3 with
          | None =>
              ∃ w' s2 s3, readFile uri w = (Ok (attempt_payload o3), w')
                          ∧ timeline w'
                            = (timeline w ++ [q (state w); EvSleep 200; q s2;
                                              EvSleep 400; q s3])%list
          | Some e3 =>
              ∃ w' s2 s3, readFile uri w = (Throw e3, w')
                          ∧ timeline w'
                            = (timeline w ++ [q (state w); EvSleep 200; q s2;
                                              EvSleep 400; q s3])%list
          end
      end
  end.
Proof.
  intros Hc o1 o2 o3 q.
  unfold readFile, bind. rewrite (ensureConnected_connected w Hc).
  change (N.to_nat maxRetries) with 3.
  cbn [readFile_loop]. unfold bind, try_catch, ret.
  destruct (readFile_attempt_run uri 1 w) as (w1 & E1 & F1 & S1 & T1 & _).
  fold o1 in E1. rewrite E1.
  destruct (attempt_error o1) as [e1|]; [|exists w1; split; [reflexivity|exact T1]].
  destruct (readFile_failed_run uri 1 e1 w1) as (w1' & E1' & F1' & S1' & St1' & T1' & _).
  rewrite E1'.
  destruct (readFile_attempt_run uri (1 + 1) w1') as (w2 & E2 & F2 & S2 & T2 & _).
  rewrite F1', F1 in E2. fold o2 in E2. rewrite E2.
  assert (Tl2 : timeline w2
                = (timeline w ++ [q (state w); EvSleep 200; q (state w1')])%list).
  { rewrite T2, T1', T1, S1', S1. cbn. rewrite <- !app_assoc. reflexivity. }
  destruct (attempt_error o2) as [e2|]; [|exists w2, (state w1'); split; [reflexivity|exact Tl2]].
  destruct (readFile_failed_run uri (1 + 1) e2 w2) as (w2' & E2' & F2' & S2' & St2' & T2' & _).
  rewrite E2'.
  destruct (readFile_attempt_run uri (1 + 1 + 1) w2') as (w3 & E3 & F3 & S3 & T3 & _).
  rewrite F2', F2, F1', F1 in E3. fold o3 in E3. rewrite E3.
  assert (Tl3 : timeline w3
                = (timeline w ++ [q (state w); EvSleep 200; q (state w1');
                                  EvSleep 400; q (state w2')])%list).
  { rewrite T3, T2', Tl2, S2', S2, S1', S1. cbn. rewrite <- !app_assoc. reflexivity. }
  destruct (attempt_error o3) as [e3|]; [|exists w3, (state w1'), (state w2');
                                          split; [reflexivity|exact Tl3]].
  destruct (readFile_failed_run uri (1 + 1 + 1) e3 w3) as (w3' & E3' & F3' & S3' & St3' & T3' & _).
  rewrite E3'.
  exists w3', (state w1'), (state w2'). split; [reflexivity|].
  rewrite T3', Tl3. cbn. rewrite app_nil_r. reflexivity.
Qed.

Lemma forConnection_error_401 (r : Response) :
  status r = 401%N → forConnection_error r = Some (NoPermissions (url r)).
Proof. intros E. unfold forConnection_error. rewrite E. reflexivity. Qed.

(** A 401 response handed to [forConnection], whatever follows. *)
Lemma check_then_401 {A} (operation : string) (k : unit → M A) (r : Response) (w : World) :
  status r = 401%N →
  ∃ w', bind (forConnection operation r) k w = (Throw (NoPermissions (url r)), w')
        ∧ fetches w' = fetches w
        ∧ prompts w' = S (prompts w)
        ∧ callbacks w' = callbacks w + (if authenticates (prompts w) then 1 else 0).
Proof.
  intros H401.
  destruct (forConnection_run operation r w) as (w1 & E & Hf & _ & _ & _ & Hx).
  unfold bind. rewrite E, (forConnection_error_401 r H401). simpl.
  rewrite H401 in Hx. simpl in Hx. destruct Hx as (Hp & Hc & _).
  exists w1. auto.
Qed.

Lemma check_401 (operation : string) (r : Response) (w : World) :
  status r = 401%N →
  ∃ w', forConnection operation r w = (Throw (NoPermissions (url r)), w')
        ∧ fetches w' = fetches w
        ∧ prompts w' = S (prompts w)
        ∧ callbacks w' = callbacks w + (if authenticates (prompts w) then 1 else 0).
Proof.
  intros H401.
  destruct (forConnection_run operation r w) as (w1 & E & Hf & _ & _ & _ & Hx).
  rewrite (forConnection_error_401 r H401) in E.
  rewrite H401 in Hx. simpl in Hx. destruct Hx as (Hp & Hc & _).
  exists w1. auto.
Qed.

Ltac close_401 H401 :=
  let w' := fresh "w'" in
  let E := fresh "E" in
  let Hf := fresh "Hf" in
  let Hp := fresh "Hp" in
  let Hcb := fresh "Hcb" in
  match goal with
  | |- ∃ _, bind (forConnection ?op ?r) ?k ?w0 = _ ∧ _ =>
      destruct (check_then_401 op k r w0 H401) as (w' & E & Hf & Hp & Hcb)
  | |- ∃ _, forConnection ?op ?r ?w0 = _ ∧ _ =>
      destruct (check_401 op r w0 H401) as (w' & E & Hf & Hp & Hcb)
  end;
  exists w'; split; [exact E|];
  rewrite Hf, Hp, Hcb;
  cbn [fetches prompts emit]; autorewrite with frame;
  cbn [fetches prompts count_fetch emit]; rewrite ?Nat.add_0_r;
  repeat split; reflexivity.

(** Without a connection [readFile] fails at once and attempts nothing. *)
Lemma readFile_disconnected (uri : Uri) (w : World) :
  Js.truthy (State.serverApiUrl (state w)) = false →
  readFile uri w
  = (Throw (Unavailable "No server API URL set, please init the extension first."), w).
Proof.
  intros Hc. unfold readFile, bind. rewrite (ensureConnected_disconnected w Hc). reflexivity.
Qed.

(** [readFile] retries a 401 like any other failure: three such answers
    make three warnings, and the error of the third is thrown. *)
Lemma readFile_unauthorized_thrice (uri : Uri) (w : World)
    (r1 r2 r3 : Response) (l1 l2 l3 : N) :
  Js.truthy (State.serverApiUrl (state w)) = true →
  network (fetches w) = Responded r1 l1 → status r1 = 401%N →
  network (S (fetches w)) = Responded r2 l2 → status r2 = 401%N →
  network (S (S (fetches w))) = Responded r3 l3 → status r3 = 401%N →
  ∃ w', readFile uri w = (Throw (NoPermissions (url r3)), w')
        ∧ fetches w' = 3 + fetches w
        ∧ prompts w' = 3 + prompts w
        ∧ callbacks w'
          = callbacks w
            + ((if authenticates (prompts w) then 1 else 0)
               + (if authenticates (S (prompts w)) then 1 else 0)
               + (if authenticates (S (S (prompts w))) then 1 else 0)).
Proof.
  intros Hc N1 S1 N2 S2 N3 S3.
  unfold readFile, bind. rewrite (ensureConnected_connected w Hc).
  change (N.to_nat maxRetries) with 3.
  cbn [readFile_loop]. unfold bind, try_catch, ret.
  destruct (readFile_attempt_run uri 1 w) as (w1 & E1 & F1 & _ & _ & P1 & C1).
  rewrite N1 in E1, P1, C1. cbn [attempt_error unauthorized] in E1, P1, C1.
  rewrite (forConnection_error_401 r1 S1) in E1. rewrite S1 in P1, C1. cbn in P1, C1.
  rewrite E1.
  destruct (readFile_failed_run uri 1 (NoPermissions (url r1)) w1)
    as (w1' & E1' & F1' & _ & _ & _ & P1' & C1').
  rewrite E1'.
  destruct (readFile_attempt_run uri (1 + 1) w1') as (w2 & E2 & F2 & _ & _ & P2 & C2).
  rewrite F1', F1, N2 in E2, P2, C2. cbn [attempt_error unauthorized] in E2, P2, C2.
  rewrite (forConnection_error_401 r2 S2) in E2. rewrite S2 in P2, C2. cbn in P2, C2.
  rewrite E2.
  destruct (readFile_failed_run uri (1 + 1) (NoPermissions (url r2)) w2)
    as (w2' & E2' & F2' & _ & _ & _ & P2' & C2').
  rewrite E2'.
  destruct (readFile_attempt_run uri (1 + 1 + 1) w2') as (w3 & E3 & F3 & _ & _ & P3 & C3).
  rewrite F2', F2, F1', F1, N3 in E3, P3, C3. cbn [attempt_error unauthorized] in E3, P3, C3.
  rewrite (forConnection_error_401 r3 S3) in E3. rewrite S3 in P3, C3. cbn in P3, C3.
  rewrite E3.
  destruct (readFile_failed_run uri (1 + 1 + 1) (NoPermissions (url r3)) w3)
    as (w3' & E3' & F3' & _ & _ & _ & P3' & C3').
  rewrite E3'.
  exists w3'. split; [reflexivity|].
  rewrite P1', P1 in C2. rewrite P2', P2, P1', P1 in C3.
  replace (prompts w + 1 + 1) with (S (S (prompts w))) in C3 by lia.
  replace (prompts w + 1) with (S (prompts w)) in C2 by lia.
  repeat split; lia.
Qed.

(** A 401 on the first request of a call, when that request is its main
    request: [forConnection] shows one warning, calls the callback when the
    user chooses "Authenticate", and the call fails with NoPermissions;
    [readFile] goes through this three times. *)
Lemma unauthorized_main_request_fails
    (uri target : Uri) (w : World) (r : Response) (latency : N) :
  Js.truthy (State.serverApiUrl (state w)) = true →
  network (fetches w) = Responded r latency →
  status r = 401%N →
  (∀ operation w0,
      ∃ w', forConnection operation r w0 = (Throw (NoPermissions (url r)), w')
            ∧ prompts w' = S (prompts w0)
            ∧ callbacks w' = callbacks w0 + (if authenticates (prompts w0) then 1 else 0)
            ∧ requests w' = requests w0)
  ∧ fails_unauthenticated (readDirectory uri) w r
  ∧ fails_unauthenticated (createDirectory uri) w r
  ∧ fails_unauthenticated (delete uri true) w r
  ∧ fails_unauthenticated (rename uri target false) w r
  ∧ fails_unauthenticated (copy uri target false) w r
  ∧ (String.eqb (path uri) "/" = false →
     responseCache w !! cacheKey_of uri = None →
     fails_unauthenticated (stat uri) w r)
  ∧ (∀ r2 l2 r3 l3,
       network (S (fetches w)) = Responded r2 l2 → status r2 = 401%N →
       network (S (S (fetches w))) = Responded r3 l3 → status r3 = 401%N →
       ∃ w', readFile uri w = (Throw (NoPermissions (url r3)), w')
             ∧ fetches w' = 3 + fetches w
             ∧ prompts w' = 3 + prompts w
             ∧ callbacks w'
               = callbacks w
                 + ((if authenticates (prompts w) then 1 else 0)
                    + (if authenticates (S (prompts w)) then 1 else 0)
                    + (if authenticates (S (S (prompts w))) then 1 else 0))).
Proof.
  intros Hc Hnet H401.
  split.
  { intros operation w0.
    destruct (forConnection_run operation r w0) as (w' & E & _ & _ & _ & Hr & Hx).
    rewrite (forConnection_error_401 r H401) in E. rewrite H401 in Hx. simpl in Hx.
    destruct Hx as (Hp & Hcb & _). eauto 10. }
  unfold fails_unauthenticated.
  split.
  { unfold readDirectory. unfold_run Hc. answer_fetch Hnet. unfold_run Hc.
    close_401 H401. }
  split.
  { unfold createDirectory. unfold_run Hc. answer_fetch Hnet. close_401 H401. }
  split.
  { unfold delete. unfold_run Hc. cbn [negb]. unfold_run Hc. answer_fetch Hnet.
    close_401 H401. }
  split.
  { unfold rename. unfold_run Hc. answer_fetch Hnet. close_401 H401. }
  split.
  { unfold copy. unfold_run Hc. answer_fetch Hnet. close_401 H401. }
  split.
  { intros Hroot Hmiss.
    unfold stat. unfold_run Hc. rewrite Hmiss, Hroot. unfold_run Hc.
    answer_fetch Hnet. close_401 H401. }
  intros r2 l2 r3 l3 N2 S2 N3 S3.
  exact (readFile_unauthorized_thrice uri w r r2 r3 latency l2 l3 Hc Hnet H401 N2 S2 N3 S3).
Qed.

End Status.

Section WriteFile.
Context `{Platform} `{Environment} `{Dependencies}.

Lemma forConnection_error_kind (r : Response) (e : Error) :
  forConnection_error r = Some e →
  match e with
  | FileIsADirectory _ | FileExists _ => False
  | _ => True
  end.
Proof.
  unfold forConnection_error.
  repeat match goal with
         | |- context [(status r =? ?n)%N] => destruct (status r =? n)%N
         end;
    try (destruct (body_json r) as [j|]; [destruct (errors j)|]);
    try destruct (negb (ok r)); intros [= <-]; exact I.
Qed.

(** The existence probe of [writeFile] ends in one of two ways only: the
    value of [fileExists], or NotFound; whatever the [try] block threw is
    lost in the [catch]. *)
Lemma writeFile_probe_run (uri : Uri) (create overwrite : bool) (w : World) :
  ∃ w', (∃ fileExists, writeFile_probe uri create overwrite w = (Ok fileExists, w'))
        ∨ (create = false
           ∧ writeFile_probe uri create overwrite w
             = (Throw (FileNotFound (Uri_toString uri)), w')).
Proof.
  unfold writeFile_probe, writeFile_try.
  destruct (stat uri w) as [[fileStat|e] w'].
  - destruct (type fileStat =? FileType_Directory)%Z; [|destruct (negb overwrite)];
      destruct create; simpl; eauto 6.
  - destruct create; simpl; eauto 6.
Qed.

(** No run of [writeFile] ends in IsADirectory or AlreadyExists. *)
Lemma writeFile_never_reports_directory_or_exists
    (uri : Uri) (content : bytes) (create overwrite : bool) (w : World) :
  match (writeFile uri content create overwrite w).1 with
  | Throw (FileIsADirectory _) | Throw (FileExists _) => False
  | _ => True
  end.
Proof.
  unfold writeFile. unfold bind at 1.
  destruct (Js.truthy (State.serverApiUrl (state w))) eqn:Hc;
    [rewrite (ensureConnected_connected w Hc)
    |rewrite (ensureConnected_disconnected w Hc); exact I].
  unfold bind at 1.
  destruct (writeFile_probe_run uri create overwrite w) as (w1 & [[fe E]|[_ E]]);
    rewrite E; [|exact I].
  unfold bind at 1.
  assert (Hpre : ∃ w2,
             (if negb fe && create
              then try_catch
                     (s <- gets state ;;
                      target <- proxyUrl (State.serverApiUrl s +:+ "/write?file=" +:+ path uri) ;;
                      createResponse <- fetch (write_request s target []) ;;
                      log ("createFile attempt: " +:+ pretty (status createResponse) +:+ " "
                           +:+ statusText createResponse))
                     (fun error => log ("Failed to create file first: "
                                        +:+ String_of_error error))
              else ret tt) w1 = (Ok tt, w2)).
  { destruct (negb fe && create); [|eexists; reflexivity].
    unfold try_catch. rewrite bind_gets, bind_proxyUrl. cbv beta.
    unfold bind, fetch. destruct (network (fetches w1)); eexists; reflexivity. }
  destruct Hpre as (w2 & ->).
  rewrite bind_gets, bind_proxyUrl. cbv beta.
  unfold bind, fetch. destruct (network (fetches w2)) as [reason latency|r latency];
    [exact I|].
  match goal with
  | |- context [forConnection ?op r ?w0] =>
      destruct (forConnection_run op r w0) as (w3 & -> & _)
  end.
  destruct (forConnection_error r) as [e|] eqn:Ee; [|exact I].
  simpl. pose proof (forConnection_error_kind r e Ee) as Hk. destruct e; auto.
Qed.

(** The third case of C1 holds: when the probe fails and [create] is false,
    [writeFile] fails with NotFound and sends nothing further. *)
Lemma writeFile_missing_without_create
    (uri : Uri) (content : bytes) (overwrite : bool) (w w1 : World) (e : Error) :
  Js.truthy (State.serverApiUrl (state w)) = true →
  stat uri w = (Throw e, w1) →
  writeFile uri content false overwrite w = (Throw (FileNotFound (Uri_toString uri)), w1).
Proof.
  intros Hc Hs. unfold writeFile. rewrite (bind_ensureConnected _ _ Hc).
  unfold bind, writeFile_probe, writeFile_try. rewrite Hs. reflexivity.
Qed.

End WriteFile.

(** **** The metadata cache and its eviction timers *)

Lemma expire_all_lookup (k : string) (ready : list Timer) (w : World) :
  Forall (fun t => timer_key t ≠ k) ready →
  let w' := foldl (fun w t => expire t w) w ready in
  responseCache w' !! k = responseCache w !! k
  ∧ responseCacheHits w' !! k = responseCacheHits w !! k.
Proof.
  revert w. induction ready as [|t ready IH]; intros w Hall; simpl; [auto|].
  inversion Hall as [|? ? Ht Hrest]; subst.
  destruct (IH (expire t w) Hrest) as [Hc Hh]. rewrite Hc, Hh.
  unfold expire. simpl. rewrite !lookup_delete_ne by exact Ht. auto.
Qed.

(** Time passing keeps every entry whose timers are not yet due. *)
Lemma advance_lookup (k : string) (dt : N) (w : World) :
  Forall (fun t => timer_key t = k → (now w + dt < due t)%N) (timers w) →
  responseCache (advance dt w) !! k = responseCache w !! k
  ∧ responseCacheHits (advance dt w) !! k = responseCacheHits w !! k.
Proof.
  intros Hall. unfold advance.
  destruct (expire_all_lookup k (List.filter (is_due (now w + dt)) (timers w))
              (with_clock (now w + dt)
                 (List.filter (fun t => negb (is_due (now w + dt) t)) (timers w)) w))
    as [Hc Hh]; [|rewrite Hc, Hh; split; reflexivity].
  apply Forall_forall. intros t Hin.
  apply list_elem_of_In, List.filter_In in Hin as [Hin Hdue].
  rewrite Forall_forall in Hall. intros Hk.
  specialize (Hall t (proj2 (list_elem_of_In _ _) Hin) Hk).
  unfold is_due in Hdue. apply N.leb_le in Hdue. lia.
Qed.

Lemma timers_advance (dt : N) (w : World) :
  timers (advance dt w)
  = List.filter (fun t => negb (is_due (now w + dt) t)) (timers w).
Proof.
  unfold advance.
  destruct (expire_all_frame (List.filter (is_due (now w + dt)) (timers w))
              (with_clock (now w + dt) (List.filter (fun t => negb (is_due (now w + dt) t))
                                                    (timers w)) w))
    as (_ & _ & _ & _ & _ & Ht & _).
  rewrite Ht. reflexivity.
Qed.

Lemma expire_all_absent (k : string) (ready : list Timer) (w : World) :
  responseCache w !! k = None →
  responseCache (foldl (fun w t => expire t w) w ready) !! k = None.
Proof.
  revert w. induction ready as [|t ready IH]; intros w Hk; simpl; [exact Hk|].
  apply IH. unfold expire. simpl.
  destruct (decide (timer_key t = k)) as [->|Hne];
    [apply lookup_delete_eq|by rewrite lookup_delete_ne].
Qed.

(** Time passing stores nothing. *)
Lemma advance_absent (k : string) (dt : N) (w : World) :
  responseCache w !! k = None → responseCache (advance dt w) !! k = None.
Proof. intros Hk. unfold advance. by apply expire_all_absent. Qed.

Lemma same_key_same_timer (l : list Timer) (t t' : Timer) :
  NoDup (timer_key <$> l) → t ∈ l → t' ∈ l → timer_key t = timer_key t' → t = t'.
Proof.
  induction l as [|a l IH]; intros Hnd Ht Ht' Hk; [by apply not_elem_of_nil in Ht|].
  rewrite fmap_cons in Hnd. apply NoDup_cons in Hnd as [Ha Hnd].
  apply elem_of_cons in Ht as [->|Ht]; apply elem_of_cons in Ht' as [->|Ht'].
  - reflexivity.
  - exfalso. apply Ha. rewrite Hk. apply list_elem_of_fmap. eauto.
  - exfalso. apply Ha. rewrite <- Hk. apply list_elem_of_fmap. eauto.
  - by apply IH.
Qed.

Lemma filter_keys_NoDup (f : Timer → bool) (l : list Timer) :
  NoDup (timer_key <$> l) → NoDup (timer_key <$> List.filter f l).
Proof.
  induction l as [|a l IH]; intros Hnd; simpl; [constructor|].
  rewrite fmap_cons in Hnd. apply NoDup_cons in Hnd as [Ha Hnd].
  destruct (f a); [|auto]. rewrite fmap_cons. apply NoDup_cons. split; [|auto].
  intros Hin. apply Ha. apply list_elem_of_fmap in Hin as (t & Ht & Hin).
  apply list_elem_of_fmap. exists t. split; [exact Ht|].
  apply list_elem_of_In, List.filter_In in Hin as [Hin _]. by apply list_elem_of_In.
Qed.

(** Time passing keeps the cache sound: a timer that comes due takes its
    entry with it, and no other timer belongs to that entry. *)
Lemma advance_sound (dt : N) (w : World) : cache_sound w → cache_sound (advance dt w).
Proof.
  intros [Hnd Hin]. split.
  - rewrite timers_advance. by apply filter_keys_NoDup.
  - intros t Ht. rewrite timers_advance in Ht.
    apply list_elem_of_In, List.filter_In in Ht as [Ht Hwait].
    apply list_elem_of_In in Ht.
    destruct (advance_lookup (timer_key t) dt w) as [-> _]; [|auto].
    apply Forall_forall. intros t' Ht' Hk.
    rewrite (same_key_same_timer (timers w) t' t Hnd Ht' Ht Hk).
    unfold is_due in Hwait. apply negb_true_iff, N.leb_gt in Hwait. exact Hwait.
Qed.

Lemma same_cache_sound (w w' : World) :
  timers w' = timers w → responseCache w' = responseCache w →
  cache_sound w → cache_sound w'.
Proof. unfold cache_sound. intros -> ->. auto. Qed.

(** Storing a fresh entry together with its timer keeps the cache sound. *)
Lemma store_sound (key uri : string) (m : FileStat) (delay : N) (w : World) :
  cache_sound w →
  responseCache w !! key = None →
  cache_sound (setTimeout_expire key uri delay
                 (with_cache (<[key := m]>) (<[key := 0%N]>) w)).
Proof.
  intros [Hnd Hin] Hmiss. split; cbn [timers responseCache setTimeout_expire with_clock with_cache].
  - rewrite fmap_app. apply NoDup_app. split; [exact Hnd|]. split; [|apply NoDup_singleton].
    intros k Hk Hk'. apply list_elem_of_singleton in Hk'. simpl in Hk'. subst k.
    apply list_elem_of_fmap in Hk as (t & Ht & Htin).
    destruct (Hin t Htin) as [x Hx]. rewrite <- Ht, Hmiss in Hx. discriminate.
  - intros t Ht. apply elem_of_app in Ht as [Ht|Ht].
    + destruct (decide (key = timer_key t)) as [<-|Hne];
        [rewrite lookup_insert_eq; eauto|rewrite lookup_insert_ne; auto].
    + apply list_elem_of_singleton in Ht as ->. simpl. rewrite lookup_insert_eq. eauto.
Qed.

Section Soundness.
Context `{Platform} `{Environment} `{Dependencies}.

Lemma steady_keeps {A} (m : M A) : steady m → keeps m.
Proof. intros Hm w. apply Hm. Qed.

Lemma steady_ret {A} (a : A) : steady (ret a).
Proof. intros w. split; auto. Qed.

Lemma steady_throw {A} (e : Error) : steady (throw (A := A) e).
Proof. intros w. split; auto. Qed.

Lemma steady_gets {A} (f : World → A) : steady (gets f).
Proof. intros w. split; auto. Qed.

Lemma steady_bind {A B} (m : M A) (k : A → M B) :
  steady m → (∀ a, steady (k a)) → steady (bind m k).
Proof.
  intros Hm Hk w. unfold bind. destruct (Hm w) as [Hs Ha].
  destruct (m w) as [[a|e] w1]; simpl in *; [|auto].
  destruct (Hk a w1) as [Hs' Ha']. split; auto.
Qed.

Lemma steady_try_catch {A} (m : M A) (h : Error → M A) :
  steady m → (∀ e, steady (h e)) → steady (try_catch m h).
Proof.
  intros Hm Hh w. unfold try_catch. destruct (Hm w) as [Hs Ha].
  destruct (m w) as [[a|e] w1]; simpl in *; [auto|].
  destruct (Hh e w1) as [Hs' Ha']. split; auto.
Qed.

Lemma keeps_bind {A B} (m : M A) (k : A → M B) :
  keeps m → (∀ a, keeps (k a)) → keeps (bind m k).
Proof.
  intros Hm Hk w Hs. unfold bind. specialize (Hm w Hs).
  destruct (m w) as [[a|e] w1]; simpl in *; [|auto]. by apply Hk.
Qed.

Lemma steady_log (message : string) : steady (log message).
Proof. intros w. split; [apply same_cache_sound; reflexivity|auto]. Qed.

Lemma steady_sleep (ms : N) : steady (sleep ms).
Proof.
  intros w. unfold sleep, modify. cbn [snd]. split.
  - intros Hs. apply advance_sound. revert Hs. apply same_cache_sound; reflexivity.
  - intros k Hk. by apply advance_absent.
Qed.

Lemma steady_fetch (q : Request) : steady (fetch q).
Proof.
  intros w. unfold fetch.
  assert (Hs : cache_sound w →
               cache_sound (count_fetch (emit (EvFetch q) w)))
    by (apply same_cache_sound; reflexivity).
  destruct (network (fetches w)); cbn [snd]; split;
    (intros; first [apply advance_sound; auto | by apply advance_absent]).
Qed.

Lemma steady_showWarningMessage (message : string) (items : list string) :
  steady (showWarningMessage message items).
Proof.
  intros w. unfold showWarningMessage.
  assert (Hs : cache_sound w →
               cache_sound (count_prompt (emit (EvWarning message items) w)))
    by (apply same_cache_sound; reflexivity).
  destruct (user (prompts w)); cbn [snd]; split;
    (intros; first [apply advance_sound; auto | by apply advance_absent]).
Qed.

Lemma steady_onAuthenticationFailed : steady onAuthenticationFailed.
Proof. intros w. split; [apply same_cache_sound; reflexivity|auto]. Qed.

Lemma steady_proxyUrl (u : string) : steady (proxyUrl u).
Proof. intros w. split; auto. Qed.

Lemma steady_ensureConnected : steady ensureConnected.
Proof.
  intros w. unfold ensureConnected, bind, gets. simpl.
  destruct (negb _); split; auto.
Qed.

Lemma steady_response_json (r : Response) : steady (response_json r).
Proof. unfold response_json. destruct (body_json r); [apply steady_ret|apply steady_throw]. Qed.

(** Decompose an operation into the primitives above. *)
Ltac steady_step :=
  first [ apply steady_ret | apply steady_throw | apply steady_gets | apply steady_log
        | apply steady_sleep | apply steady_fetch | apply steady_showWarningMessage
        | apply steady_onAuthenticationFailed | apply steady_proxyUrl
        | apply steady_ensureConnected | apply steady_response_json
        | apply steady_bind | apply steady_try_catch
        | match goal with
          | |- steady (if ?c then _ else _) => destruct c
          | |- steady (match ?x with _ => _ end) => destruct x
          | |- ∀ _, _ => intros ?
          end ].

Lemma steady_forConnection (operation : string) (r : Response) :
  steady (forConnection operation r).
Proof. unfold forConnection. repeat steady_step. Qed.

Lemma steady_readDirectory (uri : Uri) : steady (readDirectory uri).
Proof. unfold readDirectory. repeat first [apply steady_forConnection | steady_step]. Qed.

Lemma steady_delete (uri : Uri) (recursive : bool) : steady (delete uri recursive).
Proof.
  unfold delete.
  repeat first [apply steady_forConnection | apply steady_readDirectory | steady_step].
Qed.

Lemma steady_createDirectory (uri : Uri) : steady (createDirectory uri).
Proof. unfold createDirectory. repeat first [apply steady_forConnection | steady_step]. Qed.

Lemma steady_rename (oldUri newUri : Uri) (overwrite : bool) :
  steady (rename oldUri newUri overwrite).
Proof.
  unfold rename.
  repeat first [apply steady_forConnection | apply steady_delete | steady_step].
Qed.

Lemma steady_copy (source destination : Uri) (overwrite : bool) :
  steady (copy source destination overwrite).
Proof.
  unfold copy.
  repeat first [apply steady_forConnection | apply steady_delete | steady_step].
Qed.

Lemma steady_readFile_loop (uri : Uri) (left : nat) (attempt : N) (lastError : option Error) :
  steady (readFile_loop uri left attempt lastError).
Proof.
  revert attempt lastError. induction left as [|left IH]; intros attempt lastError; simpl.
  - apply steady_throw.
  - unfold readFile_attempt, readFile_failed.
    repeat first [apply IH | apply steady_forConnection | steady_step].
Qed.

Lemma steady_readFile (uri : Uri) : steady (readFile uri).
Proof. unfold readFile. repeat first [apply steady_readFile_loop | steady_step]. Qed.

(** [stat] is the one operation that stores: a hit rewrites the counter, a
    miss that succeeds stores an entry with its timer. *)
Lemma keeps_stat (uri : Uri) : keeps (stat uri).
Proof.
  intros w Hs. unfold stat. unfold bind at 1.
  destruct (steady_ensureConnected w) as [Hs0 _]. specialize (Hs0 Hs).
  destruct (ensureConnected w) as [[[]|e] w0] eqn:Hec; [|exact Hs0].
  assert (w0 = w) as ->.
  { unfold ensureConnected, bind, gets in Hec. simpl in Hec.
    destruct (negb _); by injection Hec. }
  rewrite bind_gets. cbv beta.
  destruct (responseCache w !! cacheKey_of uri) as [c|] eqn:Hmiss.
  { rewrite bind_gets. cbv beta. unfold bind, modify, ret. cbn [snd].
    revert Hs. apply same_cache_sound; reflexivity. }
  destruct (String.eqb (path uri) "/"); [exact Hs|].
  rewrite bind_gets, bind_proxyUrl. cbv beta.
  unfold bind at 1.
  match goal with
  | |- context [fetch ?q w] =>
      destruct (steady_fetch q w) as [Hs1 Ha1]; destruct (fetch q w) as [[r|e] w1]
  end; cbn [snd] in Hs1, Ha1; [|auto].
  unfold bind at 1.
  destruct (steady_forConnection ("stat: " +:+ Uri_toString uri) r w1) as [Hs2 Ha2].
  destruct (forConnection _ r w1) as [[[]|e] w2]; cbn [snd] in Hs2, Ha2; [|auto].
  unfold bind at 1, response_json.
  destruct (body_json r) as [j|]; [|cbn; auto].
  unfold ret at 1.
  destruct (negb (ok r)).
  { unfold stat_not_ok. destruct (errors j); [destruct (decide _)|]; cbn; auto. }
  destruct (data j) as [files|]; [|cbn; auto].
  destruct (List.find _ files) as [file|]; [|cbn; auto].
  unfold bind, modify, ret. cbn [snd].
  apply store_sound; auto.
Qed.

Lemma keeps_writeFile (uri : Uri) (content : bytes) (create overwrite : bool) :
  keeps (writeFile uri content create overwrite).
Proof.
  unfold writeFile.
  apply keeps_bind; [apply steady_keeps, steady_ensureConnected|intros _].
  apply keeps_bind.
  { intros w Hs. unfold writeFile_probe, writeFile_try.
    pose proof (keeps_stat uri w Hs) as Hk.
    destruct (stat uri w) as [[fileStat|e] w1]; cbn [snd] in Hk.
    - destruct (type fileStat =? FileType_Directory)%Z; [|destruct (negb overwrite)];
        destruct (negb create); exact Hk.
    - destruct (negb create); exact Hk. }
  intros fileExists. apply steady_keeps.
  repeat first [apply steady_forConnection | steady_step].
Qed.

(** Every sequence of completed calls and waits keeps the cache sound. *)
Lemma perform_sound (c : Call) (w : World) : cache_sound w → cache_sound (perform c w).
Proof.
  destruct c; simpl.
  - apply keeps_stat.
  - apply steady_keeps, steady_readDirectory.
  - apply steady_keeps, steady_readFile.
  - apply keeps_writeFile.
  - apply steady_keeps, steady_createDirectory.
  - apply steady_keeps, steady_delete.
  - apply steady_keeps, steady_rename.
  - apply steady_keeps, steady_copy.
  - apply advance_sound.
Qed.

Lemma after_sound (calls : list Call) (w : World) :
  cache_sound w → cache_sound (after calls w).
Proof.
  revert w. induction calls as [|c calls IH]; intros w Hs; simpl; [exact Hs|].
  apply IH, perform_sound, Hs.
Qed.

Lemma fresh_sound (s : State.RuntimeState) (c : Config.Settings) :
  cache_sound (mkWorld s c ∅ ∅ 0 [] [] 0 0).
Proof.
  split; simpl; [constructor|]. intros t Ht. by apply not_elem_of_nil in Ht.
Qed.

(** In a sound cache a path without an entry has no timer pending. *)
Lemma sound_miss_no_timer (key : string) (w : World) :
  cache_sound w → responseCache w !! key = None →
  Forall (fun t => timer_key t ≠ key) (timers w).
Proof.
  intros [_ Hin] Hmiss. apply Forall_forall. intros t Ht Hk.
  destruct (Hin t Ht) as [x Hx]. rewrite Hk, Hmiss in Hx. discriminate.
Qed.

End Soundness.

Section Stat.
Context `{Platform} `{Environment} `{Dependencies}.

(** A live entry is served from the cache and its hit counter goes up by
    one; nothing is requested. *)
Lemma stat_hit (uri : Uri) (w : World) (m : FileStat) :
  Js.truthy (State.serverApiUrl (state w)) = true →
  responseCache w !! cacheKey_of uri = Some m →
  stat uri w
  = (Ok m, with_cache id (<[cacheKey_of uri :=
                              (default 0%N (responseCacheHits w !! cacheKey_of uri) + 1)%N]>) w).
Proof.
  intros Hc Hm. unfold stat. unfold_run Hc. rewrite Hm. unfold_run Hc.
  unfold bind, modify, ret. reflexivity.
Qed.

(** The root is synthesized: no request, no cache entry, no hit counter. *)
Lemma stat_root (uri : Uri) (w : World) :
  Js.truthy (State.serverApiUrl (state w)) = true →
  responseCache w !! cacheKey_of uri = None →
  path uri = "/" →
  stat uri w = (Ok root_stat, w).
Proof.
  intros Hc Hm Hp. unfold stat. unfold_run Hc. rewrite Hm, Hp. reflexivity.
Qed.

(** A miss that succeeds stores its result with a zero counter and sets one
    eviction timer, 10 s after the moment of storing. *)
Lemma stat_miss_stores (uri : Uri) (w w1 : World) (m : FileStat) :
  String.eqb (path uri) "/" = false →
  responseCache w !! cacheKey_of uri = None →
  stat uri w = (Ok m, w1) →
  ∃ w0, w1 = setTimeout_expire (cacheKey_of uri) (Uri_toString uri) cache_lifetime
               (with_cache (<[cacheKey_of uri := m]>) (<[cacheKey_of uri := 0%N]>) w0)
        ∧ state w0 = state w
        ∧ Js.truthy (State.serverApiUrl (state w)) = true
        ∧ (∀ t, t ∈ timers w0 → t ∈ timers w).
Proof.
  intros Hroot Hmiss Hrun. unfold stat in Hrun.
  destruct (Js.truthy (State.serverApiUrl (state w))) eqn:Hc.
  2:{ unfold bind in Hrun. rewrite (ensureConnected_disconnected w Hc) in Hrun.
      discriminate. }
  revert Hrun. unfold_run Hc. rewrite Hmiss, Hroot. unfold_run Hc.
  unfold bind at 1, fetch at 1.
  destruct (network (fetches w)) as [reason latency|r latency]; [discriminate|].
  set (w0 := advance latency (count_fetch (emit (EvFetch _) w))).
  destruct (ok r) eqn:Hok.
  2:{ destruct (forConnection_error_not_ok r Hok) as [e He].
      destruct (forConnection_run ("stat: " +:+ Uri_toString uri) r w0) as (w' & E & _).
      unfold bind. rewrite E, He. discriminate. }
  unfold bind at 1. rewrite (forConnection_ok _ r w0 Hok).
  unfold bind at 1, response_json.
  destruct (body_json r) as [j|]; [|discriminate].
  unfold ret at 1. cbn [negb].
  destruct (data j) as [files|]; [|discriminate].
  destruct (List.find _ files) as [file|]; [|discriminate].
  unfold bind, modify, ret. intros [= <- <-].
  eexists. split; [reflexivity|].
  cbn [state timers emit]. unfold w0. rewrite state_advance, timers_advance.
  cbn [state timers now count_fetch emit].
  repeat split; try reflexivity.
  intros t Ht. apply list_elem_of_In, List.filter_In in Ht as [Ht _].
  by apply list_elem_of_In.
Qed.

(** A [stat] that returns was made on a connected provider. *)
Lemma stat_Ok_connected (uri : Uri) (w w1 : World) (m : FileStat) :
  stat uri w = (Ok m, w1) → Js.truthy (State.serverApiUrl (state w)) = true.
Proof.
  intros Hrun. destruct (Js.truthy (State.serverApiUrl (state w))) eqn:Hc; [reflexivity|].
  unfold stat, bind in Hrun. rewrite (ensureConnected_disconnected w Hc) in Hrun.
  discriminate.
Qed.

(** C5 (amended): in a run whose calls do not overlap (a sound cache, as
    every sequence of completed calls leaves it).  For the root path, while
    no entry is cached for it, [stat] returns the synthesized entry and
    leaves everything as it was: no cache entry, no hit counter.  For a
    path other than the root: when a [stat] has succeeded, as a miss or as
    a hit, a second [stat] of the path that comes before the entry is
    evicted (less than 10 s after a miss; before the pending timer of the
    entry is due after a hit) returns the same metadata, sends no request,
    and takes the hit counter of the path up by exactly one: from [h] to
    [h + 1], where [h] is 0 after a miss. *)
Theorem stat_twice_within_lifetime
    (uri : Uri) (w w1 : World) (m : FileStat) (dt : N) :
  cache_sound w →
  (path uri = "/" →
   responseCache w !! cacheKey_of uri = None →
   Js.truthy (State.serverApiUrl (state w)) = true →
   stat uri w = (Ok root_stat, w))
  ∧ (String.eqb (path uri) "/" = false →
     stat uri w = (Ok m, w1) →
     (responseCache w !! cacheKey_of uri = None ∧ (dt < cache_lifetime)%N)
     ∨ (is_Some (responseCache w !! cacheKey_of uri)
        ∧ Forall (fun t => timer_key t = cacheKey_of uri → (now w + dt < due t)%N)
                 (timers w)) →
     ∃ w2 h,
       stat uri (advance dt w1) = (Ok m, w2)
       ∧ responseCacheHits (advance dt w1) !! cacheKey_of uri = Some h
       ∧ responseCacheHits w2 !! cacheKey_of uri = Some (h + 1)%N
       ∧ (responseCache w !! cacheKey_of uri = None → h = 0%N)
       ∧ (is_Some (responseCache w !! cacheKey_of uri) →
          h = (default 0%N (responseCacheHits w !! cacheKey_of uri) + 1)%N)
       ∧ requests w2 = requests w1
       ∧ fetches w2 = fetches w1).
Proof.
  intros Hsound. split.
  { intros Hroot Hmiss Hc. exact (stat_root uri w Hc Hmiss Hroot). }
  intros Hroot Hrun Hlive.
  pose proof (stat_Ok_connected uri w w1 m Hrun) as Hc.
  assert (Hafter : ∃ h,
             responseCache w1 !! cacheKey_of uri = Some m
             ∧ responseCacheHits w1 !! cacheKey_of uri = Some h
             ∧ state w1 = state w
             ∧ Forall (fun t => timer_key t = cacheKey_of uri → (now w1 + dt < due t)%N)
                      (timers w1)
             ∧ (responseCache w !! cacheKey_of uri = None → h = 0%N)
             ∧ (is_Some (responseCache w !! cacheKey_of uri) →
                h = (default 0%N (responseCacheHits w !! cacheKey_of uri) + 1)%N)).
  { destruct Hlive as [[Hmiss Hdt]|[[c Hhit] Hlive]].
    - pose proof (sound_miss_no_timer (cacheKey_of uri) w Hsound Hmiss) as Hfree.
      destruct (stat_miss_stores uri w w1 m Hroot Hmiss Hrun) as (w0 & -> & Hs & _ & Hsub).
      exists 0%N.
      cbn [responseCache responseCacheHits state timers now
           setTimeout_expire with_clock with_cache].
      rewrite !lookup_insert_eq. repeat split; try reflexivity; try exact Hs.
      + apply Forall_app. split.
        * apply Forall_forall. intros t Ht Hk. exfalso.
          rewrite Forall_forall in Hfree. exact (Hfree t (Hsub t Ht) Hk).
        * constructor; [|constructor]. intros _. cbn [due]. lia.
      + intros [c Hc']. congruence.
    - rewrite (stat_hit uri w c Hc Hhit) in Hrun. injection Hrun as <- <-.
      exists (default 0%N (responseCacheHits w !! cacheKey_of uri) + 1)%N.
      cbn [responseCache responseCacheHits state timers now with_cache].
      rewrite lookup_insert_eq. repeat split; try reflexivity; try assumption.
      intros Hnone. congruence. }
  destruct Hafter as (h & Hm1 & Hh1 & Hs1 & Hlive1 & Hzero & Hnext).
  destruct (advance_lookup (cacheKey_of uri) dt w1 Hlive1) as [Hcache Hhits].
  assert (Hc1 : Js.truthy (State.serverApiUrl (state (advance dt w1))) = true)
    by (rewrite state_advance, Hs1; exact Hc).
  assert (Hm : responseCache (advance dt w1) !! cacheKey_of uri = Some m)
    by (rewrite Hcache; exact Hm1).
  assert (Hh : responseCacheHits (advance dt w1) !! cacheKey_of uri = Some h)
    by (rewrite Hhits; exact Hh1).
  rewrite (stat_hit uri (advance dt w1) m Hc1 Hm).
  eexists. exists h. split; [reflexivity|]. split; [exact Hh|].
  split.
  { cbn [responseCacheHits with_cache]. rewrite Hh, lookup_insert_eq. reflexivity. }
  split; [exact Hzero|]. split; [exact Hnext|].
  split.
  { autorewrite with frame. reflexivity. }
  cbn [fetches with_cache]. apply fetches_advance.
Qed.


End Stat.

Lemma stat_twice_within_lifetime_witness :
  let env := Demo.scripted [Responded (Demo.listing [Demo.file_entry "a.txt"]) 40] [] in
  let w := Demo.world Demo.connected_state in
  let file := Demo.uri_of "/a.txt" in
  let first := @stat Demo.platform env Demo.dependencies file w in
  let second := @stat Demo.platform env Demo.dependencies file (advance 3000 first.2) in
  ∃ w3,
    @stat Demo.platform env Demo.dependencies file (advance 6000 second.2)
    = (Ok (mkFileStat 0 0 None 12 FileType_File), w3)
    ∧ responseCacheHits w3 !! @cacheKey_of Demo.platform file = Some 2%N
    ∧ fetches w3 = 1.
Proof.
  intros env w file first second.
  set (m := mkFileStat 0 0 None 12 FileType_File).
  set (w1 := advance 3000 first.2).
  assert (Hsound : cache_sound w1).
  { apply advance_sound.
    apply (@keeps_stat Demo.platform env Demo.dependencies file w).
    apply fresh_sound. }
  assert (Hrun1 : @stat Demo.platform env Demo.dependencies file w1 = (Ok m, second.2))
    by (vm_compute; reflexivity).
  assert (Hhit : is_Some (responseCache w1 !! @cacheKey_of Demo.platform file))
    by (exists m; vm_compute; reflexivity).
  assert (Hlive : Forall (fun t => timer_key t = @cacheKey_of Demo.platform file →
                                   (now w1 + 6000 < due t)%N) (timers w1))
    by (vm_compute; constructor; [reflexivity|constructor]).
  assert (Hcount : (default 0 (responseCacheHits w1 !! @cacheKey_of Demo.platform file)
                    + 1 + 1)%N = 2%N) by (vm_compute; reflexivity).
  assert (Hf2 : fetches second.2 = 1) by (vm_compute; reflexivity).
  destruct (proj2 (@stat_twice_within_lifetime Demo.platform env Demo.dependencies
                     file w1 second.2 m 6000 Hsound)
              eq_refl Hrun1 (or_intror (conj Hhit Hlive)))
    as (w3 & h & Hrun & _ & Hhits & _ & Hnext & _ & Hf).
  rewrite (Hnext Hhit), Hcount in Hhits.
  exists w3. split; [exact Hrun|]. split; [exact Hhits|]. rewrite Hf. exact Hf2.
Defined.

(** C5, as stated, fails.  For the root path [stat] answers with the
    synthesized entry before any cache is written, so two calls one second
    apart return the same metadata but no hit counter exists for the path,
    before or after the second call.  And for another path, when the first of
    the two calls is itself a hit late in the life of the entry, the entry is
    evicted between the calls: the second call, 200 ms later, lists the
    directory again and leaves the counter at 0. *)
Lemma stat_twice_without_hit_increment :
  let w := Demo.world Demo.connected_state in
  let root := Demo.uri_of "/" in
  let quiet := Demo.scripted [] [] in
  let first := @stat Demo.platform quiet Demo.dependencies root w in
  let second := @stat Demo.platform quiet Demo.dependencies root (advance 1000 first.2) in
  let file := Demo.uri_of "/a.txt" in
  let env := Demo.scripted [Responded (Demo.listing [Demo.file_entry "a.txt"]) 0;
                            Responded (Demo.listing [Demo.file_entry "a.txt"]) 0] [] in
  let stored := @stat Demo.platform env Demo.dependencies file w in
  let early := @stat Demo.platform env Demo.dependencies file (advance 9900 stored.2) in
  let late := @stat Demo.platform env Demo.dependencies file (advance 200 early.2) in
  first.1 = Ok root_stat
  ∧ second.1 = Ok root_stat
  ∧ responseCacheHits first.2 !! @cacheKey_of Demo.platform root = None
  ∧ responseCacheHits second.2 !! @cacheKey_of Demo.platform root = None
  ∧ early.1 = late.1
  ∧ responseCacheHits early.2 !! @cacheKey_of Demo.platform file = Some 1%N
  ∧ responseCacheHits late.2 !! @cacheKey_of Demo.platform file = Some 0%N
  ∧ fetches early.2 = 1 ∧ fetches late.2 = 2.
Proof. vm_compute. repeat split; reflexivity. Qed.

(** C1 on the code: the directory and already-exists checks of [writeFile]
    throw inside the [try] whose [catch] swallows every error.  For a target
    that is a directory, and for an existing file with [overwrite = false],
    the call uploads the content all the same when [create] is true, and
    fails with NotFound when [create] is false. *)
Theorem writeFile_checks_are_swallowed :
  let listed := Responded (Demo.listing [Demo.folder_entry "data"; Demo.file_entry "a.txt"]) 5 in
  let accepted := Responded (Demo.reply 204 "No Content" [] None) 5 in
  let env := Demo.scripted [listed; accepted] [] in
  let w := Demo.world Demo.connected_state in
  let run := fun p create overwrite =>
    @writeFile Demo.platform env Demo.dependencies (Demo.uri_of p) [Byte.x68] create overwrite w in
  (@stat Demo.platform env Demo.dependencies (Demo.uri_of "/data") w).1
  = Ok (mkFileStat 0 0 None 0 FileType_Directory)
  ∧ (run "/data" true true).1 = Ok tt
  ∧ map req_body (requests (run "/data" true true).2) = [NoBody; Raw [Byte.x68]]
  ∧ (run "/data" false true).1 = Throw (FileNotFound "pterodactyl:/data")
  ∧ (run "/a.txt" true false).1 = Ok tt
  ∧ map req_body (requests (run "/a.txt" true false).2) = [NoBody; Raw [Byte.x68]]
  ∧ (run "/a.txt" false false).1 = Throw (FileNotFound "pterodactyl:/a.txt").
Proof. vm_compute. repeat split; reflexivity. Qed.

Lemma readFile_retries_with_backoff_witness :
  let env := Demo.scripted [Rejected "socket hang up" 30; Rejected "socket hang up" 30;
                            Responded (Demo.reply 200 "OK" [Byte.x68; Byte.x69] None) 5] [] in
  let w := Demo.world Demo.connected_state in
  let q := EvFetch (@contents_request Demo.platform Demo.connected_state Demo.no_settings
                      (Demo.uri_of "/notes.txt")) in
  ∃ w' s2 s3,
    @readFile Demo.platform env Demo.dependencies (Demo.uri_of "/notes.txt") w
    = (Ok [Byte.x68; Byte.x69], w')
    ∧ timeline w'
      = [q; EvSleep 200;
         EvFetch (@contents_request Demo.platform s2 Demo.no_settings (Demo.uri_of "/notes.txt"));
         EvSleep 400;
         EvFetch (@contents_request Demo.platform s3 Demo.no_settings (Demo.uri_of "/notes.txt"))].
Proof.
  intros env w q.
  exact (@readFile_retries_with_backoff Demo.platform env Demo.dependencies
           (Demo.uri_of "/notes.txt") w eq_refl).
Defined.


End BridgeFacts.

(** *** The directory reveal engine *)
Module TreeFacts.
Import Vscode Tree.

(** **** The sort *)
Section Sort.
Context {A : Type} (compare : A → A → Z).

Lemma sort_insert_perm (x : A) (l : list A) : sort_insert compare x l ≡ₚ x :: l.
Proof.
  induction l as [|y l IH]; simpl; [reflexivity|].
  destruct (compare x y <=? 0)%Z; [reflexivity|].
  rewrite IH. apply Permutation_swap.
Qed.

Lemma Array_sort_perm (l : list A) : Array_sort compare l ≡ₚ l.
Proof.
  induction l as [|x l IH]; simpl; [reflexivity|].
  unfold Array_sort in *. simpl. rewrite sort_insert_perm, IH. reflexivity.
Qed.

Lemma sort_insert_sorted (x : A) (l : list A) :
  (∀ y, y ∈ l → not_after compare x y ∨ not_after compare y x) →
  (∀ y z, y ∈ l → z ∈ l →
          not_after compare x y → not_after compare y z → not_after compare x z) →
  StronglySorted (not_after compare) l →
  StronglySorted (not_after compare) (sort_insert compare x l).
Proof.
  induction l as [|y l IH]; intros Htot Htrans Hs; simpl.
  - constructor; constructor.
  - apply StronglySorted_inv in Hs as [Hs Hy].
    destruct (Z.leb_spec (compare x y) 0) as [Hle|Hgt].
    + constructor; [constructor; assumption|].
      constructor; [exact Hle|].
      rewrite Forall_forall in Hy |- *. intros z Hz.
      apply (Htrans y z); [left|right; exact Hz|exact Hle|exact (Hy z Hz)].
    + constructor.
      * apply IH; [|  |exact Hs].
        -- intros z Hz. apply Htot. right. exact Hz.
        -- intros z z' Hz Hz'. apply Htrans; right; assumption.
      * rewrite sort_insert_perm. constructor; [|exact Hy].
        destruct (Htot y) as [Hxy|Hyx]; [left|unfold not_after in Hxy; lia|exact Hyx].
Qed.

Lemma Array_sort_sorted (l : list A) :
  (∀ x y, x ∈ l → y ∈ l → not_after compare x y ∨ not_after compare y x) →
  (∀ x y z, x ∈ l → y ∈ l → z ∈ l →
            not_after compare x y → not_after compare y z → not_after compare x z) →
  StronglySorted (not_after compare) (Array_sort compare l).
Proof.
  induction l as [|x l IH]; intros Htot Htrans; [constructor|].
  change (Array_sort compare (x :: l)) with (sort_insert compare x (Array_sort compare l)).
  assert (Hin : ∀ y, y ∈ Array_sort compare l → y ∈ l)
    by (intros y; rewrite Array_sort_perm; auto).
  apply sort_insert_sorted.
  - intros y Hy. apply Htot; [left|right; auto].
  - intros y z Hy Hz. apply Htrans; [left|right; auto|right; auto].
  - apply IH.
    + intros y z Hy Hz. apply Htot; right; assumption.
    + intros y z z' Hy Hz Hz'. apply Htrans; right; assumption.
Qed.

Lemma consistent_on_spec (l : list A) :
  consistent_on compare l = true →
  (∀ x y, x ∈ l → y ∈ l → not_after compare x y ∨ not_after compare y x)
  ∧ (∀ x y z, x ∈ l → y ∈ l → z ∈ l →
       not_after compare x y → not_after compare y z → not_after compare x z).
Proof.
  unfold consistent_on, not_after. rewrite forallb_forall. intros Hall.
  assert (Hxy : ∀ x y, x ∈ l → y ∈ l →
            ((compare x y <=? 0)%Z || (compare y x <=? 0)%Z) = true
            ∧ ∀ z, z ∈ l →
                implb ((compare x y <=? 0)%Z && (compare y z <=? 0)%Z)
                      (compare x z <=? 0)%Z = true).
  { intros x y Hx Hy.
    specialize (Hall x (proj1 (list_elem_of_In _ _) Hx)).
    rewrite forallb_forall in Hall.
    specialize (Hall y (proj1 (list_elem_of_In _ _) Hy)).
    apply andb_true_iff in Hall as [Ht Hz]. split; [exact Ht|].
    intros z Hin. rewrite forallb_forall in Hz.
    exact (Hz z (proj1 (list_elem_of_In _ _) Hin)). }
  split.
  - intros x y Hx Hy. destruct (Hxy x y Hx Hy) as [Ht _].
    apply orb_true_iff in Ht as [Ht|Ht]; apply Z.leb_le in Ht; auto.
  - intros x y z Hx Hy Hz H1 H2. destruct (Hxy x y Hx Hy) as [_ Hi].
    specialize (Hi z Hz).
    rewrite (proj2 (Z.leb_le _ _) H1), (proj2 (Z.leb_le _ _) H2) in Hi. simpl in Hi.
    by apply Z.leb_le.
Qed.

(** In a strongly sorted list every earlier element is related to every
    later one. *)
Lemma StronglySorted_lookup (R : A → A → Prop) (l : list A) (i j : nat) (x y : A) :
  StronglySorted R l → l !! i = Some x → l !! j = Some y → i < j → R x y.
Proof.
  intros Hs. revert i j. induction Hs as [|a l Hs IH Ha]; intros i j Hi Hj Hlt.
  - discriminate.
  - destruct i as [|i], j as [|j]; try lia; simpl in Hi, Hj.
    + injection Hi as <-. rewrite Forall_forall in Ha.
      apply Ha. eapply list_elem_of_lookup_2. exact Hj.
    + apply (IH i j); [assumption..|lia].
Qed.

End Sort.

Section Engine.
Context `{Platform}.

Lemma toTreeItem_label (directoryUri : Uri) (entry : string * Z) :
  label (let '(name, type) := entry in toTreeItem directoryUri name type) = entry.1.
Proof. destruct entry. reflexivity. Qed.

(** [compareItems] is consistent wherever [localeCompare] is consistent on
    the labels. *)
Lemma compareItems_consistent (labels : list string) (l : list PterodactylTreeItem) :
  consistent_on localeCompare labels = true →
  (∀ x, x ∈ l → label x ∈ labels) →
  (∀ x y, x ∈ l → y ∈ l → not_after compareItems x y ∨ not_after compareItems y x)
  ∧ (∀ x y z, x ∈ l → y ∈ l → z ∈ l →
       not_after compareItems x y → not_after compareItems y z →
       not_after compareItems x z).
Proof.
  intros Hcons Hlab.
  destruct (consistent_on_spec localeCompare labels Hcons) as [Htot Htrans].
  unfold not_after, compareItems in *. split.
  - intros x y Hx Hy.
    destruct (isFile x), (isFile y); simpl; try lia; apply Htot; auto.
  - intros x y z Hx Hy Hz.
    destruct (isFile x), (isFile y), (isFile z); simpl; try lia;
      apply Htrans; auto.
Qed.

(** The array that a load stores is a sorted rearrangement of the listing. *)
Lemma sortedTreeItems_sorted (directoryUri : Uri) (items : list (string * Z)) :
  consistent_on localeCompare items.*1 = true →
  StronglySorted (not_after compareItems) (sortedTreeItems directoryUri items).
Proof.
  intros Hcons. unfold sortedTreeItems.
  destruct (compareItems_consistent items.*1
              (map (fun '(name, type) => toTreeItem directoryUri name type) items) Hcons)
    as [Htot Htrans].
  { intros x Hx. apply list_elem_of_In, in_map_iff in Hx as (entry & <- & Hin).
    rewrite toTreeItem_label. apply list_elem_of_fmap. exists entry.
    split; [reflexivity|by apply list_elem_of_In]. }
  apply Array_sort_sorted; assumption.
Qed.

Lemma revealNextItems_allItems (directoryKey : string) (element : option PterodactylTreeItem)
    (p : Provider) :
  allItemsByDirectory (revealNextItems directoryKey element p) = allItemsByDirectory p.
Proof.
  unfold revealNextItems.
  destruct (allItemsByDirectory p !! directoryKey) as [allItems|]; [|reflexivity].
  destruct (visibleItemsByDirectory p !! directoryKey) as [visibleItems|]; [|reflexivity].
  destruct (length allItems <=? length visibleItems); reflexivity.
Qed.

(** When the listing of a load arrives, its sorted items become [allItems]
    of the directory. *)
Lemma settle_stores_sorted (l : Load) (items : list (string * Z)) (p : Provider) :
  allItemsByDirectory (settle l (Bridge.Ok items) p) !! load_key l
  = Some (sortedTreeItems (load_uri l) items).
Proof.
  unfold settle. cbn [allItemsByDirectory]. rewrite revealNextItems_allItems.
  cbn [allItemsByDirectory]. apply lookup_insert_eq.
Qed.

End Engine.
End TreeFacts.

(** *** The order of a directory's entries *)
Module Ordering.
Import Vscode Tree.

Section Claims.
Context `{Platform} `{Environment} `{Bridge.Dependencies}.

(** [readDirectory] returns one entry per entry of the remote listing, in
    the order of the listing. *)
Lemma readDirectory_keeps_listing_order
    (uri : Uri) (w : Bridge.World) (r : Response) (latency : N) (j : Json)
    (files : list PterodactylFileAttributes) :
  Js.truthy (State.serverApiUrl (Bridge.state w)) = true →
  network (Bridge.fetches w) = Responded r latency →
  ok r = true →
  body_json r = Some j →
  data j = Some files →
  (Bridge.readDirectory uri w).1 = Bridge.Ok (map Bridge.entry_of files).
Proof.
  intros Hc Hnet Hok Hj Hd.
  unfold Bridge.readDirectory. BridgeFacts.unfold_run Hc. BridgeFacts.answer_fetch Hnet.
  BridgeFacts.unfold_run Hc.
  unfold Bridge.bind at 1. rewrite (BridgeFacts.forConnection_ok _ r _ Hok).
  unfold Bridge.bind, Bridge.response_json. rewrite Hj. unfold Bridge.ret. rewrite Hd.
  reflexivity.
Qed.

(** C3 (amended): [readDirectory] returns the entries in the order of the
    remote listing; the order of the claim is that of the array which the
    directory load stores after sorting that result.  Wherever [localeCompare]
    is a consistent comparator on the labels, the stored array is a
    rearrangement of the listing in which no directory follows a file and in
    which, among directories and among files, an earlier label is never after
    a later one in the order of [localeCompare]. *)
Theorem loaded_entries_directories_first_then_by_label
    (uri : Uri) (w : Bridge.World) (r : Response) (latency : N) (j : Json)
    (files : list PterodactylFileAttributes) (l : Load) (p : Provider) :
  Js.truthy (State.serverApiUrl (Bridge.state w)) = true →
  network (Bridge.fetches w) = Responded r latency →
  ok r = true →
  body_json r = Some j →
  data j = Some files →
  consistent_on localeCompare (map name files) = true →
  let items := map Bridge.entry_of files in
  let allItems := sortedTreeItems (load_uri l) items in
  (Bridge.readDirectory uri w).1 = Bridge.Ok items
  ∧ allItemsByDirectory (settle l (Bridge.Ok items) p) !! load_key l = Some allItems
  ∧ allItems ≡ₚ map (fun '(name, type) => toTreeItem (load_uri l) name type) items
  ∧ ∀ i k x y, allItems !! i = Some x → allItems !! k = Some y → i < k →
      (isFile x = true → isFile y = true)
      ∧ (isFile x = isFile y → (localeCompare (label x) (label y) ≤ 0)%Z).
Proof.
  intros Hc Hnet Hok Hj Hd Hcons items allItems.
  split; [exact (readDirectory_keeps_listing_order uri w r latency j files Hc Hnet Hok Hj Hd)|].
  split; [apply TreeFacts.settle_stores_sorted|].
  split; [apply TreeFacts.Array_sort_perm|].
  assert (Hlabels : items.*1 = map name files).
  { unfold items. rewrite <- list_fmap_compose. reflexivity. }
  assert (Hs : StronglySorted (not_after compareItems) allItems).
  { apply TreeFacts.sortedTreeItems_sorted. rewrite Hlabels. exact Hcons. }
  intros i k x y Hi Hk Hlt.
  pose proof (TreeFacts.StronglySorted_lookup _ allItems i k x y Hs Hi Hk Hlt) as Hxy.
  unfold not_after, compareItems in Hxy.
  destruct (isFile x), (isFile y); simpl in Hxy; split; intros; try congruence; try lia.
Qed.

End Claims.

Lemma loaded_entries_directories_first_then_by_label_witness :
  let files := [Demo.file_entry "b.txt"; Demo.folder_entry "Zed"; Demo.file_entry "A.md";
                Demo.folder_entry "assets"] in
  let env := Demo.scripted [Responded (Demo.listing files) 5] [] in
  let root := Demo.uri_of "/" in
  let l := mkLoad 0 "pterodactyl:/" root None in
  map label (@sortedTreeItems Demo.platform root (map Bridge.entry_of files))
  = ["assets"; "Zed"; "A.md"; "b.txt"]
  ∧ ∀ i k x y,
      @sortedTreeItems Demo.platform root (map Bridge.entry_of files) !! i = Some x →
      @sortedTreeItems Demo.platform root (map Bridge.entry_of files) !! k = Some y →
      i < k → isFile x = true → isFile y = true.
Proof.
  intros files env root l. split; [reflexivity|].
  intros i k x y Hi Hk Hlt.
  exact (proj1 (proj2 (proj2 (proj2
    (@loaded_entries_directories_first_then_by_label Demo.platform env Demo.dependencies
       root (Demo.world Demo.connected_state) (Demo.listing files) 5
       (mkJson (Some files) None) files l initial
       eq_refl eq_refl eq_refl eq_refl eq_refl eq_refl))) i k x y Hi Hk Hlt)).
Defined.

(** C3, as stated, fails: [readDirectory] does not sort.  For a remote
    listing that names a file before a directory it returns the file first. *)
Lemma readDirectory_returns_file_before_directory :
  let env := Demo.scripted
               [Responded (Demo.listing [Demo.file_entry "b.txt"; Demo.folder_entry "assets"]) 5]
               [] in
  (@Bridge.readDirectory Demo.platform env Demo.dependencies (Demo.uri_of "/")
     (Demo.world Demo.connected_state)).1
  = Bridge.Ok [("b.txt", FileType_File); ("assets", FileType_Directory)].
Proof. vm_compute. reflexivity. Qed.

End Ordering.

(** *** Single-flight loading *)
Module SingleFlight.
Import Vscode Tree.

Lemma filter_nil_of_none {A} (f : A → bool) (l : list A) :
  (∀ x, x ∈ l → f x = false) → List.filter f l = [].
Proof.
  induction l as [|a l IH]; intros Hf; simpl; [reflexivity|].
  rewrite (Hf a) by left. apply IH. intros x Hx. apply Hf. by right.
Qed.

(** Loads with distinct identities that agree on the identity for a key are
    at most one for that key. *)
Lemma at_most_one_for_key (directoryKey : string) (id : nat) (ls : list Load) :
  (∀ l, l ∈ ls → load_key l = directoryKey → load_id l = id) →
  NoDup (load_id <$> ls) →
  length (List.filter (fun l => String.eqb (load_key l) directoryKey) ls) ≤ 1.
Proof.
  induction ls as [|a ls IH]; intros Hid Hnd; simpl; [lia|].
  apply NoDup_cons in Hnd as [Ha Hnd].
  destruct (String.eqb_spec (load_key a) directoryKey) as [Hk|Hk].
  - rewrite filter_nil_of_none; [simpl; lia|].
    intros l Hl. apply String.eqb_neq. intros Hkl. apply Ha.
    rewrite (Hid a) by (auto; left). rewrite <- (Hid l) by (auto; by right).
    apply list_elem_of_fmap. eauto.
  - apply IH; [|exact Hnd]. intros l Hl. apply Hid. by right.
Qed.

Section Engine.
Context `{Platform}.

Lemma tracked_single (directoryKey : string) (p : Provider) :
  tracked p → length (loads_for directoryKey p) ≤ 1.
Proof.
  intros (Hreg & Hnd & _). unfold loads_for.
  destruct (loadInFlightByDirectory p !! directoryKey) as [id|] eqn:Hfl.
  - apply (at_most_one_for_key directoryKey id); [|exact Hnd].
    intros l Hl Hk. specialize (Hreg l Hl). rewrite Hk, Hfl in Hreg. congruence.
  - rewrite filter_nil_of_none; [simpl; lia|].
    intros l Hl. apply String.eqb_neq. intros Hk.
    specialize (Hreg l Hl). rewrite Hk, Hfl in Hreg. discriminate.
Qed.

Lemma revealNextItems_loads (directoryKey : string) (element : option PterodactylTreeItem)
    (p : Provider) :
  let p' := revealNextItems directoryKey element p in
  outstanding p' = outstanding p
  ∧ loadInFlightByDirectory p' = loadInFlightByDirectory p
  ∧ fresh p ≤ fresh p'.
Proof.
  unfold revealNextItems.
  destruct (allItemsByDirectory p !! directoryKey) as [allItems|]; [|auto].
  destruct (visibleItemsByDirectory p !! directoryKey) as [visibleItems|]; [|auto].
  destruct (length allItems <=? length visibleItems); simpl; auto.
Qed.

Lemma settle_loads (l : Load) (r : Bridge.Result (list (string * Z))) (p : Provider) :
  let p' := settle l r p in
  outstanding p' = outstanding p
  ∧ loadInFlightByDirectory p' = base.delete (load_key l) (loadInFlightByDirectory p)
  ∧ fresh p ≤ fresh p'.
Proof.
  unfold settle. destruct r as [items|e]; cbn [outstanding loadInFlightByDirectory fresh].
  - match goal with
    | |- context [revealNextItems ?k ?e ?q] =>
        destruct (revealNextItems_loads k e q) as (Ho & Hf & Hn)
    end.
    rewrite Ho, Hf. cbn [outstanding loadInFlightByDirectory fresh] in *. auto.
  - unfold fire. simpl. auto.
Qed.

Lemma find_load_Some (id : nat) (ls : list Load) (l : Load) :
  List.find (fun l => load_id l =? id) ls = Some l → l ∈ ls ∧ load_id l = id.
Proof.
  intros Hf. apply find_some in Hf as [Hin Hid].
  split; [by apply list_elem_of_In|by apply Nat.eqb_eq].
Qed.

(** One turn of the event loop keeps the loads tracked, unless it is a
    [refresh()] while a load is outstanding. *)
Lemma step_tracked (i : Input) (p : Provider) :
  tracked p →
  (i = Refresh → outstanding p = []) →
  tracked (step i p).
Proof.
  intros (Hreg & Hnd & Hlt) Hidle. destruct i as [element| |id r|timer]; simpl.
  - unfold getChildren. cbn [visibleItemsByDirectory].
    destruct (visibleItemsByDirectory p !! _); [done|].
    unfold startAnimatedLoad. cbn [loadInFlightByDirectory fresh snd].
    destruct (loadInFlightByDirectory p !! Uri_toString (directoryUri_of element)) eqn:Hfl;
      [done|].
    split; [|split]; cbn [outstanding loadInFlightByDirectory fresh].
    + intros l Hl. apply elem_of_app in Hl as [Hl|Hl].
      * rewrite lookup_insert_ne; [auto|]. intros Hk.
        specialize (Hreg l Hl). rewrite <- Hk, Hfl in Hreg. discriminate.
      * apply list_elem_of_singleton in Hl as ->. simpl. apply lookup_insert_eq.
    + rewrite fmap_app. apply NoDup_app. split; [exact Hnd|]. split.
      * intros id Hid Hid'. apply list_elem_of_singleton in Hid'. simpl in Hid'. subst id.
        apply list_elem_of_fmap in Hid as (l & Hl & Hin). specialize (Hlt l Hin). lia.
      * simpl. apply NoDup_singleton.
    + intros l Hl. apply elem_of_app in Hl as [Hl|Hl]; [specialize (Hlt l Hl); lia|].
      apply list_elem_of_singleton in Hl as ->. simpl. lia.
  - unfold refresh, tracked. cbn [outstanding loadInFlightByDirectory fresh].
    rewrite (Hidle eq_refl). split; [|split].
    + intros l Hl. by apply not_elem_of_nil in Hl.
    + constructor.
    + intros l Hl. by apply not_elem_of_nil in Hl.
  - destruct (List.find _ (outstanding p)) as [l|] eqn:Hfind; [|done].
    apply find_load_Some in Hfind as [Hin Hid].
    destruct (settle_loads l r (remove_load id p)) as (Ho & Hf & Hn).
    unfold tracked. rewrite Ho, Hf. cbn [outstanding loadInFlightByDirectory fresh remove_load] in *.
    assert (Hsub : ∀ l', l' ∈ List.filter (fun l => negb (load_id l =? id)) (outstanding p) →
                         l' ∈ outstanding p ∧ load_id l' ≠ id).
    { intros l' Hl'. apply list_elem_of_In, List.filter_In in Hl' as [Hl' Hne].
      split; [by apply list_elem_of_In|].
      apply negb_true_iff, Nat.eqb_neq in Hne. exact Hne. }
    split; [|split].
    + intros l' Hl'. destruct (Hsub l' Hl') as [Hl'in Hne].
      rewrite lookup_delete_ne; [auto|]. intros Hk.
      pose proof (Hreg l Hin) as H1. pose proof (Hreg l' Hl'in) as H2.
      rewrite Hk in H1. congruence.
    + clear -Hnd. induction (outstanding p) as [|a ls IH]; simpl; [constructor|].
      apply NoDup_cons in Hnd as [Ha Hnd].
      destruct (negb (load_id a =? id)); simpl; [|auto].
      apply NoDup_cons. split; [|auto].
      intros Hin. apply Ha. apply list_elem_of_fmap in Hin as (l' & Hl' & Hin).
      apply list_elem_of_fmap. exists l'. split; [exact Hl'|].
      apply list_elem_of_In, List.filter_In in Hin as [Hin _]. by apply list_elem_of_In.
    + intros l' Hl'. destruct (Hsub l' Hl') as [Hl'in _]. specialize (Hlt l' Hl'in). lia.
  - destruct (List.find _ (scheduled p)) as [rv|]; [|done].
    destruct (revealNextItems_loads (reveal_key rv) (reveal_element rv) (remove_timer timer p))
      as (Ho & Hf & Hn).
    unfold tracked. rewrite Ho, Hf. cbn [outstanding loadInFlightByDirectory fresh remove_timer] in *.
    split; [exact Hreg|]. split; [exact Hnd|].
    intros l Hl. specialize (Hlt l Hl). lia.
Qed.

Lemma run_tracked (inputs : list Input) (p : Provider) :
  tracked p → refresh_when_idle inputs p = true → tracked (run inputs p).
Proof.
  revert p. induction inputs as [|i rest IH]; intros p Ht Hidle; simpl; [exact Ht|].
  simpl in Hidle. apply andb_true_iff in Hidle as [Hi Hrest].
  apply IH; [|exact Hrest]. apply step_tracked; [exact Ht|].
  intros ->. by apply bool_decide_eq_true in Hi.
Qed.

Lemma initial_tracked : tracked initial.
Proof.
  split; [|split]; simpl.
  - intros l Hl. by apply not_elem_of_nil in Hl.
  - constructor.
  - intros l Hl. by apply not_elem_of_nil in Hl.
Qed.

Lemma tracked_for_single (directoryKey : string) (p : Provider) :
  tracked_for directoryKey p → length (loads_for directoryKey p) ≤ 1.
Proof.
  intros (Hreg & Hnd & _). unfold loads_for.
  destruct (loadInFlightByDirectory p !! directoryKey) as [id|] eqn:Hfl.
  - apply (at_most_one_for_key directoryKey id); [|exact Hnd].
    intros l Hl Hk. specialize (Hreg l Hl Hk). congruence.
  - rewrite filter_nil_of_none; [simpl; lia|].
    intros l Hl. apply String.eqb_neq. intros Hk.
    specialize (Hreg l Hl Hk). congruence.
Qed.

(** One turn of the event loop keeps the loads of a directory tracked,
    unless it is a [refresh()] while a load of that directory is
    outstanding. *)
Lemma step_tracked_for (directoryKey : string) (i : Input) (p : Provider) :
  tracked_for directoryKey p →
  (i = Refresh → loads_for directoryKey p = []) →
  tracked_for directoryKey (step i p).
Proof.
  intros (Hreg & Hnd & Hlt) Hidle. destruct i as [element| |id r|timer]; simpl.
  - unfold getChildren. cbn [visibleItemsByDirectory].
    destruct (visibleItemsByDirectory p !! _); [done|].
    unfold startAnimatedLoad. cbn [loadInFlightByDirectory fresh snd].
    destruct (loadInFlightByDirectory p !! Uri_toString (directoryUri_of element)) eqn:Hfl;
      [done|].
    split; [|split]; cbn [outstanding loadInFlightByDirectory fresh].
    + intros l Hl Hk. apply elem_of_app in Hl as [Hl|Hl].
      * rewrite lookup_insert_ne; [auto|]. intros Hk'.
        specialize (Hreg l Hl Hk). rewrite <- Hk', Hfl in Hreg. discriminate.
      * apply list_elem_of_singleton in Hl as ->. simpl in Hk. rewrite Hk.
        simpl. apply lookup_insert_eq.
    + rewrite fmap_app. apply NoDup_app. split; [exact Hnd|]. split.
      * intros id Hid Hid'. apply list_elem_of_singleton in Hid'. simpl in Hid'. subst id.
        apply list_elem_of_fmap in Hid as (l & Hl & Hin). specialize (Hlt l Hin). lia.
      * simpl. apply NoDup_singleton.
    + intros l Hl. apply elem_of_app in Hl as [Hl|Hl]; [specialize (Hlt l Hl); lia|].
      apply list_elem_of_singleton in Hl as ->. simpl. lia.
  - unfold refresh, tracked_for. cbn [outstanding loadInFlightByDirectory fresh].
    split; [|split; [exact Hnd|exact Hlt]].
    intros l Hl Hk. exfalso.
    assert (Hin : l ∈ loads_for directoryKey p).
    { unfold loads_for. apply list_elem_of_In, List.filter_In.
      split; [by apply list_elem_of_In|]. by apply String.eqb_eq. }
    rewrite (Hidle eq_refl) in Hin. by apply not_elem_of_nil in Hin.
  - destruct (List.find _ (outstanding p)) as [l|] eqn:Hfind; [|done].
    apply find_load_Some in Hfind as [Hin Hid].
    destruct (settle_loads l r (remove_load id p)) as (Ho & Hf & Hn).
    unfold tracked_for. rewrite Ho, Hf.
    cbn [outstanding loadInFlightByDirectory fresh remove_load] in *.
    assert (Hsub : ∀ l', l' ∈ List.filter (fun l => negb (load_id l =? id)) (outstanding p) →
                         l' ∈ outstanding p ∧ load_id l' ≠ id).
    { intros l' Hl'. apply list_elem_of_In, List.filter_In in Hl' as [Hl' Hne].
      split; [by apply list_elem_of_In|].
      apply negb_true_iff, Nat.eqb_neq in Hne. exact Hne. }
    split; [|split].
    + intros l' Hl' Hk. destruct (Hsub l' Hl') as [Hl'in Hne].
      rewrite lookup_delete_ne; [auto|]. intros Hk'.
      pose proof (Hreg l Hin Hk') as H1. pose proof (Hreg l' Hl'in Hk) as H2.
      congruence.
    + clear -Hnd. induction (outstanding p) as [|a ls IH]; simpl; [constructor|].
      apply NoDup_cons in Hnd as [Ha Hnd].
      destruct (negb (load_id a =? id)); simpl; [|auto].
      apply NoDup_cons. split; [|auto].
      intros Hin. apply Ha. apply list_elem_of_fmap in Hin as (l' & Hl' & Hin).
      apply list_elem_of_fmap. exists l'. split; [exact Hl'|].
      apply list_elem_of_In, List.filter_In in Hin as [Hin _]. by apply list_elem_of_In.
    + intros l' Hl'. destruct (Hsub l' Hl') as [Hl'in _]. specialize (Hlt l' Hl'in). lia.
  - destruct (List.find _ (scheduled p)) as [rv|]; [|done].
    destruct (revealNextItems_loads (reveal_key rv) (reveal_element rv) (remove_timer timer p))
      as (Ho & Hf & Hn).
    unfold tracked_for. rewrite Ho, Hf.
    cbn [outstanding loadInFlightByDirectory fresh remove_timer] in *.
    split; [exact Hreg|]. split; [exact Hnd|].
    intros l Hl. specialize (Hlt l Hl). lia.
Qed.

Lemma run_tracked_for (directoryKey : string) (inputs : list Input) (p : Provider) :
  tracked_for directoryKey p → refresh_spares directoryKey inputs p = true →
  tracked_for directoryKey (run inputs p).
Proof.
  revert p. induction inputs as [|i rest IH]; intros p Ht Hidle; simpl; [exact Ht|].
  simpl in Hidle. apply andb_true_iff in Hidle as [Hi Hrest].
  apply IH; [|exact Hrest]. apply step_tracked_for; [exact Ht|].
  intros ->. by apply bool_decide_eq_true in Hi.
Qed.

Lemma initial_tracked_for (directoryKey : string) : tracked_for directoryKey initial.
Proof.
  split; [|split]; simpl.
  - intros l Hl. by apply not_elem_of_nil in Hl.
  - constructor.
  - intros l Hl. by apply not_elem_of_nil in Hl.
Qed.

(** A refresh that comes while nothing is outstanding spares every
    directory. *)
Lemma refresh_when_idle_spares (directoryKey : string) (inputs : list Input) (p : Provider) :
  refresh_when_idle inputs p = true → refresh_spares directoryKey inputs p = true.
Proof.
  revert p. induction inputs as [|i rest IH]; intros p Hidle; [reflexivity|].
  cbn [refresh_when_idle refresh_spares] in *.
  apply andb_true_iff in Hidle as [Hi Hrest]. apply andb_true_iff. split; [|auto].
  destruct i; try reflexivity.
  apply bool_decide_eq_true in Hi. apply bool_decide_eq_true.
  unfold loads_for. by rewrite Hi.
Qed.

(** C7 (amended): for every directory, as long as [refresh()] is not called
    while a load of that directory is outstanding, at most one load of it
    is outstanding at any time, whatever is delivered for other directories
    and whenever else [refresh()] is called; and in any state, [getChildren]
    for a directory that has a load registered in flight starts no further
    load. *)
Theorem loads_single_flight_between_refreshes (inputs : list Input) (directoryKey : string) :
  refresh_spares directoryKey inputs initial = true →
  length (loads_for directoryKey (run inputs initial)) ≤ 1
  ∧ ∀ element p,
      is_Some (loadInFlightByDirectory p !! Uri_toString (directoryUri_of element)) →
      outstanding (getChildren element p).2 = outstanding p.
Proof.
  intros Hidle. split.
  - apply tracked_for_single, run_tracked_for; [apply initial_tracked_for|exact Hidle].
  - intros element p [id Hfl]. unfold getChildren. cbn [visibleItemsByDirectory].
    destruct (visibleItemsByDirectory p !! _); [reflexivity|].
    unfold startAnimatedLoad. cbn [loadInFlightByDirectory snd]. rewrite Hfl. reflexivity.
Qed.


End Engine.

Lemma loads_single_flight_between_refreshes_witness :
  let assets := mkTreeItem "assets" TreeItemCollapsibleState_Collapsed
                           (Demo.uri_of "/assets") false in
  let inputs := [GetChildren (Some assets); Refresh; GetChildren None; GetChildren None;
                 GetChildren (Some assets)] in
  @refresh_when_idle Demo.platform inputs initial = false
  ∧ @refresh_spares Demo.platform "pterodactyl:/" inputs initial = true
  ∧ length (loads_for "pterodactyl:/assets" (@run Demo.platform inputs initial)) = 2
  ∧ length (loads_for "pterodactyl:/" (@run Demo.platform inputs initial)) ≤ 1.
Proof.
  intros assets inputs. split; [reflexivity|]. split; [reflexivity|].
  split; [reflexivity|].
  exact (proj1 (@loads_single_flight_between_refreshes Demo.platform inputs "pterodactyl:/"
                  eq_refl)).
Defined.

(** C7, as stated, fails across [refresh()]: the refresh clears the registry
    of loads in flight but not the loads, so the next [getChildren] for the
    same directory starts a second load while the first is outstanding. *)
Lemma refresh_then_getChildren_starts_second_load :
  let p := @run Demo.platform [GetChildren None; Refresh; GetChildren None] initial in
  map load_id (loads_for "pterodactyl:/" p) = [0; 1]
  ∧ loadInFlightByDirectory p !! "pterodactyl:/" = Some 1.
Proof. vm_compute. split; reflexivity. Qed.

End SingleFlight.

(** *** The name of the remote duplicate in [copy] *)
Module CopyNaming.
Import Vscode Bridge BridgeFacts.

Section Provider.
Context `{Platform} `{Environment} `{Dependencies}.

(** C10: when the last segment of the source path has no '.', the name that
    [copy] computes for the remote duplicate is " copy." followed by the whole
    segment; and when the copy request is accepted and the destination is in
    another directory, the rename request that follows names the duplicate
    that way. *)
Theorem copy_intermediate_name_of_dotless_segment
    (source destination : Uri) (segment : string) (w : World) (r : Response) (latency : N) :
  Js.pop (Js.split "/" (path source)) = Some segment →
  Js.includes "." segment = false →
  copiedLocation (path source) = " copy." +:+ segment
  ∧ (Js.truthy (State.serverApiUrl (state w)) = true →
     network (fetches w) = Responded r latency →
     ok r = true →
     String.eqb (parent_of (path source)) (parent_of (path destination)) = false →
     ∃ q1 q2,
       requests (copy source destination false w).2 = (requests w ++ [q1; q2])%list
       ∧ req_body q1 = CopyBody (path source)
       ∧ req_method q2 = PUT
       ∧ req_body q2
         = RenameBody "/"
             [(Js.removeStartSlash (parent_of (path source) +:+ "/" +:+ " copy." +:+ segment),
               Js.removeStartSlash
                 (parent_of (path destination) +:+ "/"
                  +:+ Js.interpolate (Js.pop (Js.split "/" (path destination)))))]).
Proof.
  intros Hseg Hdot.
  assert (Hname : copiedLocation (path source) = " copy." +:+ segment).
  { unfold copiedLocation. rewrite Hseg, (JsFacts.split_without _ _ Hdot). reflexivity. }
  split; [exact Hname|].
  intros Hc Hnet Hok Hdirs.
  unfold copy. BridgeFacts.unfold_run Hc. BridgeFacts.answer_fetch Hnet.
  unfold bind at 1. rewrite (BridgeFacts.forConnection_ok _ r _ Hok).
  rewrite Hdirs, Hname. BridgeFacts.unfold_run Hc.
  unfold bind at 1, fetch at 1.
  match goal with
  | |- context [EvFetch ?a] =>
      match goal with
      | |- context [count_fetch (emit (EvFetch ?b) (emit _ (emit _ _)))] =>
          exists a, b
      end
  end.
  split; [|repeat split; reflexivity].
  match goal with
  | |- context [match network ?n with _ => _ end] =>
      destruct (network n) as [reason l2|r2 l2]
  end.
  - cbn [snd]. autorewrite with frame. cbn [app]. rewrite ?app_nil_r, <- ?app_assoc.
    reflexivity.
  - match goal with
    | |- context [forConnection ?op r2 ?w0] =>
        destruct (BridgeFacts.forConnection_run op r2 w0) as (w3 & -> & _ & _ & _ & Hr & _)
    end.
    cbn [snd]. rewrite Hr. autorewrite with frame. cbn [app].
    rewrite ?app_nil_r, <- ?app_assoc. reflexivity.
Qed.

End Provider.

Lemma copy_intermediate_name_of_dotless_segment_witness :
  Js.includes "." "notes" = false
  ∧ copiedLocation "/docs/notes" = " copy.notes".
Proof.
  split; [reflexivity|].
  exact (proj1 (@copy_intermediate_name_of_dotless_segment Demo.platform
                  (Demo.scripted [] []) Demo.dependencies
                  (Demo.uri_of "/docs/notes") (Demo.uri_of "/backup/notes") "notes"
                  (Demo.world Demo.connected_state) (Demo.reply 204 "No Content" [] None) 0
                  eq_refl eq_refl)).
Defined.

(** The same on a run: copying /docs/notes to /backup/notes asks the remote
    to rename "docs/ copy.notes". *)
Example copy_notes_requests :
  let env := Demo.scripted [] [] in
  map req_body
      (requests (@copy Demo.platform env Demo.dependencies (Demo.uri_of "/docs/notes")
                   (Demo.uri_of "/backup/notes") false (Demo.world Demo.connected_state)).2)
  = [CopyBody "/docs/notes"; RenameBody "/" [("docs/ copy.notes", "backup/notes")]].
Proof. vm_compute. reflexivity. Qed.

End CopyNaming.

(** *** Paths: splitting, joining, parent and name *)
Module PathFacts.

(** Joining the segments of a split with the separator gives the string
    back. *)
Lemma join_split (sep : ascii) (s : string) :
  Js.join (String sep "") (Js.split sep s) = s.
Proof.
  induction s as [|c rest IH]; simpl; [reflexivity|].
  destruct (Ascii.eqb_spec c sep) as [->|Hne].
  - destruct (Js.split sep rest) as [|seg segs] eqn:E.
    + exfalso. exact (JsFacts.split_not_nil sep rest E).
    + simpl in *. rewrite IH. reflexivity.
  - destruct (Js.split sep rest) as [|seg segs] eqn:E.
    + exfalso. exact (JsFacts.split_not_nil sep rest E).
    + simpl in *. destruct segs; simpl in *; rewrite <- IH; reflexivity.
Qed.

(** No segment of a split contains the separator. *)
Lemma split_segments_clean (sep : ascii) (s seg : string) :
  seg ∈ Js.split sep s → Js.includes sep seg = false.
Proof.
  revert seg. induction s as [|c rest IH]; simpl; intros seg Hin.
  - apply list_elem_of_singleton in Hin as ->. reflexivity.
  - destruct (Ascii.eqb_spec c sep) as [->|Hne].
    + apply elem_of_cons in Hin as [->|Hin]; [reflexivity|auto].
    + destruct (Js.split sep rest) as [|x xs] eqn:E.
      * exfalso. exact (JsFacts.split_not_nil sep rest E).
      * apply elem_of_cons in Hin as [->|Hin].
        -- unfold Js.includes. simpl.
           assert (Hx : Js.includes sep x = false) by (apply IH; left).
           unfold Js.includes in Hx. rewrite Hx.
           destruct (Ascii.eqb_spec sep c); [congruence|reflexivity].
        -- apply IH. by right.
Qed.

Lemma append_assoc (a b c : string) : (a +:+ b) +:+ c = a +:+ (b +:+ c).
Proof.
  induction a as [|x a IH]; [reflexivity|].
  change (String x ((a +:+ b) +:+ c) = String x (a +:+ (b +:+ c))).
  f_equal. exact IH.
Qed.

Lemma join_snoc (sep : string) (init : list string) (x : string) :
  init ≠ [] → Js.join sep (init ++ [x]) = Js.join sep init +:+ sep +:+ x.
Proof.
  induction init as [|a init IH]; intros Hne; [done|].
  destruct init as [|b init].
  - reflexivity.
  - change (Js.join sep ((a :: b :: init) ++ [x]))
      with (a +:+ sep +:+ Js.join sep ((b :: init) ++ [x])).
    rewrite IH by discriminate. simpl.
    rewrite !append_assoc. reflexivity.
Qed.

Lemma split_head_of_slash (rest : string) :
  ∃ segs, Js.split "/" (String "/" rest) = "" :: segs ∧ segs ≠ [].
Proof.
  simpl. exists (Js.split "/" rest). split; [reflexivity|apply JsFacts.split_not_nil].
Qed.

(** X1: for a path that starts with "/", the directory that [stat] lists
    and the name it looks for in the listing recompose to the path: the
    path is the parent, "/" and the name, where a parent that is the root
    contributes only the "/"; and the name contains no "/". *)
Theorem parent_and_name_recompose (p name : string) :
  String.prefix "/" p = true →
  Js.pop (Js.split "/" p) = Some name →
  Js.includes "/" name = false
  ∧ ((Bridge.parent_of p = "/" ∧ p = "/" +:+ name)
     ∨ p = Bridge.parent_of p +:+ "/" +:+ name).
Proof.
  intros Hp Hname.
  destruct p as [|c rest]; [discriminate|].
  change (String.prefix "/" (String c rest))
    with (if Ascii.ascii_dec "/" c then String.prefix "" rest else false) in Hp.
  destruct (Ascii.ascii_dec "/" c) as [<-|]; [|discriminate].
  pose proof (join_split "/" (String "/" rest)) as Hjoin.
  destruct (split_head_of_slash rest) as (segs & Hsplit & Hne).
  unfold Js.pop in Hname. rewrite Hsplit in Hname, Hjoin.
  split.
  { apply (split_segments_clean "/" (String "/" rest)). rewrite Hsplit.
    apply list_elem_of_lookup. exists (length segs).
    rewrite last_lookup in Hname. simpl in Hname. exact Hname. }
  unfold Bridge.parent_of, Js.slice_0_m1. rewrite Hsplit.
  assert (Hdecomp : "" :: segs = removelast ("" :: segs) ++ [name]).
  { rewrite (app_removelast_last name (l := "" :: segs)) at 1 by discriminate.
    f_equal. f_equal. rewrite last_lookup in Hname.
    clear -Hname. revert Hname. generalize ("" :: segs). intros l.
    induction l as [|a l IH]; simpl; [discriminate|].
    destruct l as [|b l]; simpl in *; [congruence|]. exact IH. }
  destruct (removelast ("" :: segs)) as [|a init] eqn:Hinit.
  { destruct segs; [done|discriminate]. }
  rewrite Hdecomp in Hjoin. rewrite join_snoc in Hjoin by discriminate.
  unfold Js.or_else.
  destruct (Js.truthy (Js.join "/" (a :: init))) eqn:Ht.
  - right. symmetry. exact Hjoin.
  - left. apply negb_false_iff, String.eqb_eq in Ht. rewrite Ht in Hjoin.
    split; [reflexivity|]. symmetry. exact Hjoin.
Qed.

Lemma parent_and_name_recompose_witness :
  Js.includes "/" "c.txt" = false
  ∧ ((Bridge.parent_of "/a/b/c.txt" = "/" ∧ "/a/b/c.txt" = "/" +:+ "c.txt")
     ∨ "/a/b/c.txt" = Bridge.parent_of "/a/b/c.txt" +:+ "/" +:+ "c.txt").
Proof.
  exact (parent_and_name_recompose "/a/b/c.txt" "c.txt" eq_refl eq_refl).
Defined.

End PathFacts.

(** *** The bridge: edge behaviour of the operations *)
Module BridgeExtras.
Import Vscode Bridge Observe BridgeFacts.
Local Open Scope async_scope.

Section Operations.
Context `{Platform} `{Environment} `{Dependencies}.

(** One request followed by the status check: the outcome is that of the
    table, or the rejection of the fetch, and the request is the only one
    sent.  Unless the answer is 401 nothing is asked of the user and the
    runtime state stays as it was. *)
Lemma fetch_check_run (q : Request) (operation : string) (w : World) :
  let o := network (fetches w) in
  ∃ w', bind (fetch q) (fun response => forConnection operation response) w
        = (outcome_of (attempt_error o), w')
        ∧ requests w' = (requests w ++ [q])%list
        ∧ fetches w' = S (fetches w)
        ∧ settings w' = settings w
        ∧ (unauthorized o = false →
           state w' = state w ∧ prompts w' = prompts w ∧ callbacks w' = callbacks w).
Proof.
  intros o. subst o. unfold bind at 1, fetch at 1.
  destruct (network (fetches w)) as [reason latency|r latency];
    cbn [attempt_error unauthorized outcome_of].
  - eexists. split; [reflexivity|].
    autorewrite with frame. cbn [fetches settings state prompts count_fetch emit].
    repeat split; try reflexivity. lia.
  - set (w0 := advance latency (count_fetch (emit (EvFetch q) w))).
    destruct (forConnection_run operation r w0) as (w1 & E & Hf & Hs & _ & Hr & H401).
    exists w1. split; [exact E|].
    rewrite Hr, Hf, Hs. unfold w0. autorewrite with frame.
    cbn [fetches settings state prompts count_fetch emit].
    split; [reflexivity|]. split; [reflexivity|]. split; [reflexivity|].
    intros Hu. rewrite Hu in H401. destruct H401 as (Hp & Hc & Hst).
    rewrite Hp, Hc, Hst. unfold w0. autorewrite with frame.
    cbn [fetches settings state prompts count_fetch emit].
    repeat split; try reflexivity. lia.
Qed.

(** X2: without a server URL in the runtime state every operation of the
    bridge fails with Unavailable "No server API URL set, please init the
    extension first." and leaves everything as it was: no request, no log
    line, no cache access. *)
Theorem disconnected_operations_fail_untouched
    (uri other : Uri) (content : bytes) (create overwrite recursive : bool) (w : World) :
  Js.truthy (State.serverApiUrl (state w)) = false →
  stat uri w = (Throw not_connected, w)
  ∧ readDirectory uri w = (Throw not_connected, w)
  ∧ readFile uri w = (Throw not_connected, w)
  ∧ writeFile uri content create overwrite w = (Throw not_connected, w)
  ∧ createDirectory uri w = (Throw not_connected, w)
  ∧ delete uri recursive w = (Throw not_connected, w)
  ∧ rename uri other overwrite w = (Throw not_connected, w)
  ∧ copy uri other overwrite w = (Throw not_connected, w).
Proof.
  intros Hc.
  unfold stat, readDirectory, readFile, writeFile, createDirectory, delete, rename, copy.
  repeat split; unfold bind at 1; rewrite (ensureConnected_disconnected w Hc); reflexivity.
Qed.

(** X3: [forConnection] lets a response pass exactly when its status is in
    200..299; and unless the status is 401 it shows no warning, does not call
    the authentication callback, leaves the runtime state alone and sends
    nothing. *)
Theorem forConnection_passes_exactly_2xx (operation : string) (r : Response) (w : World) :
  ((∃ w', forConnection operation r w = (Ok tt, w')) ↔ (200 ≤ status r ≤ 299)%N)
  ∧ (status r ≠ 401%N →
     let w' := (forConnection operation r w).2 in
     prompts w' = prompts w ∧ callbacks w' = callbacks w
     ∧ state w' = state w ∧ requests w' = requests w).
Proof.
  destruct (forConnection_run operation r w) as (w1 & E & _ & _ & _ & Hr & H401).
  split.
  - rewrite <- ok_range. split.
    + intros (w' & Hrun). rewrite E in Hrun.
      destruct (ok r) eqn:Hok; [reflexivity|].
      destruct (forConnection_error_not_ok r Hok) as [e He]. rewrite He in Hrun.
      discriminate.
    + intros Hok. exists w1. rewrite E, (forConnection_error_ok r Hok). reflexivity.
  - intros Hne w'. subst w'. rewrite E. cbn [snd].
    destruct (N.eqb_spec (status r) 401) as [Heq|_]; [contradiction|].
    destruct H401 as (Hp & Hc & Hs). auto.
Qed.

(** [delete] with [recursive = true]: one delete call, whatever follows. *)
Lemma delete_recursive_run (uri : Uri) (w : World) :
  Js.truthy (State.serverApiUrl (state w)) = true →
  ∃ w', delete uri true w = (outcome_of (attempt_error (network (fetches w))), w')
        ∧ requests w' = (requests w ++ [delete_request w uri])%list
        ∧ fetches w' = S (fetches w)
        ∧ settings w' = settings w.
Proof.
  intros Hc. unfold delete. unfold_run Hc. cbn [negb].
  unfold_run Hc.
  destruct (fetch_check_run (delete_request w uri) ("delete: " +:+ Uri_toString uri) w)
    as (w' & E & Hr & Hf & Hs & _).
  exists w'. split; [exact E|]. auto.
Qed.

(** X4: [delete] with [recursive = false] goes on to the delete call when
    the listing of the target fails, for whatever reason, or is empty: the
    call is then made from the state the listing left, and its answer alone
    decides the result. *)
Theorem delete_nonrecursive_proceeds_without_listing (uri : Uri) (w w1 : World) :
  Js.truthy (State.serverApiUrl (state w)) = true →
  (∃ e, readDirectory uri w = (Throw e, w1)) ∨ readDirectory uri w = (Ok [], w1) →
  ∃ w', delete uri false w = (outcome_of (attempt_error (network (fetches w1))), w')
        ∧ requests w' = (requests w1 ++ [delete_request w1 uri])%list.
Proof.
  intros Hc Hlist. unfold delete. unfold_run Hc. cbn [negb].
  assert (Hitems : try_catch (readDirectory uri) (fun _ => ret []) w = (Ok [], w1)).
  { unfold try_catch. destruct Hlist as [[e ->]| ->]; reflexivity. }
  unfold bind at 1. unfold bind at 1. rewrite Hitems. cbn [length Nat.ltb Nat.leb].
  unfold_run Hc.
  destruct (fetch_check_run (delete_request w1 uri) ("delete: " +:+ Uri_toString uri) w1)
    as (w' & E & Hr & _).
  exists w'. split; [exact E|exact Hr].
Qed.

(** X5: [rename] with [overwrite = true] first sends a delete call for the
    destination; whatever becomes of it, the rename request follows, built
    from the state the delete call left, and its answer alone decides the
    result. *)
Theorem rename_overwrite_deletes_destination_first (oldUri newUri : Uri) (w : World) :
  Js.truthy (State.serverApiUrl (state w)) = true →
  let w1 := (delete newUri true w).2 in
  ∃ w', rename oldUri newUri true w
        = (outcome_of (attempt_error (network (S (fetches w)))), w')
        ∧ requests w'
          = (requests w ++ [delete_request w newUri;
                            rename_request w1 (path oldUri) (path newUri)])%list.
Proof.
  intros Hc w1. unfold rename. unfold_run Hc.
  destruct (delete_recursive_run newUri w Hc) as (w1' & E1 & Hr1 & Hf1 & _).
  assert (Hw1 : w1 = w1') by (unfold w1; rewrite E1; reflexivity).
  assert (Hpre : try_catch (delete newUri true) (fun _ => ret tt) w = (Ok tt, w1)).
  { unfold try_catch. rewrite E1, Hw1.
    destruct (attempt_error (network (fetches w))); reflexivity. }
  unfold bind at 1. rewrite Hpre. unfold_run Hc.
  destruct (fetch_check_run (rename_request w1 (path oldUri) (path newUri))
              ("rename: " +:+ Uri_toString oldUri +:+ " -> " +:+ Uri_toString newUri) w1)
    as (w' & E & Hr & _).
  exists w'. rewrite Hw1 in *. rewrite Hf1 in E. split; [exact E|].
  rewrite Hr, Hr1, <- app_assoc. reflexivity.
Qed.

(** X6: when source and destination of [copy] lie in the same directory and
    the copy request is accepted, [copy] sends that one request and no
    rename: the name asked for the destination is not used. *)
Theorem copy_within_directory_sends_no_rename
    (source destination : Uri) (w : World) (r : Response) (latency : N) :
  Js.truthy (State.serverApiUrl (state w)) = true →
  network (fetches w) = Responded r latency →
  ok r = true →
  parent_of (path source) = parent_of (path destination) →
  ∃ w', copy source destination false w = (Ok tt, w')
        ∧ requests w' = (requests w ++ [copy_request w source])%list.
Proof.
  intros Hc Hnet Hok Hdir. unfold copy. unfold_run Hc.
  answer_fetch Hnet.
  unfold bind at 1. rewrite (forConnection_ok _ r _ Hok).
  rewrite Hdir, String.eqb_refl. unfold log, modify.
  eexists. split; [reflexivity|].
  autorewrite with frame. rewrite !app_nil_r. reflexivity.
Qed.

(** The pre-create step of [writeFile]: one upload of an empty body, whose
    outcome is only logged. *)
Lemma precreate_run (uri : Uri) (w : World) :
  ∃ w',
    try_catch
      (s <- gets state ;;
       target <- proxyUrl (State.serverApiUrl s +:+ "/write?file=" +:+ path uri) ;;
       createResponse <- fetch (write_request s target []) ;;
       log ("createFile attempt: " +:+ pretty (status createResponse) +:+ " "
            +:+ statusText createResponse))
      (fun error => log ("Failed to create file first: " +:+ String_of_error error)) w
    = (Ok tt, w')
    ∧ state w' = state w ∧ settings w' = settings w
    ∧ fetches w' = S (fetches w)
    ∧ requests w' = (requests w ++ [upload_request w uri []])%list.
Proof.
  unfold try_catch. rewrite bind_gets, bind_proxyUrl. cbv beta.
  unfold bind, fetch, log, modify.
  destruct (network (fetches w)) as [reason latency|r latency];
    (eexists; split; [reflexivity|]);
    autorewrite with frame; cbn [state settings fetches count_fetch emit];
    autorewrite with frame; cbn [state settings fetches count_fetch emit];
    rewrite ?app_nil_r; repeat split; reflexivity.
Qed.

(** X7: when the existence probe of [writeFile] fails (the path is missing,
    or [stat] failed for any other reason) and [create] is set, [writeFile]
    uploads an empty body to the path and then the content, in that order;
    the answer to the first upload is ignored, that to the second decides
    the result. *)
Theorem writeFile_missing_creates_then_uploads
    (uri : Uri) (content : bytes) (overwrite : bool) (w w1 : World) (e : Error) :
  Js.truthy (State.serverApiUrl (state w)) = true →
  stat uri w = (Throw e, w1) →
  ∃ w', writeFile uri content true overwrite w
        = (outcome_of (attempt_error (network (S (fetches w1)))), w')
        ∧ requests w'
          = (requests w1 ++ [upload_request w1 uri []; upload_request w1 uri content])%list.
Proof.
  intros Hc Hs. unfold writeFile. unfold_run Hc.
  unfold bind at 1. unfold writeFile_probe at 1, writeFile_try. rewrite Hs.
  cbn [negb andb].
  destruct (precreate_run uri w1) as (w2 & E2 & Hs2 & Hc2 & Hf2 & Hr2).
  unfold bind at 1. rewrite E2. unfold_run Hc.
  match goal with
  | |- context [fetch ?q] =>
      destruct (fetch_check_run q ("writeFile: " +:+ Uri_toString uri) w2)
        as (w' & E & Hr & _)
  end.
  exists w'. rewrite Hf2 in E. split; [exact E|].
  rewrite Hr, Hr2, <- app_assoc. unfold upload_request. rewrite Hs2, Hc2. reflexivity.
Qed.

(** X8: when [stat] finds the path, [writeFile] with [create] set, or onto
    something that is not a directory with [overwrite] set, sends the
    content in one upload, with no empty upload before it. *)
Theorem writeFile_existing_uploads_once
    (uri : Uri) (content : bytes) (create overwrite : bool) (w w1 : World) (m : FileStat) :
  Js.truthy (State.serverApiUrl (state w)) = true →
  stat uri w = (Ok m, w1) →
  create = true ∨ ((type m =? FileType_Directory)%Z = false ∧ overwrite = true) →
  ∃ w', writeFile uri content create overwrite w
        = (outcome_of (attempt_error (network (fetches w1))), w')
        ∧ requests w' = (requests w1 ++ [upload_request w1 uri content])%list.
Proof.
  intros Hc Hs Hcase. unfold writeFile. unfold_run Hc.
  assert (Hprobe : writeFile_probe uri create overwrite w = (Ok true, w1)).
  { unfold writeFile_probe, writeFile_try. rewrite Hs.
    destruct Hcase as [->|[-> ->]]; [|reflexivity].
    destruct (type m =? FileType_Directory)%Z; [reflexivity|].
    destruct (negb overwrite); reflexivity. }
  unfold bind at 1. rewrite Hprobe. cbn [negb andb]. unfold_run Hc.
  match goal with
  | |- context [fetch ?q] =>
      destruct (fetch_check_run q ("writeFile: " +:+ Uri_toString uri) w1)
        as (w' & E & Hr & _)
  end.
  exists w'. split; [exact E|exact Hr].
Qed.

(** X9: on a miss for a path other than the root, [stat] lists the parent
    directory; when the listing is accepted and holds no entry with the
    last segment of the path as its name, [stat] fails with FileNotFound for
    the uri, stores nothing under the path and sets no timer. *)
Theorem stat_unlisted_name_not_found
    (uri : Uri) (w : World) (r : Response) (latency : N) (j : Json)
    (files : list PterodactylFileAttributes) :
  Js.truthy (State.serverApiUrl (state w)) = true →
  responseCache w !! cacheKey_of uri = None →
  String.eqb (path uri) "/" = false →
  network (fetches w) = Responded r latency →
  ok r = true →
  body_json r = Some j →
  data j = Some files →
  Forall (fun entry => Some (name entry) ≠ Js.pop (Js.split "/" (path uri))) files →
  ∃ w', stat uri w = (Throw (FileNotFound (Uri_toString uri)), w')
        ∧ requests w' = (requests w ++ [list_request w (parent_of (path uri))])%list
        ∧ responseCache w' !! cacheKey_of uri = None
        ∧ (∀ t, t ∈ timers w' → t ∈ timers w).
Proof.
  intros Hc Hmiss Hroot Hnet Hok Hj Hd Hnone.
  unfold stat. unfold_run Hc. rewrite Hmiss, Hroot. unfold_run Hc.
  answer_fetch Hnet.
  unfold bind at 1. rewrite (forConnection_ok _ r _ Hok).
  unfold bind at 1, response_json. rewrite Hj. unfold ret at 1. rewrite Hok. cbn [negb].
  rewrite Hd.
  assert (Hfind : List.find (fun entry => bool_decide (Some (name entry)
                                = Js.pop (Js.split "/" (path uri)))) files = None).
  { clear -Hnone. induction Hnone as [|x l Hx _ IH]; [reflexivity|].
    simpl. rewrite (bool_decide_eq_false_2 _ Hx). exact IH. }
  rewrite Hfind. unfold throw.
  eexists. split; [reflexivity|].
  autorewrite with frame. rewrite !app_nil_r.
  split; [reflexivity|]. split.
  - cbn [responseCache emit]. apply advance_absent. exact Hmiss.
  - intros t. cbn [timers emit]. rewrite timers_advance. cbn [timers count_fetch emit].
    intros Ht. apply list_elem_of_In, List.filter_In in Ht as [Ht _].
    by apply list_elem_of_In.
Qed.

(** X10: a response outside 200..299 to the listing of [stat] is turned into
    an error by the status table of [forConnection] before [stat] reads the
    body: the branch of [stat] for such responses (FileNotFound on the code
    DaemonConnectionException, Unavailable with the detail or "Stat request
    failed") is never taken. *)
Theorem stat_refusal_comes_from_status_table
    (uri : Uri) (w : World) (r : Response) (latency : N) :
  Js.truthy (State.serverApiUrl (state w)) = true →
  responseCache w !! cacheKey_of uri = None →
  String.eqb (path uri) "/" = false →
  network (fetches w) = Responded r latency →
  ok r = false →
  ∃ e w', forConnection_error r = Some e
          ∧ stat uri w = (Throw e, w')
          ∧ requests w' = (requests w ++ [list_request w (parent_of (path uri))])%list.
Proof.
  intros Hc Hmiss Hroot Hnet Hok.
  destruct (forConnection_error_not_ok r Hok) as [e He].
  unfold stat. unfold_run Hc. rewrite Hmiss, Hroot. unfold_run Hc.
  answer_fetch Hnet. unfold bind at 1.
  match goal with
  | |- context [forConnection ?op r ?w0] =>
      destruct (forConnection_run op r w0) as (w1 & E & _ & _ & _ & Hr & _)
  end.
  rewrite E, He. cbn [outcome_of].
  exists e, w1. split; [reflexivity|]. split; [reflexivity|].
  rewrite Hr. autorewrite with frame. reflexivity.
Qed.

End Operations.

(** Expiring keeps absent what is absent, entry and counter alike. *)
Lemma expire_all_gone (k : string) (ready : list Timer) (w : World) :
  responseCache w !! k = None → responseCacheHits w !! k = None →
  let w' := foldl (fun w t => expire t w) w ready in
  responseCache w' !! k = None ∧ responseCacheHits w' !! k = None.
Proof.
  revert w. induction ready as [|t ready IH]; intros w Hc Hh; simpl; [auto|].
  apply IH; unfold expire; simpl;
    (destruct (decide (timer_key t = k)) as [->|Hne];
       [apply lookup_delete_eq|by rewrite lookup_delete_ne]).
Qed.

(** A timer that runs removes the entry and the counter of its key. *)
Lemma expire_all_evicts (k : string) (ready : list Timer) (w : World) :
  (∃ t, t ∈ ready ∧ timer_key t = k) →
  let w' := foldl (fun w t => expire t w) w ready in
  responseCache w' !! k = None ∧ responseCacheHits w' !! k = None.
Proof.
  revert w. induction ready as [|t ready IH]; intros w (t0 & Hin & Hk); simpl.
  { by apply not_elem_of_nil in Hin. }
  destruct (decide (timer_key t = k)) as [Heq|Hne].
  - apply expire_all_gone; unfold expire; simpl; rewrite Heq; apply lookup_delete_eq.
  - apply IH. exists t0. split; [|exact Hk].
    apply elem_of_cons in Hin as [->|Hin]; [contradiction|exact Hin].
Qed.

Section Eviction.
Context `{Platform} `{Environment} `{Dependencies}.

(** X11: in a run whose calls do not overlap (a sound cache, as every
    sequence of completed calls leaves it; two misses of one path that
    overlap each set a timer), the entry that a successful miss of [stat]
    stores is gone, with its hit counter, once 10 s have passed since it was
    stored, and no timer for the path is left: the next [stat] of the path
    is a miss again. *)
Theorem stat_entry_evicted_after_lifetime
    (uri : Uri) (w w1 : World) (m : FileStat) (dt : N) :
  cache_sound w →
  String.eqb (path uri) "/" = false →
  responseCache w !! cacheKey_of uri = None →
  stat uri w = (Ok m, w1) →
  (cache_lifetime ≤ dt)%N →
  responseCache w1 !! cacheKey_of uri = Some m
  ∧ responseCache (advance dt w1) !! cacheKey_of uri = None
  ∧ responseCacheHits (advance dt w1) !! cacheKey_of uri = None
  ∧ Forall (fun t => timer_key t ≠ cacheKey_of uri) (timers (advance dt w1)).
Proof.
  intros Hsound Hroot Hmiss Hrun Hdt.
  pose proof (sound_miss_no_timer (cacheKey_of uri) w Hsound Hmiss) as Hfree.
  destruct (stat_miss_stores uri w w1 m Hroot Hmiss Hrun) as (w0 & -> & Hs & Hc & Hsub).
  set (w1 := setTimeout_expire _ _ _ _).
  split.
  { unfold w1. cbn [responseCache setTimeout_expire with_clock with_cache].
    apply lookup_insert_eq. }
  assert (Hdue : ∃ t, t ∈ List.filter (is_due (now w1 + dt)) (timers w1)
                      ∧ timer_key t = cacheKey_of uri).
  { exists (mkTimer (now w0 + cache_lifetime) (cacheKey_of uri) (Uri_toString uri)).
    split; [|reflexivity].
    apply list_elem_of_In, List.filter_In. split.
    - unfold w1. cbn [timers setTimeout_expire with_clock with_cache].
      apply in_or_app. right. left. reflexivity.
    - unfold is_due, w1. cbn [due now setTimeout_expire with_clock with_cache].
      apply N.leb_le. lia. }
  destruct (expire_all_evicts (cacheKey_of uri) _
              (with_clock (now w1 + dt)
                 (List.filter (fun t => negb (is_due (now w1 + dt) t)) (timers w1)) w1) Hdue)
    as [Hcache Hhits].
  split; [exact Hcache|]. split; [exact Hhits|].
  rewrite timers_advance. apply Forall_forall. intros t Ht Hk.
  apply list_elem_of_In, List.filter_In in Ht as [Ht Hlate].
  unfold w1 in Ht. cbn [timers setTimeout_expire with_clock with_cache] in Ht.
  apply in_app_or in Ht as [Ht|[<-|[]]].
  - rewrite Forall_forall in Hfree.
    exact (Hfree t (Hsub t (proj2 (list_elem_of_In _ _) Ht)) Hk).
  - unfold is_due, w1 in Hlate.
    cbn [due now setTimeout_expire with_clock with_cache] in Hlate.
    apply negb_true_iff, N.leb_gt in Hlate. lia.
Qed.

(** X12: the cache of [stat] is keyed by the uri alone.  In a run whose
    calls do not overlap (a sound cache, as every sequence of completed
    calls leaves it; the timer of an overlapping miss of the path would
    evict the entry early), an entry stored by a miss while connected to
    one server is served, less than 10 s later, whatever server the runtime
    state names by then: after the state has been pointed at another
    server, [stat] of the path still returns the stored metadata and asks
    nothing of the new server. *)
Theorem stat_cache_outlives_connection
    (uri : Uri) (w w1 : World) (m : FileStat) (dt : N) (other : State.RuntimeState) :
  cache_sound w →
  String.eqb (path uri) "/" = false →
  responseCache w !! cacheKey_of uri = None →
  stat uri w = (Ok m, w1) →
  (dt < cache_lifetime)%N →
  Js.truthy (State.serverApiUrl other) = true →
  ∃ w2, stat uri (with_state (fun _ => other) (advance dt w1)) = (Ok m, w2)
        ∧ state w2 = other
        ∧ requests w2 = requests w1.
Proof.
  intros Hsound Hroot Hmiss Hrun Hdt Hother.
  pose proof (sound_miss_no_timer (cacheKey_of uri) w Hsound Hmiss) as Hfree.
  destruct (stat_miss_stores uri w w1 m Hroot Hmiss Hrun) as (w0 & -> & Hs & Hc & Hsub).
  set (w1 := setTimeout_expire _ _ _ _).
  assert (Hlive : Forall (fun t => timer_key t = cacheKey_of uri → (now w1 + dt < due t)%N)
                         (timers w1)).
  { unfold w1. cbn [timers now setTimeout_expire with_clock with_cache].
    apply Forall_app. split.
    - apply Forall_forall. intros t Ht Hk. exfalso.
      rewrite Forall_forall in Hfree. exact (Hfree t (Hsub t Ht) Hk).
    - constructor; [|constructor]. intros _. cbn [due]. lia. }
  destruct (advance_lookup (cacheKey_of uri) dt w1 Hlive) as [Hcache _].
  assert (Hm : responseCache (with_state (fun _ => other) (advance dt w1)) !! cacheKey_of uri
               = Some m).
  { cbn [responseCache with_state]. rewrite Hcache. unfold w1.
    cbn [responseCache setTimeout_expire with_clock with_cache]. apply lookup_insert_eq. }
  rewrite (stat_hit uri (with_state (fun _ => other) (advance dt w1)) m Hother Hm).
  eexists. split; [reflexivity|]. split; [reflexivity|].
  autorewrite with frame. reflexivity.
Qed.

End Eviction.

Section Kinds.
Context `{Platform}.

(** X13: the kind that [readDirectory] reports for a listing entry is the
    one [stat] reports for it, and the tree shows the entry under its name
    as a file exactly when the panel says it is one, symbolic link or not;
    what is not a file is shown collapsed, as a folder. *)
Theorem listed_kind_agrees_with_stat_and_tree
    (directoryUri : Uri) (attributes : PterodactylFileAttributes) :
  let '(entry_name, entry_type) := entry_of attributes in
  let item := Tree.toTreeItem directoryUri entry_name entry_type in
  entry_type = type (stat_of attributes)
  ∧ Tree.label item = name attributes
  ∧ Tree.isFile item = is_file attributes
  ∧ Tree.contextValue item = (if is_file attributes then "file" else "folder")
  ∧ Tree.collapsibleState item
    = (if is_file attributes then Tree.TreeItemCollapsibleState_None
       else Tree.TreeItemCollapsibleState_Collapsed).
Proof.
  unfold entry_of, stat_of, getFileType, Tree.toTreeItem, Tree.contextValue.
  cbn [type Tree.label Tree.isFile Tree.collapsibleState].
  destruct (is_file attributes), (is_symlink attributes); cbn [andb];
    repeat split; reflexivity.
Qed.

End Kinds.

Lemma disconnected_operations_fail_untouched_witness :
  let env := Demo.scripted [] [] in
  let w := Demo.world State.createRuntimeState in
  @readFile Demo.platform env Demo.dependencies (Demo.uri_of "/a.txt") w
  = (Throw not_connected, w).
Proof.
  intros env w.
  exact (proj1 (proj2 (proj2
           (@disconnected_operations_fail_untouched Demo.platform env Demo.dependencies
              (Demo.uri_of "/a.txt") (Demo.uri_of "/b.txt") [] true true true w eq_refl)))).
Defined.

Lemma delete_nonrecursive_proceeds_without_listing_witness :
  let env := Demo.scripted [Rejected "network down" 5] [] in
  let w := Demo.world Demo.connected_state in
  ∃ w', @delete Demo.platform env Demo.dependencies (Demo.uri_of "/data") false w
        = (Ok tt, w')
        ∧ map req_method (requests w') = [GET; POST].
Proof.
  intros env w.
  destruct (@delete_nonrecursive_proceeds_without_listing
              Demo.platform env Demo.dependencies (Demo.uri_of "/data") w
              (@readDirectory Demo.platform env Demo.dependencies (Demo.uri_of "/data") w).2
              eq_refl
              (or_introl (ex_intro _ (FetchFailed "network down") eq_refl)))
    as (w' & Hrun & Hr).
  exists w'. split; [exact Hrun|]. rewrite Hr. reflexivity.
Defined.

Lemma rename_overwrite_deletes_destination_first_witness :
  let env := Demo.scripted [Responded (Demo.reply 500 "Server Error" [] None) 5] [] in
  let w := Demo.world Demo.connected_state in
  ∃ w', @rename Demo.platform env Demo.dependencies
          (Demo.uri_of "/a.txt") (Demo.uri_of "/b.txt") true w
        = (Ok tt, w')
        ∧ map req_body (requests w')
          = [DeleteBody "/" ["b.txt"]; RenameBody "/" [("a.txt", "b.txt")]].
Proof.
  intros env w.
  destruct (@rename_overwrite_deletes_destination_first
              Demo.platform env Demo.dependencies
              (Demo.uri_of "/a.txt") (Demo.uri_of "/b.txt") w eq_refl)
    as (w' & Hrun & Hr).
  exists w'. split; [exact Hrun|]. rewrite Hr. reflexivity.
Defined.

Lemma copy_within_directory_sends_no_rename_witness :
  let env := Demo.scripted [] [] in
  let w := Demo.world Demo.connected_state in
  ∃ w', @copy Demo.platform env Demo.dependencies
          (Demo.uri_of "/a/x.txt") (Demo.uri_of "/a/y.txt") false w
        = (Ok tt, w')
        ∧ map req_body (requests w') = [CopyBody "/a/x.txt"].
Proof.
  intros env w.
  destruct (@copy_within_directory_sends_no_rename
              Demo.platform env Demo.dependencies
              (Demo.uri_of "/a/x.txt") (Demo.uri_of "/a/y.txt") w
              (Demo.reply 204 "No Content" [] None) 0
              eq_refl eq_refl eq_refl eq_refl)
    as (w' & Hrun & Hr).
  exists w'. split; [exact Hrun|]. rewrite Hr. reflexivity.
Defined.

Lemma writeFile_missing_creates_then_uploads_witness :
  let env := Demo.scripted [Responded (Demo.listing []) 5;
                            Responded (Demo.reply 500 "Server Error" [] None) 5] [] in
  let w := Demo.world Demo.connected_state in
  ∃ w', @writeFile Demo.platform env Demo.dependencies
          (Demo.uri_of "/a.txt") [Byte.x68] true false w
        = (Ok tt, w')
        ∧ map req_body (requests w') = [NoBody; Raw []; Raw [Byte.x68]].
Proof.
  intros env w.
  destruct (@writeFile_missing_creates_then_uploads
              Demo.platform env Demo.dependencies
              (Demo.uri_of "/a.txt") [Byte.x68] false w
              (@stat Demo.platform env Demo.dependencies (Demo.uri_of "/a.txt") w).2
              (FileNotFound "pterodactyl:/a.txt") eq_refl eq_refl)
    as (w' & Hrun & Hr).
  exists w'. split; [exact Hrun|]. rewrite Hr. reflexivity.
Defined.

Lemma writeFile_existing_uploads_once_witness :
  let env := Demo.scripted [Responded (Demo.listing [Demo.file_entry "a.txt"]) 5] [] in
  let w := Demo.world Demo.connected_state in
  ∃ w', @writeFile Demo.platform env Demo.dependencies
          (Demo.uri_of "/a.txt") [Byte.x68] false true w
        = (Ok tt, w')
        ∧ map req_body (requests w') = [NoBody; Raw [Byte.x68]].
Proof.
  intros env w.
  destruct (@writeFile_existing_uploads_once
              Demo.platform env Demo.dependencies
              (Demo.uri_of "/a.txt") [Byte.x68] false true w
              (@stat Demo.platform env Demo.dependencies (Demo.uri_of "/a.txt") w).2
              (mkFileStat 0 0 None 12 FileType_File) eq_refl eq_refl
              (or_intror (conj eq_refl eq_refl)))
    as (w' & Hrun & Hr).
  exists w'. split; [exact Hrun|]. rewrite Hr. reflexivity.
Defined.

Lemma stat_unlisted_name_not_found_witness :
  let env := Demo.scripted [Responded (Demo.listing [Demo.file_entry "b.txt"]) 5] [] in
  let w := Demo.world Demo.connected_state in
  ∃ w', @stat Demo.platform env Demo.dependencies (Demo.uri_of "/dir/a.txt") w
        = (Throw (FileNotFound "pterodactyl:/dir/a.txt"), w')
        ∧ map req_url (requests w')
          = ["https://voidium.uk/api/client/servers/a1b2c3/files/list?directory=/dir"].
Proof.
  intros env w.
  assert (Hnone : Forall (fun entry => Some (name entry)
                            ≠ Js.pop (Js.split "/" (path (Demo.uri_of "/dir/a.txt"))))
                         [Demo.file_entry "b.txt"]).
  { constructor; [discriminate|constructor]. }
  destruct (@stat_unlisted_name_not_found
              Demo.platform env Demo.dependencies (Demo.uri_of "/dir/a.txt") w
              (Demo.listing [Demo.file_entry "b.txt"]) 5
              (mkJson (Some [Demo.file_entry "b.txt"]) None) [Demo.file_entry "b.txt"]
              eq_refl eq_refl eq_refl eq_refl eq_refl eq_refl eq_refl Hnone)
    as (w' & Hrun & Hr & _).
  exists w'. split; [exact Hrun|]. rewrite Hr. reflexivity.
Defined.

Lemma stat_refusal_comes_from_status_table_witness :
  let body := mkJson None (Some [mkErrorEntry (Some "DaemonConnectionException") None]) in
  let r := Demo.reply 502 "Bad Gateway" [] (Some body) in
  let env := Demo.scripted [Responded r 5] [] in
  let w := Demo.world Demo.connected_state in
  ∃ w', @stat Demo.platform env Demo.dependencies (Demo.uri_of "/a.txt") w
        = (Throw (Unavailable "Unknown error: 502 Bad Gateway"), w').
Proof.
  intros body r env w.
  destruct (@stat_refusal_comes_from_status_table Demo.platform env Demo.dependencies
              (Demo.uri_of "/a.txt") w r 5 eq_refl eq_refl eq_refl eq_refl eq_refl)
    as (e & w' & He & Hrun & _).
  vm_compute in He. injection He as <-.
  exists w'. exact Hrun.
Defined.

Lemma stat_cache_outlives_connection_witness :
  let env := Demo.scripted [Responded (Demo.listing [Demo.file_entry "a.txt"]) 40] [] in
  let w := Demo.world Demo.connected_state in
  let first := @stat Demo.platform env Demo.dependencies (Demo.uri_of "/a.txt") w in
  let other := State.connectRuntimeState State.createRuntimeState "https://voidium.uk"
                 "ffffff" "0123456789abcdef0123456789abcdef" in
  ∃ w2,
    @stat Demo.platform env Demo.dependencies (Demo.uri_of "/a.txt")
      (with_state (fun _ => other) (advance 5000 first.2))
    = (Ok (mkFileStat 0 0 None 12 FileType_File), w2)
    ∧ requests w2 = requests first.2.
Proof.
  intros env w first other.
  destruct (@stat_cache_outlives_connection Demo.platform env Demo.dependencies
              (Demo.uri_of "/a.txt") w first.2
              (mkFileStat 0 0 None 12 FileType_File) 5000 other
              (fresh_sound Demo.connected_state Demo.no_settings)
              eq_refl eq_refl eq_refl eq_refl eq_refl)
    as (w2 & Hrun & _ & Hr).
  exists w2. split; [exact Hrun|exact Hr].
Defined.

Lemma stat_entry_evicted_after_lifetime_witness :
  let env := Demo.scripted [Responded (Demo.listing [Demo.file_entry "a.txt"]) 40] [] in
  let w := Demo.world Demo.connected_state in
  let first := @stat Demo.platform env Demo.dependencies (Demo.uri_of "/a.txt") w in
  responseCache first.2 !! @cacheKey_of Demo.platform (Demo.uri_of "/a.txt")
  = Some (mkFileStat 0 0 None 12 FileType_File)
  ∧ responseCache (advance 10000 first.2) !! @cacheKey_of Demo.platform (Demo.uri_of "/a.txt")
    = None.
Proof.
  intros env w first.
  destruct (@stat_entry_evicted_after_lifetime Demo.platform env Demo.dependencies
              (Demo.uri_of "/a.txt") w first.2
              (mkFileStat 0 0 None 12 FileType_File) 10000
              (fresh_sound Demo.connected_state Demo.no_settings)
              eq_refl eq_refl eq_refl (N.le_refl _))
    as (Hstored & Hgone & _).
  split; [exact Hstored|exact Hgone].
Defined.

End BridgeExtras.

(** *** What the operations never send *)
Module ObserveFacts.
Import Vscode Bridge Observe BridgeFacts.
Local Open Scope async_scope.

Section Quiet.
Context `{Platform} `{Environment} `{Dependencies}.
Context (keep : Request → bool).

Lemma quiet_ret {A} (a : A) : preserved (List.filter keep) (ret a).
Proof. intros w. reflexivity. Qed.

Lemma quiet_throw {A} (e : Error) : preserved (List.filter keep) (throw (A := A) e).
Proof. intros w. reflexivity. Qed.

Lemma quiet_gets {A} (f : World → A) : preserved (List.filter keep) (gets f).
Proof. intros w. reflexivity. Qed.

Lemma quiet_modify (f : World → World) :
  (∀ w, requests (f w) = requests w) → preserved (List.filter keep) (modify f).
Proof. intros Hf w. unfold modify. cbn [snd]. by rewrite Hf. Qed.

Lemma quiet_bind {A B} (m : M A) (k : A → M B) :
  preserved (List.filter keep) m → (∀ a, preserved (List.filter keep) (k a)) → preserved (List.filter keep) (bind m k).
Proof.
  intros Hm Hk w. unfold bind. specialize (Hm w).
  destruct (m w) as [[a|e] w1]; cbn [snd] in *; [|exact Hm].
  rewrite (Hk a w1). exact Hm.
Qed.

Lemma quiet_try_catch {A} (m : M A) (h : Error → M A) :
  preserved (List.filter keep) m → (∀ e, preserved (List.filter keep) (h e)) → preserved (List.filter keep) (try_catch m h).
Proof.
  intros Hm Hh w. unfold try_catch. specialize (Hm w).
  destruct (m w) as [[a|e] w1]; cbn [snd] in *; [exact Hm|].
  rewrite (Hh e w1). exact Hm.
Qed.

Lemma quiet_log (message : string) : preserved (List.filter keep) (log message).
Proof.
  apply quiet_modify. intros w. rewrite requests_emit. apply app_nil_r.
Qed.

Lemma quiet_sleep (ms : N) : preserved (List.filter keep) (sleep ms).
Proof.
  apply quiet_modify. intros w. rewrite requests_advance, requests_emit. apply app_nil_r.
Qed.

Lemma quiet_fetch (q : Request) : keep q = false → preserved (List.filter keep) (fetch q).
Proof.
  intros Hq w. unfold fetch.
  destruct (network (fetches w)); cbn [snd]; autorewrite with frame;
    rewrite List.filter_app; cbn [List.filter]; rewrite Hq; apply app_nil_r.
Qed.

Lemma quiet_showWarningMessage (message : string) (items : list string) :
  preserved (List.filter keep) (showWarningMessage message items).
Proof.
  intros w. unfold showWarningMessage. destruct (user (prompts w)). cbn [snd].
  autorewrite with frame. by rewrite app_nil_r.
Qed.

Lemma quiet_onAuthenticationFailed : preserved (List.filter keep) onAuthenticationFailed.
Proof.
  apply quiet_modify. intros w. autorewrite with frame. apply app_nil_r.
Qed.

Lemma quiet_proxyUrl (u : string) : preserved (List.filter keep) (proxyUrl u).
Proof. intros w. reflexivity. Qed.

Lemma quiet_ensureConnected : preserved (List.filter keep) ensureConnected.
Proof.
  intros w. unfold ensureConnected, bind, gets. simpl. destruct (negb _); reflexivity.
Qed.

Lemma quiet_response_json (r : Response) : preserved (List.filter keep) (response_json r).
Proof. unfold response_json. destruct (body_json r); [apply quiet_ret|apply quiet_throw]. Qed.

(** Decompose an operation into the primitives above; a request is left as
    the goal that [keep] rejects it. *)
Ltac quiet_step :=
  first [ apply quiet_ret | apply quiet_throw | apply quiet_gets | apply quiet_log
        | apply quiet_sleep | apply quiet_showWarningMessage
        | apply quiet_onAuthenticationFailed | apply quiet_proxyUrl
        | apply quiet_ensureConnected | apply quiet_response_json
        | apply quiet_bind | apply quiet_try_catch
        | match goal with
          | |- preserved _ (if ?c then _ else _) => destruct c
          | |- preserved _ (match ?x with _ => _ end) => destruct x
          | |- ∀ _, _ => intros ?
          end ].

Lemma quiet_forConnection (operation : string) (r : Response) :
  preserved (List.filter keep) (forConnection operation r).
Proof. unfold forConnection. repeat quiet_step. Qed.

(** The requests that only read: GET without a body. *)
Hypothesis reads_pass : ∀ q, req_method q = GET → req_body q = NoBody → keep q = false.

Lemma quiet_readDirectory (uri : Uri) : preserved (List.filter keep) (readDirectory uri).
Proof.
  unfold readDirectory.
  repeat first [apply quiet_forConnection | apply quiet_fetch, reads_pass; reflexivity
               | quiet_step].
Qed.

Lemma quiet_readFile_loop (uri : Uri) (left : nat) (attempt : N) (lastError : option Error) :
  preserved (List.filter keep) (readFile_loop uri left attempt lastError).
Proof.
  revert attempt lastError. induction left as [|left IH]; intros attempt lastError; simpl.
  - apply quiet_throw.
  - unfold readFile_attempt, readFile_failed.
    repeat first [apply IH | apply quiet_forConnection
                 | apply quiet_fetch, reads_pass; reflexivity | quiet_step].
Qed.

Lemma quiet_readFile (uri : Uri) : preserved (List.filter keep) (readFile uri).
Proof. unfold readFile. repeat first [apply quiet_readFile_loop | quiet_step]. Qed.

Lemma quiet_stat (uri : Uri) : preserved (List.filter keep) (stat uri).
Proof.
  unfold stat, stat_not_ok.
  repeat first [apply quiet_forConnection | apply quiet_fetch, reads_pass; reflexivity
               | apply quiet_modify; intros ?; reflexivity
               | quiet_step].
Qed.

Lemma quiet_writeFile_probe (uri : Uri) (create overwrite : bool) :
  preserved (List.filter keep) (writeFile_probe uri create overwrite).
Proof.
  intros w. unfold writeFile_probe, writeFile_try.
  pose proof (quiet_stat uri w) as Hs.
  destruct (stat uri w) as [[fileStat|e] w1]; cbn [snd] in Hs.
  - destruct (type fileStat =? FileType_Directory)%Z; [|destruct (negb overwrite)];
      destruct (negb create); exact Hs.
  - destruct (negb create); exact Hs.
Qed.

(** The other requests of the operations that are not [delete]. *)
Hypothesis uploads_pass : ∀ s target content, keep (write_request s target content) = false.
Hypothesis others_pass :
  ∀ q, match req_body q with
       | CreateFolderBody _ _ | RenameBody _ _ | CopyBody _ => True
       | _ => False
       end → keep q = false.

Lemma quiet_writeFile (uri : Uri) (content : bytes) (create overwrite : bool) :
  preserved (List.filter keep) (writeFile uri content create overwrite).
Proof.
  unfold writeFile.
  repeat first [apply quiet_forConnection | apply quiet_writeFile_probe
               | apply quiet_fetch, uploads_pass | quiet_step].
Qed.

Lemma quiet_createDirectory (uri : Uri) : preserved (List.filter keep) (createDirectory uri).
Proof.
  unfold createDirectory.
  repeat first [apply quiet_forConnection | apply quiet_fetch, others_pass; exact I
               | quiet_step].
Qed.

Lemma quiet_rename (oldUri newUri : Uri) : preserved (List.filter keep) (rename oldUri newUri false).
Proof.
  unfold rename.
  repeat first [apply quiet_forConnection | apply quiet_fetch, others_pass; exact I
               | quiet_step].
Qed.

Lemma quiet_copy (source destination : Uri) : preserved (List.filter keep) (copy source destination false).
Proof.
  unfold copy.
  repeat first [apply quiet_forConnection | apply quiet_fetch, others_pass; exact I
               | quiet_step].
Qed.

End Quiet.

Section Never.
Context `{Platform} `{Environment} `{Dependencies}.

(** X14: [stat], [readDirectory] and [readFile] only read: whatever the
    network and the user answer, and however often [readFile] retries, none
    of them sends a request with a method other than GET. *)
Theorem reading_sends_only_GET (uri : Uri) :
  preserved mutations (stat uri)
  ∧ preserved mutations (readDirectory uri)
  ∧ preserved mutations (readFile uri).
Proof.
  assert (Hreads : ∀ q, req_method q = GET → req_body q = NoBody → is_mutation q = false).
  { intros q Hm _. unfold is_mutation. rewrite Hm. reflexivity. }
  split; [|split].
  - exact (quiet_stat is_mutation Hreads uri).
  - exact (quiet_readDirectory is_mutation Hreads uri).
  - exact (quiet_readFile is_mutation Hreads uri).
Qed.

Lemma deletions_quiet {A} (m : M A) :
  preserved (List.filter is_delete_call) m → preserved deletions m.
Proof. intros Hm w. unfold deletions. by rewrite Hm. Qed.

(** X15: a delete call is sent only by [delete] itself and by [rename] and
    [copy] when they are asked to overwrite: [stat], [readDirectory],
    [readFile], [writeFile] (also with [overwrite] set), [createDirectory],
    and [rename] and [copy] without [overwrite] never send one, whatever
    the answers they get. *)
Theorem delete_calls_only_on_request
    (uri other : Uri) (content : bytes) (create overwrite : bool) :
  preserved deletions (stat uri)
  ∧ preserved deletions (readDirectory uri)
  ∧ preserved deletions (readFile uri)
  ∧ preserved deletions (writeFile uri content create overwrite)
  ∧ preserved deletions (createDirectory uri)
  ∧ preserved deletions (rename uri other false)
  ∧ preserved deletions (copy uri other false).
Proof.
  assert (Hreads : ∀ q, req_method q = GET → req_body q = NoBody → is_delete_call q = false).
  { intros q _ Hb. unfold is_delete_call. rewrite Hb. reflexivity. }
  assert (Huploads : ∀ s target c, is_delete_call (write_request s target c) = false)
    by reflexivity.
  assert (Hothers : ∀ q, match req_body q with
                         | CreateFolderBody _ _ | RenameBody _ _ | CopyBody _ => True
                         | _ => False
                         end → is_delete_call q = false).
  { intros q. unfold is_delete_call. destruct (req_body q); intros []; reflexivity. }
  repeat split; apply deletions_quiet.
  - exact (quiet_stat is_delete_call Hreads uri).
  - exact (quiet_readDirectory is_delete_call Hreads uri).
  - exact (quiet_readFile is_delete_call Hreads uri).
  - exact (quiet_writeFile is_delete_call Hreads Huploads uri content create overwrite).
  - exact (quiet_createDirectory is_delete_call Hothers uri).
  - exact (quiet_rename is_delete_call Hothers uri other).
  - exact (quiet_copy is_delete_call Hothers uri other).
Qed.

End Never.
End ObserveFacts.

(** *** Drag and drop *)
Module DragDropFacts.
Import Vscode Bridge Observe BridgeFacts Tree DragDrop.
Local Open Scope async_scope.

Section Controller.
Context `{Platform} `{Environment} `{Dependencies}.

Lemma reads_are_no_delete_calls (q : Request) :
  req_method q = GET → req_body q = NoBody → is_delete_call q = false.
Proof. intros _ Hb. unfold is_delete_call. rewrite Hb. reflexivity. Qed.

(** What one move sends as delete calls: nothing, or, after the content was
    read and uploaded, the one call for the source. *)
Lemma move_run (targetUri : Uri) (item : PterodactylTreeItem) (w : World) :
  let after := (move targetUri item w).2 in
  deletions (requests after) = deletions (requests w)
  ∨ (∃ content w1 w2,
        readFile (uri item) w = (Ok content, w1)
        ∧ writeFile (Uri_joinPath targetUri (label item)) content true true w1 = (Ok tt, w2)
        ∧ deletions (requests after)
          = (deletions (requests w)
             ++ [DeleteBody "/" [Js.removeStartSlash (path (uri item))]])%list).
Proof.
  intros after. subst after.
  destruct (move targetUri item w) as [res after] eqn:Emove. cbn [snd].
  unfold move in Emove. unfold bind at 1 in Emove.
  pose proof (ObserveFacts.quiet_readFile is_delete_call reads_are_no_delete_calls
                (uri item) w) as Hread.
  destruct (readFile (uri item) w) as [[content|e] w1] eqn:Eread; cbn [snd] in Hread.
  2:{ injection Emove as _ <-. left. unfold deletions. by rewrite Hread. }
  unfold bind at 1 in Emove.
  pose proof (ObserveFacts.quiet_writeFile is_delete_call reads_are_no_delete_calls
                (fun _ _ _ => eq_refl)
                (Uri_joinPath targetUri (label item)) content true true w1) as Hwrite.
  destruct (writeFile _ content true true w1) as [[[]|e] w2] eqn:Ewrite; cbn [snd] in Hwrite.
  2:{ injection Emove as _ <-. left. unfold deletions. by rewrite Hwrite, Hread. }
  destruct (Js.truthy (State.serverApiUrl (state w2))) eqn:Hc.
  - right. exists content, w1, w2. split; [reflexivity|]. split; [exact Ewrite|].
    destruct (BridgeExtras.delete_recursive_run (uri item) w2 Hc) as (w3 & E & Hr & _).
    rewrite E in Emove. injection Emove as _ <-.
    unfold deletions. rewrite Hr, List.filter_app, map_app.
    rewrite Hwrite, Hread. reflexivity.
  - left. unfold delete in Emove. unfold bind at 1 in Emove.
    rewrite (ensureConnected_disconnected w2 Hc) in Emove. injection Emove as _ <-.
    unfold deletions. by rewrite Hwrite, Hread.
Qed.

(** X16: moving one dragged file deletes the source only after its content
    has been read and the upload under the target has been accepted; when
    the read or the upload fails no delete call is sent. *)
Theorem move_deletes_source_only_after_upload
    (targetUri : Uri) (item : PterodactylTreeItem) (w : World) :
  let after := (move targetUri item w).2 in
  deletions (requests after) = deletions (requests w)
  ∨ (∃ content w1 w2,
        readFile (uri item) w = (Ok content, w1)
        ∧ writeFile (Uri_joinPath targetUri (label item)) content true true w1 = (Ok tt, w2)
        ∧ deletions (requests after)
          = (deletions (requests w)
             ++ [DeleteBody "/" [Js.removeStartSlash (path (uri item))]])%list).
Proof. exact (move_run targetUri item w). Qed.

(** X17: a drop only ever deletes dragged files: the delete calls it sends
    are for some of the dragged items that are files, each at most once, in
    the order they were dragged; a dragged folder is never deleted. *)
Theorem drop_deletes_only_dragged_files
    (targetUri : Uri) (items : list PterodactylTreeItem) (w : World) :
  ∃ moved,
    moved `sublist_of` List.filter isFile items
    ∧ deletions (requests (move_all targetUri items w).2)
      = (deletions (requests w)
         ++ map (fun item => DeleteBody "/" [Js.removeStartSlash (path (uri item))]) moved)%list.
Proof.
  revert w. induction items as [|item rest IH]; intros w.
  { exists []. split; [constructor|]. simpl. by rewrite app_nil_r. }
  cbn [move_all List.filter].
  destruct (isFile item) eqn:Hfile; cbn [negb].
  2:{ exact (IH w). }
  pose proof (move_run targetUri item w) as Hmove.
  destruct (move targetUri item w) as [[[]|e] w1]; cbn [snd] in Hmove;
    destruct (IH w1) as (moved & Hsub & Hdel);
    [|destruct (move_all targetUri rest w1) as [shown w2] eqn:Erest];
    cbn [snd] in *;
    (destruct Hmove as [Hsame|(content & wa & wb & _ & _ & Hone)];
     [exists moved; split; [by apply sublist_cons|]; rewrite Hdel, Hsame; reflexivity
     |exists (item :: moved); split; [by apply sublist_skip|];
      rewrite Hdel, Hone, <- app_assoc; reflexivity]).
Qed.

(** X18: dragged folders are passed over in silence: a drop of folders only
    sends nothing, shows no error, and leaves the bridge as it was; the tree
    is refreshed all the same. *)
Theorem drop_of_folders_sends_nothing
    (target : option PterodactylTreeItem) (items : list PterodactylTreeItem)
    (w : World) (p : Provider) :
  Forall (fun item => isFile item = false) items →
  handleDrop target (Some items) w p = ([], w, refresh p).
Proof.
  intros Hall. unfold handleDrop.
  assert (Hmove : move_all (drop_target target) items w = ([], w)).
  { induction Hall as [|item rest Hitem _ IH]; [reflexivity|].
    cbn [move_all]. rewrite Hitem. exact IH. }
  rewrite Hmove. reflexivity.
Qed.

End Controller.

Lemma drop_of_folders_sends_nothing_witness :
  let env := Demo.scripted [] [] in
  let w := Demo.world Demo.connected_state in
  let folder := mkTreeItem "logs" TreeItemCollapsibleState_Collapsed (Demo.uri_of "/logs") false in
  @handleDrop Demo.platform env Demo.dependencies None (Some [folder]) w Tree.initial
  = ([], w, refresh Tree.initial).
Proof.
  intros env w folder.
  exact (@drop_of_folders_sends_nothing Demo.platform env Demo.dependencies
           None [folder] w Tree.initial
           (@List.Forall_cons _ (fun item => isFile item = false) folder [] eq_refl
              (@List.Forall_nil _ _))).
Defined.

End DragDropFacts.

(** *** The reveal loop *)
Module RevealFacts.
Import Vscode Tree Reveal.

Section Engine.
Context `{Platform}.

Lemma revealNextItems_prefix (directoryKey : string) (element : option PterodactylTreeItem)
    (p : Provider) :
  visible_is_prefix p → visible_is_prefix (revealNextItems directoryKey element p).
Proof.
  intros Hp. unfold revealNextItems.
  destruct (allItemsByDirectory p !! directoryKey) as [allItems|] eqn:Hall; [|exact Hp].
  destruct (visibleItemsByDirectory p !! directoryKey) as [visibleItems|] eqn:Hvis;
    [|exact Hp].
  destruct (length allItems <=? length visibleItems); [exact Hp|].
  intros k vis all. cbn [visibleItemsByDirectory allItemsByDirectory].
  destruct (decide (k = directoryKey)) as [->|Hne].
  - rewrite lookup_insert_eq, Hall. intros [= <-] [= <-]. apply prefix_take.
  - rewrite lookup_insert_ne by done. apply Hp.
Qed.

Lemma settle_prefix (l : Load) (r : Bridge.Result (list (string * Z))) (p : Provider) :
  visible_is_prefix p → visible_is_prefix (settle l r p).
Proof.
  intros Hp. unfold settle.
  assert (Hstrip : ∀ q, visible_is_prefix q →
            visible_is_prefix
              (mkProvider (allItemsByDirectory q) (visibleItemsByDirectory q)
                          (base.delete (load_key l) (loadInFlightByDirectory q))
                          (refreshTargetByDirectory q) (revealTimersByDirectory q)
                          (outstanding q) (scheduled q) (fired q) (fresh q)))
    by (intros q Hq; exact Hq).
  apply Hstrip. destruct r as [items|e].
  - apply revealNextItems_prefix.
    intros k vis all. cbn [visibleItemsByDirectory allItemsByDirectory].
    destruct (decide (k = load_key l)) as [->|Hne].
    + rewrite !lookup_insert_eq. intros [= <-] _. apply prefix_nil.
    + rewrite !lookup_insert_ne by done. apply Hp.
  - intros k vis all. cbn [visibleItemsByDirectory allItemsByDirectory fire].
    destruct (decide (k = load_key l)) as [->|Hne].
    + rewrite lookup_insert_eq. intros [= <-] _. apply prefix_nil.
    + rewrite lookup_insert_ne by done. apply Hp.
Qed.

Lemma step_prefix (i : Input) (p : Provider) :
  visible_is_prefix p → visible_is_prefix (step i p).
Proof.
  intros Hp. destruct i as [element| |id r|timer]; cbn [step].
  - unfold getChildren. cbn [visibleItemsByDirectory].
    destruct (visibleItemsByDirectory p !! _); cbn [snd]; [exact Hp|].
    unfold startAnimatedLoad. cbn [loadInFlightByDirectory].
    destruct (loadInFlightByDirectory p !! _); exact Hp.
  - intros k vis all. cbn [refresh visibleItemsByDirectory]. by rewrite lookup_empty.
  - destruct (List.find _ (outstanding p)) as [l|]; [|exact Hp].
    apply settle_prefix. exact Hp.
  - destruct (List.find _ (scheduled p)) as [r|]; [|exact Hp].
    apply revealNextItems_prefix. exact Hp.
Qed.

(** X19: whatever the event loop delivers, in whatever order (calls of
    [getChildren], refreshes, listings that settle or fail, reveal timers),
    what the tree shows of a directory is a leading part of the sorted
    entries loaded for it. *)
Theorem visible_entries_lead_loaded_entries (inputs : list Input) :
  visible_is_prefix (run inputs initial).
Proof.
  assert (Hrun : ∀ p, visible_is_prefix p → visible_is_prefix (run inputs p)).
  { induction inputs as [|i inputs IH]; intros p Hp; [exact Hp|].
    cbn [run foldl]. apply IH, step_prefix, Hp. }
  apply Hrun. intros k vis all. cbn [initial visibleItemsByDirectory].
  by rewrite lookup_empty.
Qed.

Lemma fire_timers_idle (n : nat) (p : Provider) : scheduled p = [] → fire_timers n p = p.
Proof. intros Hs. destruct n; cbn [fire_timers]; [reflexivity|]. by rewrite Hs. Qed.

Lemma fire_timers_next (n : nat) (p : Provider) (r : Tree.Reveal) (rest : list Tree.Reveal) :
  scheduled p = r :: rest →
  fire_timers (S n) p = fire_timers n (step (TimerFired (handle r)) p).
Proof. intros Hs. cbn [fire_timers]. by rewrite Hs. Qed.

(** The loop from the moment [shown] entries are visible and its one timer
    is pending: [need] more timers show the [need] entries that are left. *)
Lemma reveal_chain (directoryKey : string) (element : option PterodactylTreeItem)
    (allItems : list PterodactylTreeItem) (need : nat) :
  ∀ (shown : nat) (p : Provider) (timer : nat),
    shown + need = length allItems →
    allItemsByDirectory p !! directoryKey = Some allItems →
    visibleItemsByDirectory p !! directoryKey = Some (take shown allItems) →
    scheduled p = [mkReveal timer directoryKey element 12] →
    let q := fire_timers (S need) p in
    visibleItemsByDirectory q !! directoryKey = Some allItems
    ∧ scheduled q = []
    ∧ revealTimersByDirectory q !! directoryKey = None
    ∧ length (fired q) = length (fired p) + need.
Proof.
  induction need as [|need IH]; intros shown p timer Hlen Hall Hvis Hsched q; subst q;
    rewrite (fire_timers_next _ _ _ _ Hsched); cbn [step handle];
    rewrite Hsched; cbn [List.find handle]; rewrite Nat.eqb_refl;
    cbn [reveal_key reveal_element];
    unfold revealNextItems;
    cbn [remove_timer allItemsByDirectory visibleItemsByDirectory loadInFlightByDirectory
         refreshTargetByDirectory revealTimersByDirectory outstanding scheduled fired fresh];
    rewrite Hall, Hvis, length_take_le by lia.
  - cbn [fire_timers].
    destruct (Nat.leb_spec (length allItems) shown) as [_|Hlt]; [|lia].
    rewrite Hsched. cbn [clearTimeout List.filter handle]. rewrite Nat.eqb_refl.
    cbn [negb visibleItemsByDirectory scheduled revealTimersByDirectory fired].
    rewrite Hvis, lookup_delete_eq.
    replace shown with (length allItems) by lia. rewrite firstn_all.
    repeat split; try reflexivity. lia.
  - destruct (Nat.leb_spec (length allItems) shown) as [Hle|_]; [lia|].
    rewrite Hsched. cbn [clearTimeout List.filter handle]. rewrite Nat.eqb_refl.
    cbn [negb app].
    match goal with
    | |- context [fire_timers (S need) ?p1] =>
        destruct (IH (shown + 1) p1 (fresh p)) as (Hv & Hs & Ht & Hf)
    end.
    + lia.
    + exact Hall.
    + cbn [visibleItemsByDirectory]. apply lookup_insert_eq.
    + reflexivity.
    + split; [exact Hv|]. split; [exact Hs|].
      split; [exact Ht|]. rewrite Hf. cbn [fired]. rewrite length_app. simpl. lia.
Qed.

(** X20: when a listing settles with entries while no reveal timer is
    pending, the timers that follow show all of them: after as many timers
    as there are entries the whole sorted directory is visible, one change
    notification has been fired per entry, and no timer is left. *)
Theorem reveal_loop_shows_every_entry
    (l : Load) (items : list (string * Z)) (p : Provider) :
  scheduled p = [] →
  let q := fire_timers (length items) (settle l (Bridge.Ok items) p) in
  visibleItemsByDirectory q !! load_key l = Some (sortedTreeItems (load_uri l) items)
  ∧ scheduled q = []
  ∧ revealTimersByDirectory q !! load_key l = None
  ∧ length (fired q) = length (fired p) + length items.
Proof.
  intros Hidle q. subst q.
  set (allItems := sortedTreeItems (load_uri l) items).
  assert (Hlen : length allItems = length items).
  { unfold allItems, sortedTreeItems.
    rewrite (Permutation_length (TreeFacts.Array_sort_perm _ _)). apply length_map. }
  unfold settle, revealNextItems.
  cbn [allItemsByDirectory visibleItemsByDirectory]. rewrite !lookup_insert_eq.
  fold allItems. cbn [length].
  destruct (Nat.leb_spec (length allItems) 0) as [Hnone|Hsome].
  - assert (Hz : length items = 0) by lia. rewrite Hz. cbn [fire_timers].
    cbn [visibleItemsByDirectory scheduled revealTimersByDirectory fired].
    rewrite lookup_insert_eq, lookup_delete_eq.
    destruct allItems; [|simpl in Hnone; lia].
    repeat split; try assumption; try reflexivity. lia.
  - cbn [allItemsByDirectory visibleItemsByDirectory refreshTargetByDirectory
         loadInFlightByDirectory revealTimersByDirectory outstanding scheduled fired fresh].
    rewrite Hidle. cbn [app].
    destruct (length items) as [|need] eqn:Hn; [lia|].
    match goal with
    | |- context [fire_timers (S need) ?p1] =>
        destruct (reveal_chain (load_key l) (load_element l) allItems need 1 p1 (fresh p))
          as (Hv & Hs & Ht & Hf)
    end.
    + lia.
    + cbn [allItemsByDirectory]. apply lookup_insert_eq.
    + cbn [visibleItemsByDirectory]. rewrite lookup_insert_eq. reflexivity.
    + reflexivity.
    + split; [exact Hv|]. split; [exact Hs|]. split; [exact Ht|].
      rewrite Hf. cbn [fired]. rewrite length_app. simpl. lia.
Qed.

(** X21: a listing that fails leaves the directory shown as empty, with one
    change notification for its node, and it is not loaded again: the next
    [getChildren] for it returns the empty array and starts no load (until
    a refresh clears what is shown). *)
Theorem failed_listing_shown_empty_and_not_retried
    (l : Load) (e : Error) (element : option PterodactylTreeItem) (p : Provider) :
  load_key l = Uri_toString (directoryUri_of element) →
  let p1 := settle l (Bridge.Throw e) p in
  fired p1 = (fired p ++ [load_element l])%list
  ∧ (getChildren element p1).1 = []
  ∧ outstanding (getChildren element p1).2 = outstanding p
  ∧ loadInFlightByDirectory (getChildren element p1).2 !! load_key l = None.
Proof.
  intros Hkey p1. subst p1. unfold settle, getChildren, fire.
  cbn [visibleItemsByDirectory fired outstanding loadInFlightByDirectory].
  rewrite <- Hkey, lookup_insert_eq. cbn [fst snd outstanding loadInFlightByDirectory].
  rewrite lookup_delete_eq. repeat split; reflexivity.
Qed.

End Engine.

Lemma reveal_loop_shows_every_entry_witness :
  let l := mkLoad 0 "pterodactyl:/" (Demo.uri_of "/") None in
  let items := [("b.txt", FileType_File); ("a", FileType_Directory)] in
  let q := @fire_timers Demo.platform 2 (@settle Demo.platform l (Bridge.Ok items) initial) in
  visibleItemsByDirectory q !! "pterodactyl:/"
  = Some (@sortedTreeItems Demo.platform (Demo.uri_of "/") items)
  ∧ scheduled q = [].
Proof.
  intros l items q.
  destruct (@reveal_loop_shows_every_entry Demo.platform l items initial eq_refl)
    as (Hv & Hs & _).
  split; [exact Hv|exact Hs].
Defined.

Lemma failed_listing_shown_empty_and_not_retried_witness :
  let l := mkLoad 0 "pterodactyl:/" (Demo.uri_of "/") None in
  let p1 := @settle Demo.platform l (Bridge.Throw (FetchFailed "network down")) initial in
  (@getChildren Demo.platform None p1).1 = []
  ∧ outstanding (@getChildren Demo.platform None p1).2 = [].
Proof.
  intros l p1.
  destruct (@failed_listing_shown_empty_and_not_retried Demo.platform l
              (FetchFailed "network down") None initial eq_refl)
    as (_ & Hv & Ho & _).
  split; [exact Hv|exact Ho].
Defined.

End RevealFacts.

(** *** The status bar: the refresh body and the power signal *)
Module PowerFacts.
Import Vscode StatusBar Power.

Section Controller.
Context `{Platform}.

(** The controller is untouched and an error message is shown. *)
Local Ltac refused := intros _; split; [reflexivity|eexists; reflexivity].

(** A request was sent, from a connected state with a configured server. *)
Local Ltac was_sent :=
  split; [intros _; split; [reflexivity|eexists; reflexivity]|intros _; eexists; reflexivity].

(** X22: [sendPowerSignal] schedules the status refresh, 750 ms later,
    exactly when the panel answers the signal with status 204, and then
    reports success; in every other case (no connection, no configured
    server, a rejected request, any other status, whatever its body) it
    shows an error message and leaves the refresh scheduling untouched.  It
    sends a request exactly when the state is connected and a server is
    configured. *)
Theorem power_signal_schedules_refresh_only_on_204
    (signal : string) (s : State.RuntimeState) (c : Config.Settings)
    (o : FetchOutcome) (ctl : Controller) :
  let result := sendPowerSignal signal s c o ctl in
  let accepted :=
    connected s = true ∧ is_Some (configured_server c)
    ∧ ∃ r latency, o = Responded r latency ∧ status r = 204%N in
  (is_Some result.1.1 ↔ connected s = true ∧ is_Some (configured_server c))
  ∧ (accepted →
     result.2 = powerSignalAccepted ctl
     ∧ timeouts result.2 = (timeouts ctl ++ [power_delay])%list
     ∧ result.1.2 = Information ("Server " +:+ signal +:+ " command sent successfully"))
  ∧ ((accepted → False) → result.2 = ctl ∧ ∃ m, result.1.2 = ErrorMessage m).
Proof.
  intros result accepted. subst result accepted. unfold sendPowerSignal, is_Some.
  destruct (connected s); cbn [negb].
  2:{ cbn [fst snd].
      split; [split; [intros [x Hx]; discriminate|intros [Hf _]; discriminate]|].
      split; [intros [Hf _]; discriminate|refused]. }
  destruct (configured_server c) as [serverId|].
  2:{ cbn [fst snd].
      split; [split; [intros [x Hx]; discriminate|intros [_ [x Hx]]; discriminate]|].
      split; [intros (_ & [x Hx] & _); discriminate|refused]. }
  destruct o as [reason latency|r latency].
  { cbn [fst snd]. split; [was_sent|].
    split; [intros (_ & _ & r & l & Ho & _); discriminate|refused]. }
  destruct (N.eqb_spec (status r) 204) as [H204|Hne].
  { cbn [fst snd]. split; [was_sent|].
    split; [intros _; split; [reflexivity|split; reflexivity]|].
    intros Hno. exfalso. apply Hno.
    split; [reflexivity|]. split; [eexists; reflexivity|].
    exists r, latency. split; [reflexivity|exact H204]. }
  destruct (body_json r) as [j|]; [destruct (errors j) as [es|]|];
    (cbn [fst snd]; split; [was_sent|];
     split; [intros (_ & _ & r' & l' & Ho & H204); injection Ho as <- <-; contradiction
            |refused]).
Qed.

(** X23: whatever happens, [refresh] leaves the status item shown.  The
    button that opens the panel is shown exactly when a request for the
    server's resources is sent, which is exactly when the state is connected
    and a server is configured; and the status item opens the power menu
    exactly when that request was answered in 200..299 with a body that
    carries the current state: in every other case it offers to connect. *)
Theorem status_item_always_shown
    (s : State.RuntimeState) (c : Config.Settings) (o : FetchOutcome)
    (current_state : option string) (bar : Bar) :
  let result := refresh s c o current_state bar in
  visible (statusBarItem result.2) = true
  ∧ (is_Some result.1 ↔ connected s = true ∧ is_Some (configured_server c))
  ∧ (visible (openButtonItem result.2) = true ↔ is_Some result.1)
  ∧ (command (statusBarItem result.2) = "pterodactyl-vsc.showPowerMenu"
     ↔ is_Some result.1
       ∧ ∃ r latency, o = Responded r latency ∧ ok r = true ∧ is_Some current_state)
  ∧ (command (statusBarItem result.2) = "pterodactyl-vsc.showPowerMenu"
     ∨ command (statusBarItem result.2) = "pterodactyl-vsc.init").
Proof.
  intros result. subst result. unfold refresh, is_Some.
  destruct (connected s); cbn [negb].
  2:{ cbn [fst snd statusBarItem openButtonItem visible command hidden].
      split; [reflexivity|].
      split; [split; [intros [x Hx]; discriminate|intros [Hf _]; discriminate]|].
      split; [split; [discriminate|intros [x Hx]; discriminate]|].
      split; [split; [discriminate|intros [[x Hx] _]; discriminate]|].
      right. reflexivity. }
  destruct (configured_server c) as [serverId|].
  2:{ cbn [fst snd statusBarItem openButtonItem visible command hidden].
      split; [reflexivity|].
      split; [split; [intros [x Hx]; discriminate|intros [_ [x Hx]]; discriminate]|].
      split; [split; [discriminate|intros [x Hx]; discriminate]|].
      split; [split; [discriminate|intros [[x Hx] _]; discriminate]|].
      right. reflexivity. }
  cbn [fst snd statusBarItem openButtonItem visible].
  assert (Hbutton : true = true ↔ ∃ x : Call, Some
            (mkCall (Bridge.proxied c (Config.getPanelUrl +:+ "/api/client/servers/"
                                       +:+ serverId +:+ "/resources")) GET
                    [("Authorization", State.authHeader s); ("Accept", "application/json")]
                    None) = Some x)
    by (split; [intros _; eexists; reflexivity|reflexivity]).
  destruct o as [reason latency|r latency].
  { cbn [visible command]. split; [reflexivity|]. split; [was_sent|].
    split; [exact Hbutton|].
    split; [split; [discriminate|intros (_ & r & l & Ho & _); discriminate]|].
    right. reflexivity. }
  destruct (ok r) eqn:Hok; cbn [negb].
  2:{ cbn [visible command]. split; [reflexivity|]. split; [was_sent|].
      split; [exact Hbutton|].
      split; [split; [discriminate
                     |intros (_ & r' & l' & Ho & Hok' & _); injection Ho as <- <-;
                      congruence]|].
      right. reflexivity. }
  destruct current_state as [state|]; cbn [visible command].
  - split; [reflexivity|]. split; [was_sent|]. split; [exact Hbutton|].
    split; [|left; reflexivity].
    split; [intros _|reflexivity].
    split; [eexists; reflexivity|].
    exists r, latency. split; [reflexivity|]. split; [exact Hok|eexists; reflexivity].
  - split; [reflexivity|]. split; [was_sent|]. split; [exact Hbutton|].
    split; [split; [discriminate|intros (_ & r' & l' & _ & _ & [x Hx]); discriminate]|].
    right. reflexivity.
Qed.

End Controller.

Lemma power_signal_schedules_refresh_only_on_204_witness :
  let ctl := StatusBar.initial in
  let c := Demo.no_settings in
  let o := Responded (Demo.reply 204 "No Content" [] None) 0 in
  timeouts (@sendPowerSignal Demo.platform "restart" Demo.connected_state c o ctl).2 = [750%N].
Proof.
  intros ctl c o.
  exact (proj1 (proj2 (proj1 (proj2
           (@power_signal_schedules_refresh_only_on_204 Demo.platform "restart"
              Demo.connected_state c o ctl))
           (conj eq_refl
              (conj (ex_intro _ "a1b2c3" eq_refl)
                 (ex_intro _ (Demo.reply 204 "No Content" [] None)
                    (ex_intro _ 0%N (conj eq_refl eq_refl)))))))).
Defined.

End PowerFacts.

(** *** Connecting: panel.ts with config.ts and state.ts *)
Module PanelFacts.
Import Vscode Panel.

Lemma rev_app_chars (s1 s2 : string) :
  list_ascii_of_string (String.rev_app s1 s2)
  = (List.rev (list_ascii_of_string s1) ++ list_ascii_of_string s2)%list.
Proof.
  revert s2. induction s1 as [|c s1 IH]; intros s2; [reflexivity|].
  cbn [String.rev_app list_ascii_of_string List.rev]. rewrite IH, <- app_assoc. reflexivity.
Qed.

Lemma rev_chars (s : string) :
  list_ascii_of_string (String.rev s) = List.rev (list_ascii_of_string s).
Proof. unfold String.rev. rewrite rev_app_chars. apply app_nil_r. Qed.

Lemma rev_rev (s : string) : String.rev (String.rev s) = s.
Proof.
  rewrite <- (string_of_list_ascii_of_string (String.rev (String.rev s))).
  rewrite !rev_chars, rev_involutive. apply string_of_list_ascii_of_string.
Qed.

(** A string without white space is its own trim. *)
Lemma trim_start_clean (s : string) :
  forallb (fun c => negb (Js.is_white c)) (list_ascii_of_string s) = true →
  Js.trim_start s = s.
Proof.
  destruct s as [|c rest]; [reflexivity|]. cbn [list_ascii_of_string forallb Js.trim_start].
  intros Hc. apply andb_true_iff in Hc as [Hc _]. apply negb_true_iff in Hc.
  by rewrite Hc.
Qed.

Lemma trim_clean (s : string) :
  forallb (fun c => negb (Js.is_white c)) (list_ascii_of_string s) = true →
  Js.trim s = s.
Proof.
  intros Hs. unfold Js.trim. rewrite (trim_start_clean s Hs).
  rewrite trim_start_clean; [apply rev_rev|].
  rewrite rev_chars. apply forallb_forall. intros c Hin. apply in_rev in Hin.
  rewrite forallb_forall in Hs. exact (Hs c Hin).
Qed.

Lemma key_char_not_white (c : ascii) : is_key_char c = true → Js.is_white c = false.
Proof.
  unfold is_key_char, Js.is_white. generalize (nat_of_ascii c). intros n Hk.
  destruct (Nat.eqb_spec n 32) as [->|_]; [discriminate|].
  destruct (Nat.eqb_spec n 160) as [->|_]; [discriminate|].
  destruct (Nat.leb_spec 9 n) as [H9|_]; [|reflexivity].
  destruct (Nat.leb_spec n 13) as [H13|_]; [|reflexivity].
  exfalso.
  repeat match type of Hk with
         | context [?a <=? ?b] => destruct (Nat.leb_spec a b); cbn [andb orb] in Hk
         | context [?a =? ?b] => destruct (Nat.eqb_spec a b); cbn [andb orb] in Hk
         end; try discriminate; lia.
Qed.

Lemma valid_key_clean (k : string) :
  isValidApiKey k = true →
  forallb (fun c => negb (Js.is_white c)) (list_ascii_of_string k) = true ∧ k ≠ "".
Proof.
  unfold isValidApiKey. intros Hv.
  apply andb_true_iff in Hv as [Hlen Hchars]. apply andb_true_iff in Hlen as [Hmin _].
  split.
  - apply forallb_forall. intros c Hin. rewrite forallb_forall in Hchars.
    by rewrite (key_char_not_white c (Hchars c Hin)).
  - intros ->. discriminate.
Qed.

Lemma truthy_trim (s : string) : Js.truthy (Js.trim s) = true → Js.truthy s = true.
Proof. destruct s; [discriminate|reflexivity]. Qed.

Lemma valid_key_read_back_clean (k : string) :
  isValidApiKey k = true → Js.trim k = k ∧ Config.nonblank (Some k) = Some k.
Proof.
  intros Hv. destruct (valid_key_clean k Hv) as [Hclean Hne].
  pose proof (trim_clean k Hclean) as Htrim. split; [exact Htrim|].
  unfold Config.nonblank. rewrite Htrim, (proj2 (JsFacts.truthy_ne k) Hne). reflexivity.
Qed.

(** X24: a key that passes the format check of the input box is its own
    trim, and once written to the settings it is the key that [getApiKey]
    reads back. *)
Theorem valid_key_read_back_unchanged (k : string) (c : Config.Settings) :
  isValidApiKey k = true →
  Js.trim k = k ∧ Config.getApiKey (setApiKey (Some k) c) = Some k.
Proof.
  intros Hv. destruct (valid_key_read_back_clean k Hv) as [Htrim Hread].
  split; [exact Htrim|exact Hread].
Qed.

Section Service.
Context `{Platform}.

Lemma connected_nonempty (s : State.RuntimeState) (root id key : string) :
  State.both_nonempty (State.connectRuntimeState s root id key).
Proof.
  split; cbn.
  - unfold Config.buildServerApiUrl.
    destruct root; [discriminate|discriminate].
  - discriminate.
Qed.

(** X25: [addPanel] never leaves the connection state half written, and
    sends at most the one request to the panel.  Either it ends without
    calling [onConnected] and the runtime state is as it was, or it calls
    [onConnected] and then both fields are set from the chosen server and
    the key, and the settings hold that server and that key. *)
Theorem addPanel_connects_or_leaves_state
    (a : Answers) (s : State.RuntimeState) (c : Config.Settings) :
  let run := addPanel a s c in
  length (requests run) ≤ 1
  ∧ (onConnected_called run = false → state run = s)
  ∧ (onConnected_called run = true →
     ∃ server key,
       key_to_use a c = Some key
       ∧ state run = State.connectRuntimeState s panelRootUrl (identifier server) key
       ∧ State.both_nonempty (state run)
       ∧ Config.serverId (settings run) = Some (identifier server)
       ∧ Config.apiKey (settings run) = Some key
       ∧ errors_shown run = []).
Proof.
  intros run. subst run. unfold addPanel.
  destruct (key_to_use a c) as [key|]; [|cbn; split; [lia|split; [reflexivity|discriminate]]].
  destruct (outcome a) as [reason latency|r latency];
    [cbn; split; [lia|split; [reflexivity|discriminate]]|].
  destruct (negb (ok r)); [cbn; split; [lia|split; [reflexivity|discriminate]]|].
  destruct (servers a) as [[found|]|];
    [|cbn; split; [lia|split; [reflexivity|discriminate]]..].
  destruct (choose a found) as [server|];
    [|cbn; split; [lia|split; [reflexivity|discriminate]]].
  cbn [requests state settings onConnected_called errors_shown length].
  split; [lia|]. split; [discriminate|]. intros _.
  exists server, key. repeat split; try reflexivity.
  - apply connected_nonempty.
  - apply connected_nonempty.
Qed.

(** X26: the key is saved as soon as the answer of the panel has been read,
    before a server is chosen: when the server pick is cancelled, or the
    answer carries no server list, the key stays in the settings while the
    runtime state and the configured server are as they were. *)
Theorem addPanel_saves_key_before_server_choice
    (a : Answers) (s : State.RuntimeState) (c : Config.Settings)
    (key : string) (r : Response) (latency : N)
    (data : option (list PanelServer)) :
  key_to_use a c = Some key →
  outcome a = Responded r latency →
  ok r = true →
  servers a = Some data →
  let run := addPanel a s c in
  Config.apiKey (settings run) = Some key
  ∧ (match data with
     | None => True
     | Some found => choose a found = None
     end →
     state run = s
     ∧ onConnected_called run = false
     ∧ Config.serverId (settings run) = Config.serverId c).
Proof.
  intros Hkey Hout Hok Hdata run. subst run. unfold addPanel.
  rewrite Hkey, Hout, Hok, Hdata. cbn [negb].
  destruct data as [found|].
  - destruct (choose a found) as [server|]; cbn; split; try reflexivity.
    + discriminate.
    + intros _. repeat split; reflexivity.
  - cbn. split; [reflexivity|]. intros _. repeat split; reflexivity.
Qed.

(** X27: what a successful [addPanel] persists is what start-up restores.
    When the platform parses the panel URL into its scheme and authority,
    the chosen server has a non-blank identifier and a key taken from the
    settings is not made of white space only, hydrating a fresh runtime
    state from the settings that [addPanel] left gives the state that
    [addPanel] left. *)
Theorem hydration_restores_connected_state
    (a : Answers) (s : State.RuntimeState) (c : Config.Settings) :
  panelRootUrl = Config.getPanelUrl →
  (∀ k, Config.apiKey c = Some k → k = "" ∨ Js.truthy (Js.trim k) = true) →
  (∀ found server, choose a found = Some server →
                   Js.truthy (Js.trim (identifier server)) = true) →
  let run := addPanel a s c in
  onConnected_called run = true →
  State.hydrateRuntimeState (settings run) State.createRuntimeState = state run.
Proof.
  intros Hroot Hconfigured Hchosen run. subst run. unfold addPanel.
  destruct (key_to_use a c) as [key|] eqn:Hkey; [|discriminate].
  destruct (outcome a) as [reason latency|r latency]; [discriminate|].
  destruct (negb (ok r)); [discriminate|].
  destruct (servers a) as [[found|]|]; [|discriminate..].
  destruct (choose a found) as [server|] eqn:Hpick; [|discriminate].
  intros _. cbn [state settings].
  assert (Hk : Config.nonblank (Some key) = Some key).
  { assert (Htyped : ∀ t, (if Js.truthy (Js.trim t) && isValidApiKey (Js.trim t)
                           then Some (Js.trim t) else None) = Some key →
                          Config.nonblank (Some key) = Some key).
    { intros t Ht.
      destruct (Js.truthy (Js.trim t) && isValidApiKey (Js.trim t)) eqn:Hv; [|discriminate].
      injection Ht as <-. apply andb_true_iff in Hv as [_ Hv].
      exact (proj2 (valid_key_read_back_clean (Js.trim t) Hv)). }
    unfold key_to_use in Hkey.
    destruct (Config.apiKey c) as [k|] eqn:Hc.
    - destruct (Js.truthy k) eqn:Ht.
      + injection Hkey as <-.
        destruct (Hconfigured k eq_refl) as [->|Htrim]; [discriminate|].
        unfold Config.nonblank. by rewrite Ht, Htrim.
      + destruct (typed a) as [t|]; [exact (Htyped t Hkey)|discriminate].
    - destruct (typed a) as [t|]; [exact (Htyped t Hkey)|discriminate]. }
  assert (Hid : Config.nonblank (Some (identifier server)) = Some (identifier server)).
  { pose proof (Hchosen found server Hpick) as Htrim.
    unfold Config.nonblank. by rewrite (truthy_trim _ Htrim), Htrim. }
  unfold State.hydrateRuntimeState, Config.getServerId, Config.getApiKey,
    setServerId, setApiKey.
  cbn [Config.serverId Config.apiKey]. rewrite Hid, Hk, Hroot. reflexivity.
Qed.

End Service.

Lemma valid_key_read_back_unchanged_witness :
  let k := "0123456789abcdef0123456789abcdef" in
  Js.trim k = k ∧ Config.getApiKey (setApiKey (Some k) Demo.no_settings) = Some k.
Proof.
  intros k. exact (valid_key_read_back_unchanged k Demo.no_settings eq_refl).
Defined.

Lemma addPanel_saves_key_before_server_choice_witness :
  let key := "0123456789abcdef0123456789abcdef" in
  let answer := Demo.reply 200 "OK" [] None in
  let a := mkAnswers (Some ("  " +:+ key)) (Responded answer 0)
                     (Some (Some [mkPanelServer "survival" "a1b2c3" None]))
                     (fun _ => None) in
  let c := Config.mkSettings None None None in
  let run := @addPanel Demo.platform a State.createRuntimeState c in
  Config.apiKey (settings run) = Some key ∧ state run = State.createRuntimeState.
Proof.
  intros key answer a c run.
  destruct (@addPanel_saves_key_before_server_choice Demo.platform a
              State.createRuntimeState c key answer 0
              (Some [mkPanelServer "survival" "a1b2c3" None])
              eq_refl eq_refl eq_refl eq_refl)
    as [Hsaved Hrest].
  split; [exact Hsaved|]. exact (proj1 (Hrest eq_refl)).
Defined.

Lemma hydration_restores_connected_state_witness :
  let key := "0123456789abcdef0123456789abcdef" in
  let server := mkPanelServer "survival" "a1b2c3" None in
  let a := mkAnswers (Some key) (Responded (Demo.reply 200 "OK" [] None) 0)
                     (Some (Some [server])) (fun _ => Some server) in
  let c := Config.mkSettings None None None in
  let run := @addPanel Demo.platform a State.createRuntimeState c in
  State.hydrateRuntimeState (settings run) State.createRuntimeState = state run
  ∧ state run = Demo.connected_state.
Proof.
  intros key server a c run. split; [|reflexivity].
  apply (@hydration_restores_connected_state Demo.platform a State.createRuntimeState c).
  - reflexivity.
  - intros k Hk. discriminate.
  - intros found chosen Hpick. injection Hpick as <-. reflexivity.
  - reflexivity.
Defined.

End PanelFacts.

(** *** The configuration handler and start-up *)
Module StateExtras.

(** X28: the configuration handler and start-up read the settings alike.
    When a change affects the server setting, the handler leaves the server
    URL that hydrating a fresh state from the same settings gives; when it
    affects the API key, and the stored key is not made of white space
    only, it leaves the authorization header that hydration gives.  What
    the state held before makes no difference to the fields written. *)
Theorem configuration_change_agrees_with_hydration
    (affectsServer affectsApiKey : bool) (c : Config.Settings) (s : State.RuntimeState) :
  (∀ k, Config.apiKey c = Some k → k = "" ∨ Js.truthy (Js.trim k) = true) →
  let changed := State.onDidChangeConfiguration affectsServer affectsApiKey c s in
  let hydrated := State.hydrateRuntimeState c State.createRuntimeState in
  State.serverApiUrl changed
  = (if affectsServer then State.serverApiUrl hydrated else State.serverApiUrl s)
  ∧ State.authHeader changed
    = (if affectsApiKey then State.authHeader hydrated else State.authHeader s).
Proof.
  intros Hkey changed hydrated. subst changed hydrated.
  unfold State.onDidChangeConfiguration, State.hydrateRuntimeState, Config.getApiKey.
  assert (Hpanel : Js.truthy Config.getPanelUrl = true) by reflexivity.
  rewrite Hpanel.
  assert (Hread : Config.nonblank (Config.apiKey c)
                  = match Config.apiKey c with
                    | Some k => if Js.truthy k then Some k else None
                    | None => None
                    end).
  { destruct (Config.apiKey c) as [k|] eqn:Hc; [|reflexivity].
    unfold Config.nonblank. destruct (Hkey k eq_refl) as [->|Htrim]; [reflexivity|].
    rewrite Htrim, andb_true_r. reflexivity. }
  rewrite Hread.
  destruct affectsServer, affectsApiKey, (Config.getServerId c) as [id|],
    (Config.apiKey c) as [k|]; try destruct (Js.truthy k); split; reflexivity.
Qed.

Lemma configuration_change_agrees_with_hydration_witness :
  let c := Config.mkSettings (Some "a1b2c3") (Some "0123456789abcdef0123456789abcdef") None in
  State.onDidChangeConfiguration true true c (State.mkRuntimeState "stale" "stale")
  = Demo.connected_state.
Proof.
  intros c.
  assert (Hkey : ∀ k, Config.apiKey c = Some k → k = "" ∨ Js.truthy (Js.trim k) = true).
  { intros k Hk. injection Hk as <-. right. reflexivity. }
  destruct (configuration_change_agrees_with_hydration true true c
              (State.mkRuntimeState "stale" "stale") Hkey) as [Hurl Hauth].
  destruct (State.onDidChangeConfiguration true true c (State.mkRuntimeState "stale" "stale"))
    as [url auth].
  cbn in Hurl, Hauth. rewrite Hurl, Hauth. reflexivity.
Defined.

End StateExtras.

(** *** Calls of [stat] that overlap *)
Module OverlapFacts.
Import Vscode Bridge BridgeFacts Overlap.
Local Open Scope async_scope.

Section Provider.
Context `{Platform} `{Environment} `{Dependencies}.

(** The two halves make up [stat]: a call of [stat] is its beginning, the
    time its request takes, and its rest. *)
Lemma stat_alone_is_stat (uri : Uri) (w : World) : stat_alone uri w = stat uri w.
Proof.
  destruct (Js.truthy (State.serverApiUrl (state w))) eqn:Hc.
  2:{ unfold stat_alone, stat_begin, stat, bind.
      rewrite (ensureConnected_disconnected w Hc). reflexivity. }
  unfold stat. unfold_run Hc.
  unfold stat_alone. unfold bind at 1. unfold stat_begin. unfold_run Hc.
  destruct (responseCache w !! cacheKey_of uri) as [c|]; [reflexivity|].
  destruct (String.eqb (path uri) "/"); [reflexivity|].
  unfold_run Hc.
  unfold bind, modify, ret, fetch, stat_resume, latency_of. cbn [fetches emit count_fetch].
  destruct (network (fetches w)) as [reason latency|r latency]; reflexivity.
Qed.

End Provider.

(** Two misses of one path that overlap: both find the cache empty, both
    store, both set a timer.  The timer of the first evicts the entry that
    the second has stored 5 s before, so a [stat] made 5 s after the second
    call returned is a miss and asks the network again; and at that moment
    a timer for the path is still pending. *)
Lemma overlapping_misses_evict_early :
  let listed := Responded (Demo.listing [Demo.file_entry "a.txt"]) 0 in
  let env := Demo.scripted [listed; listed; listed] [] in
  let file := Demo.uri_of "/a.txt" in
  let key := @cacheKey_of Demo.platform file in
  let w := Demo.world Demo.connected_state in
  let begun1 := @stat_begin Demo.platform file w in
  let begun2 := @stat_begin Demo.platform file begun1.2 in
  let done1 := @stat_resume Demo.platform env Demo.dependencies file 0 (advance 40 begun2.2) in
  let done2 := @stat_resume Demo.platform env Demo.dependencies file 1 (advance 5000 done1.2) in
  let later := advance 5000 done2.2 in
  let third := @stat Demo.platform env Demo.dependencies file later in
  begun1.1 = Ok (inr 0) ∧ begun2.1 = Ok (inr 1)
  ∧ done1.1 = Ok (mkFileStat 0 0 None 12 FileType_File)
  ∧ done2.1 = done1.1
  ∧ now done2.2 = 5040%N ∧ now later = 10040%N
  ∧ responseCache done2.2 !! key = Some (mkFileStat 0 0 None 12 FileType_File)
  ∧ responseCache later !! key = None
  ∧ map due (timers later) = [15040%N]
  ∧ third.1 = done1.1
  ∧ fetches later = 2 ∧ fetches third.2 = 3.
Proof. vm_compute. repeat split; reflexivity. Qed.

End OverlapFacts.

(** *** The guard of [delete] with [recursive = false] *)
Module DeleteGuard.
Import Vscode Bridge Observe BridgeFacts.
Local Open Scope async_scope.

Section Provider.
Context `{Platform} `{Environment} `{Dependencies}.

(** [readDirectory] on a connected provider: one listing request, and the
    entries exactly when the request is answered in 200..299 with a body
    that can be read and carries [data]. *)
Lemma readDirectory_run (uri : Uri) (w : World) :
  Js.truthy (State.serverApiUrl (state w)) = true →
  requests (readDirectory uri w).2 = (requests w ++ [list_request w (path uri)])%list
  ∧ ∀ items,
      (readDirectory uri w).1 = Ok items
      ↔ ∃ r latency j files,
          network (fetches w) = Responded r latency ∧ ok r = true
          ∧ body_json r = Some j ∧ data j = Some files ∧ items = map entry_of files.
Proof.
  intros Hc.
  destruct (readDirectory uri w) as [res w1] eqn:Erun. cbn [fst snd].
  revert Erun. unfold readDirectory. unfold_run Hc.
  unfold bind at 1, fetch at 1. cbn [fetches emit settings state].
  destruct (network (fetches w)) as [reason latency|r latency] eqn:Hnet.
  { intros [= <- <-]. autorewrite with frame. rewrite !app_nil_r. split; [reflexivity|].
    intros items. split; [discriminate|]. intros (r & l & j & files & [=] & _). }
  rewrite bind_log. cbv beta. unfold bind at 1.
  match goal with
  | |- context [forConnection ?op r ?w0] =>
      destruct (forConnection_run op r w0) as (w2 & E & _ & _ & _ & Hr & _);
      assert (Hreq : requests w2 = (requests w ++ [list_request w (path uri)])%list)
        by (rewrite Hr; autorewrite with frame; rewrite !app_nil_r; reflexivity)
  end.
  rewrite E.
  destruct (ok r) eqn:Hok.
  2:{ destruct (forConnection_error_not_ok r Hok) as [e He]. rewrite He.
      cbn [outcome_of]. intros [= <- <-].
      split; [exact Hreq|].
      intros items. split; [discriminate|].
      intros (r' & l & j & files & [= <- <-] & Hok' & _). congruence. }
  rewrite (forConnection_error_ok r Hok). cbn [outcome_of].
  unfold bind at 1, response_json.
  destruct (body_json r) as [j|] eqn:Hj.
  2:{ unfold throw. intros [= <- <-].
      split; [exact Hreq|].
      intros items. split; [discriminate|].
      intros (r' & l & j & files & [= <- <-] & _ & Hj' & _). congruence. }
  unfold ret at 1.
  destruct (data j) as [files|] eqn:Hd.
  2:{ unfold throw. intros [= <- <-].
      split; [exact Hreq|].
      intros items. split; [discriminate|].
      intros (r' & l & j' & files & [= <- <-] & _ & Hj' & Hd' & _).
      rewrite Hj in Hj'. injection Hj' as <-. congruence. }
  unfold ret. intros [= <- <-].
  split; [exact Hreq|].
  intros items. split.
  - intros [= <-]. exists r, latency, j, files. auto.
  - intros (r' & l & j' & files' & [= <- <-] & _ & Hj' & Hd' & ->).
    rewrite Hj in Hj'. injection Hj' as <-. rewrite Hd in Hd'. injection Hd' as <-.
    reflexivity.
Qed.

(** C4 (amended): on a connected provider, [delete] with [recursive = false]
    first lists the target, with one request that is no delete call.  It
    fails with Unavailable "Directory not empty" and sends no delete call
    exactly when that listing returns a non-empty array, which is exactly
    when the listing request is answered in 200..299 with a readable body
    whose [data] is non-empty.  In every other case (the request is
    rejected, the status is outside 200..299, the body cannot be read or
    has no [data], the array is empty) the delete call is sent after the
    listing, and its answer alone decides the result. *)
Theorem delete_nonrecursive_guarded_by_own_listing (uri : Uri) (w : World) :
  Js.truthy (State.serverApiUrl (state w)) = true →
  let listing := readDirectory uri w in
  let listed_nonempty := ∃ item items, listing.1 = Ok (item :: items) in
  requests listing.2 = (requests w ++ [list_request w (path uri)])%list
  ∧ is_delete_call (list_request w (path uri)) = false
  ∧ (listed_nonempty
     ↔ ∃ r latency j file files,
         network (fetches w) = Responded r latency ∧ ok r = true
         ∧ body_json r = Some j ∧ data j = Some (file :: files))
  ∧ (listed_nonempty →
     delete uri false w = (Throw (Unavailable "Directory not empty"), listing.2)
     ∧ deletions (requests listing.2) = deletions (requests w))
  ∧ ((listed_nonempty → False) →
     ∃ w', delete uri false w
           = (outcome_of (attempt_error (network (fetches listing.2))), w')
           ∧ requests w' = (requests listing.2 ++ [delete_request listing.2 uri])%list
           ∧ is_delete_call (delete_request listing.2 uri) = true).
Proof.
  intros Hc listing listed_nonempty. subst listed_nonempty listing.
  destruct (readDirectory_run uri w Hc) as [Hreq Hitems].
  split; [exact Hreq|]. split; [reflexivity|].
  split.
  { split.
    - intros (item & items & Hok).
      apply Hitems in Hok as (r & latency & j & files & Hnet & Hok & Hj & Hd & Hmap).
      destruct files as [|file files]; [discriminate|].
      exists r, latency, j, file, files. auto.
    - intros (r & latency & j & file & files & Hnet & Hok & Hj & Hd).
      exists (entry_of file), (map entry_of files). apply Hitems.
      exists r, latency, j, (file :: files). auto. }
  assert (Hdel : delete uri false w
                 = match readDirectory uri w with
                   | (Ok (_ :: _), w1) => (Throw (Unavailable "Directory not empty"), w1)
                   | (_, w1) =>
                       bind (fetch (delete_request w1 uri))
                            (fun response =>
                               forConnection ("delete: " +:+ Uri_toString uri) response) w1
                   end).
  { unfold delete. unfold_run Hc. cbn [negb]. unfold bind at 1. unfold bind at 1.
    unfold try_catch.
    destruct (readDirectory uri w) as [[[|item items]|e] w1]; reflexivity. }
  split.
  - intros (item & items & Hok). rewrite Hdel.
    destruct (readDirectory uri w) as [res w1]. cbn [fst snd] in *. subst res.
    split; [reflexivity|].
    unfold deletions. rewrite Hreq, List.filter_app. cbn [List.filter].
    change (is_delete_call (list_request w (path uri))) with false. cbn.
    by rewrite app_nil_r.
  - intros Hnot. rewrite Hdel.
    destruct (readDirectory uri w) as [res w1]. cbn [fst snd] in *.
    destruct (BridgeExtras.fetch_check_run (delete_request w1 uri)
                ("delete: " +:+ Uri_toString uri) w1) as (w' & E & Hr & _).
    destruct res as [[|item items]|e].
    + exists w'. split; [exact E|]. split; [exact Hr|reflexivity].
    + exfalso. apply Hnot. eauto.
    + exists w'. split; [exact E|]. split; [exact Hr|reflexivity].
Qed.

End Provider.

Lemma delete_nonrecursive_guarded_by_own_listing_witness :
  let env := Demo.scripted [Responded (Demo.listing [Demo.file_entry "a.txt"]) 5] [] in
  let w := Demo.world Demo.connected_state in
  let listing := @readDirectory Demo.platform env Demo.dependencies (Demo.uri_of "/data") w in
  @delete Demo.platform env Demo.dependencies (Demo.uri_of "/data") false w
  = (Throw (Unavailable "Directory not empty"), listing.2)
  ∧ deletions (requests listing.2) = [].
Proof.
  intros env w listing.
  destruct (@delete_nonrecursive_guarded_by_own_listing Demo.platform env Demo.dependencies
              (Demo.uri_of "/data") w eq_refl)
    as (_ & _ & _ & Hrefused & _).
  exact (Hrefused (ex_intro _ ("a.txt", FileType_File) (ex_intro _ [] eq_refl))).
Defined.

(** C4, as stated, fails: a directory that has just been listed as
    non-empty is deleted by [delete] with [recursive = false] when its own
    listing is answered 429: the error is caught, the delete call is sent,
    and the call succeeds. *)
Lemma delete_nonrecursive_nonempty_deleted_when_listing_fails :
  let listed := Responded (Demo.listing [Demo.file_entry "a.txt"]) 5 in
  let limited := Responded (Demo.reply 429 "Too Many Requests" [] None) 5 in
  let accepted := Responded (Demo.reply 204 "No Content" [] None) 5 in
  let env := Demo.scripted [listed; limited; accepted] [] in
  let w := Demo.world Demo.connected_state in
  let seen := @readDirectory Demo.platform env Demo.dependencies (Demo.uri_of "/data") w in
  let deleted :=
    @delete Demo.platform env Demo.dependencies (Demo.uri_of "/data") false seen.2 in
  seen.1 = Ok [("a.txt", FileType_File)]
  ∧ deleted.1 = Ok tt
  ∧ map req_body (requests deleted.2) = [NoBody; NoBody; DeleteBody "/" ["data"]]
  ∧ deletions (requests deleted.2) = [DeleteBody "/" ["data"]].
Proof. vm_compute. repeat split; reflexivity. Qed.

End DeleteGuard.

(** *** Responses with status 401 *)
Module Unauthorized.
Import Vscode Bridge Observe BridgeFacts.
Local Open Scope async_scope.

Section Provider.
Context `{Platform} `{Environment} `{Dependencies}.

(** A request answered 401 and handed to [forConnection]. *)
Lemma fetch_check_401 (q : Request) (operation : string) (w : World)
    (r : Response) (latency : N) :
  network (fetches w) = Responded r latency →
  status r = 401%N →
  ∃ w', bind (fetch q) (fun response => forConnection operation response) w
        = (Throw (NoPermissions (url r)), w')
        ∧ fetches w' = S (fetches w)
        ∧ prompts w' = S (prompts w)
        ∧ callbacks w' = callbacks w + (if authenticates (prompts w) then 1 else 0)
        ∧ requests w' = (requests w ++ [q])%list.
Proof.
  intros Hnet H401. answer_fetch Hnet.
  match goal with
  | |- context [forConnection operation r ?w0] =>
      destruct (forConnection_run operation r w0) as (w' & E & Hf & _ & _ & Hr & Hx)
  end.
  rewrite (forConnection_error_401 r H401) in E. rewrite H401 in Hx.
  destruct Hx as (Hp & Hcb & _).
  exists w'. split; [exact E|].
  rewrite Hf, Hp, Hcb, Hr. autorewrite with frame.
  cbn [fetches prompts count_fetch emit]. rewrite ?Nat.add_0_r.
  repeat split; reflexivity.
Qed.

(** The pre-create step of [writeFile] asks nothing of the user, whatever
    answers its request. *)
Lemma precreate_silent (uri : Uri) (w : World) :
  ∃ w',
    try_catch
      (s <- gets state ;;
       target <- proxyUrl (State.serverApiUrl s +:+ "/write?file=" +:+ path uri) ;;
       createResponse <- fetch (write_request s target []) ;;
       log ("createFile attempt: " +:+ pretty (status createResponse) +:+ " "
            +:+ statusText createResponse))
      (fun error => log ("Failed to create file first: " +:+ String_of_error error)) w
    = (Ok tt, w')
    ∧ state w' = state w ∧ settings w' = settings w
    ∧ fetches w' = S (fetches w)
    ∧ prompts w' = prompts w ∧ callbacks w' = callbacks w
    ∧ requests w' = (requests w ++ [upload_request w uri []])%list.
Proof.
  unfold try_catch. rewrite bind_gets, bind_proxyUrl. cbv beta.
  unfold bind, fetch, log, modify.
  destruct (network (fetches w)) as [reason latency|r latency];
    (eexists; split; [reflexivity|]);
    autorewrite with frame; cbn [state settings fetches prompts count_fetch emit];
    autorewrite with frame; cbn [state settings fetches prompts count_fetch emit];
    rewrite ?app_nil_r, ?Nat.add_0_r; repeat split; reflexivity.
Qed.

(** [writeFile] from its probe on: the pre-create, if any, is silent, and a
    401 on the content upload fails the call after one warning. *)
Lemma writeFile_upload_401
    (uri : Uri) (content : bytes) (create overwrite fileExists : bool) (w w1 : World) :
  Js.truthy (State.serverApiUrl (state w)) = true →
  writeFile_probe uri create overwrite w = (Ok fileExists, w1) →
  ∃ w2, prompts w2 = prompts w1 ∧ callbacks w2 = callbacks w1
        ∧ fetches w2 = (if negb fileExists && create then S (fetches w1) else fetches w1)
        ∧ ∀ r' l', network (fetches w2) = Responded r' l' → status r' = 401%N →
            ∃ w', writeFile uri content create overwrite w
                  = (Throw (NoPermissions (url r')), w')
                  ∧ fetches w' = S (fetches w2)
                  ∧ prompts w' = S (prompts w2)
                  ∧ callbacks w'
                    = callbacks w2 + (if authenticates (prompts w2) then 1 else 0).
Proof.
  intros Hc Hprobe.
  destruct (negb fileExists && create) eqn:Hpre.
  - destruct (precreate_silent uri w1) as (w2 & E2 & _ & _ & Hf2 & Hp2 & Hc2 & _).
    exists w2. split; [exact Hp2|]. split; [exact Hc2|]. split; [exact Hf2|].
    intros r' l' Hnet' H401'.
    unfold writeFile. unfold_run Hc. unfold bind at 1. rewrite Hprobe, Hpre.
    unfold bind at 1. rewrite E2. unfold_run Hc.
    match goal with
    | |- context [fetch ?q] =>
        destruct (fetch_check_401 q ("writeFile: " +:+ Uri_toString uri) w2 r' l' Hnet' H401')
          as (w' & E & Hf & Hp & Hcb & _)
    end.
    exists w'. auto.
  - exists w1. split; [reflexivity|]. split; [reflexivity|]. split; [reflexivity|].
    intros r' l' Hnet' H401'.
    unfold writeFile. unfold_run Hc. unfold bind at 1. rewrite Hprobe, Hpre.
    unfold_run Hc.
    match goal with
    | |- context [fetch ?q] =>
        destruct (fetch_check_401 q ("writeFile: " +:+ Uri_toString uri) w1 r' l' Hnet' H401')
          as (w' & E & Hf & Hp & Hcb & _)
    end.
    exists w'. auto.
Qed.

(** What [delete] with [recursive = false] does after a listing that
    failed. *)
Lemma delete_after_failed_listing (uri : Uri) (w w1 : World) (e : Error) :
  Js.truthy (State.serverApiUrl (state w)) = true →
  readDirectory uri w = (Throw e, w1) →
  ∃ w', delete uri false w = (outcome_of (attempt_error (network (fetches w1))), w')
        ∧ requests w' = (requests w1 ++ [delete_request w1 uri])%list.
Proof.
  intros Hc Hlist. unfold delete. unfold_run Hc. cbn [negb].
  unfold bind at 1. unfold bind at 1. unfold try_catch. rewrite Hlist.
  unfold ret at 1. cbn [length Nat.ltb Nat.leb]. unfold_run Hc.
  destruct (BridgeExtras.fetch_check_run (delete_request w1 uri)
              ("delete: " +:+ Uri_toString uri) w1) as (w' & E & Hr & _).
  exists w'. split; [exact E|exact Hr].
Qed.

(** The delete of the destination in [rename] and [copy] with [overwrite]:
    whatever it throws is caught. *)
Lemma overwrite_step (target : Uri) (w : World) :
  Js.truthy (State.serverApiUrl (state w)) = true →
  ∃ w1, try_catch (delete target true) (fun _ => ret tt) w = (Ok tt, w1)
        ∧ (delete target true w).2 = w1
        ∧ requests w1 = (requests w ++ [delete_request w target])%list
        ∧ fetches w1 = S (fetches w).
Proof.
  intros Hc.
  destruct (BridgeExtras.delete_recursive_run target w Hc) as (w1 & E1 & Hr1 & Hf1 & _).
  exists w1. unfold try_catch. rewrite E1.
  destruct (attempt_error (network (fetches w))); auto.
Qed.


End Provider.


End Unauthorized.
